(** * Photo consolidation pipeline (scripts/jmh_consolidation.py)

    A shallow embedding of [PhotoConsolidator] and [main] over an explicit
    file-system state, with the theorems that settle the specification's
    claims about duplicate resolution, date organisation and the merge into
    the persistent library.

    Modelling conventions
    - a path is the list of its components from the root; there are no
      symbolic links and no [..] components;
    - a file carries its bytes and its modification time; [shutil.copy2]
      and [os.rename] keep both;
    - strings are sequences of 8-bit characters: [lower], [strip],
      [isdigit] and the digit class of the date pattern are the ASCII ones;
    - the log file /tmp/photo_consolidation.log is the list of records
      [log] of the state, apart from the other paths, which are [disk];
    - the external programs (jdupes, exiftool, darktable-cli), the clock
      and the JSON printer are parameters of the development;
    - recursion through directory trees takes a fuel argument; running out
      of it is an outcome of its own, never confused with a Python
      exception. *)

From Stdlib Require Import ZArith Ascii String DecimalString DecimalNat.
From stdpp Require Import gmap strings list fin_maps.

Local Open Scope Z_scope.
Local Open Scope nat_scope.

(** ** Python string operations *)

Module PyStr.

Definition is_space (c : ascii) : bool :=
  let n := nat_of_ascii c in
  ((9 <=? n) && (n <=? 13)) || ((28 <=? n) && (n <=? 32)).

Definition is_digit (c : ascii) : bool :=
  let n := nat_of_ascii c in (48 <=? n) && (n <=? 57).

Fixpoint lstrip (s : string) : string :=
  match s with
  | EmptyString => EmptyString
  | String c s' => if is_space c then lstrip s' else s
  end.

Fixpoint rstrip (s : string) : string :=
  match s with
  | EmptyString => EmptyString
  | String c s' =>
      match rstrip s' with
      | EmptyString => if is_space c then EmptyString else String c EmptyString
      | r => String c r
      end
  end.

(** [str.strip()] *)
Definition strip (s : string) : string := lstrip (rstrip s).

Fixpoint startswith (p s : string) : bool :=
  match p, s with
  | EmptyString, _ => true
  | String a p', String b s' => if Ascii.eqb a b then startswith p' s' else false
  | String _ _, EmptyString => false
  end.

(** [sub in s] *)
Fixpoint contains (sub s : string) : bool :=
  startswith sub s ||
  match s with
  | EmptyString => false
  | String _ s' => contains sub s'
  end.

(** The scanner behind [str.split(sep)] for a non-empty separator: [skip]
    counts the characters of a separator occurrence still to be passed,
    [cur] is the piece being read, in reverse. [limit] is the number of
    cuts still allowed ([None]: no bound). *)
Fixpoint split_go (sep : string) (limit : option nat) (skip : nat)
    (cur : list ascii) (s : string) : list string :=
  match s with
  | EmptyString => [string_of_list_ascii (rev cur)]
  | String c s' =>
      match skip with
      | S k => split_go sep limit k cur s'
      | O =>
          let cut := match limit with Some O => false | _ => startswith sep s end in
          if cut then
            string_of_list_ascii (rev cur)
              :: split_go sep (pred <$> limit) (String.length sep - 1) [] s'
          else split_go sep limit O (c :: cur) s'
      end
  end.

Definition split (sep s : string) : list string := split_go sep None 0 [] s.

(** [s.split(sep, maxsplit)] *)
Definition split_max (sep : string) (maxsplit : nat) (s : string) : list string :=
  split_go sep (Some maxsplit) 0 [] s.

Definition lower_char (c : ascii) : ascii :=
  let n := nat_of_ascii c in
  if (65 <=? n) && (n <=? 90) then ascii_of_nat (n + 32) else c.

Fixpoint lower (s : string) : string :=
  match s with
  | EmptyString => EmptyString
  | String c s' => String (lower_char c) (lower s')
  end.

Fixpoint all_digits (s : string) : bool :=
  match s with
  | EmptyString => true
  | String c s' => is_digit c && all_digits s'
  end.

(** [str.isdigit()] *)
Definition isdigit (s : string) : bool :=
  match s with EmptyString => false | _ => all_digits s end.

(** [s.rfind('.')] *)
Fixpoint rfind (c : ascii) (s : string) : option nat :=
  match s with
  | EmptyString => None
  | String a s' =>
      match rfind c s' with
      | Some i => Some (S i)
      | None => if Ascii.eqb a c then Some 0 else None
      end
  end.

(** [str(n)] for a natural number *)
Definition str (n : nat) : string := NilEmpty.string_of_uint (Nat.to_uint n).

(** [f"{n:02d}"] *)
Definition fmt02 (n : nat) : string :=
  if n <? 10 then String "0" (str n) else str n.

(** [int(s)] on a string of decimal digits; [None] stands for ValueError *)
Definition int (s : string) : option nat :=
  match s with
  | EmptyString => None
  | _ => Nat.of_uint <$> NilEmpty.uint_of_string s
  end.

End PyStr.

(** The line feed, and [sep.join(parts)] *)
Definition NL : string := String "010" EmptyString.

Fixpoint join (sep : string) (parts : list string) : string :=
  match parts with
  | [] => EmptyString
  | [x] => x
  | x :: rest => (x +:+ sep +:+ join sep rest)%string
  end.

(** ** Outcomes and the state-and-exception monad *)

Inductive exn : Type :=
  | FileNotFoundError
  | FileExistsError
  | NotADirectoryError
  | IsADirectoryError
  | SameFileError
  | ShutilError
  | TimeoutExpired
  | ValueError
  | IndexError.

Global Instance exn_eq_dec : EqDecision exn.
Proof. solve_decision. Defined.

(** What a call leaves behind: a value, a raised exception, or the fuel of
    a recursive traversal used up; each with the state reached. *)
Inductive result (S A : Type) : Type :=
  | Ret (a : A) (s : S)
  | Raise (e : exn) (s : S)
  | OutOfFuel (s : S).
Arguments Ret {S A} a s.
Arguments Raise {S A} e s.
Arguments OutOfFuel {S A} s.

Definition final {S A} (r : result S A) : S :=
  match r with Ret _ s | Raise _ s | OutOfFuel s => s end.

Definition returns {S A} (r : result S A) : bool :=
  match r with Ret _ _ => true | _ => false end.

Definition value {S A : Type} (r : result S A) : option A :=
  match r with Ret a _ => Some a | _ => None end.

Definition M (S A : Type) : Type := S → result S A.

Definition ret {S A} (a : A) : M S A := λ s, Ret a s.
Definition raise {S A} (e : exn) : M S A := λ s, Raise e s.
Definition get {S} : M S S := λ s, Ret s s.
Definition modify {S} (f : S → S) : M S unit := λ s, Ret tt (f s).

Definition bind {S A B} (m : M S A) (k : A → M S B) : M S B :=
  λ s, match m s with
       | Ret a s' => k a s'
       | Raise e s' => Raise e s'
       | OutOfFuel s' => OutOfFuel s'
       end.

(** [try: m  except ...: h e] *)
Definition try_except {S A} (m : M S A) (h : exn → M S A) : M S A :=
  λ s, match m s with
       | Raise e s' => h e s'
       | r => r
       end.

Declare Scope py_scope.
Delimit Scope py_scope with py.
Notation "'let*' x ':=' m 'in' k" := (bind m (λ x, k))
  (at level 10, x binder, m at level 100, k at level 200) : py_scope.
Notation "m '>>' k" := (bind m (λ _, k))
  (at level 100, k at level 200, right associativity) : py_scope.
Local Open Scope py_scope.

(** [for x in xs: body x] *)
Fixpoint for_each {S X} (xs : list X) (body : X → M S unit) : M S unit :=
  match xs with
  | [] => ret tt
  | x :: xs' => (body x >> for_each xs' body)%py
  end.

(** A loop that carries a local variable. *)
Fixpoint foldM {S X A} (xs : list X) (body : X → A → M S A) (acc : A) : M S A :=
  match xs with
  | [] => ret acc
  | x :: xs' => (let* acc' := body x acc in foldM xs' body acc')%py
  end.

(** ** The file system *)

Abbreviation path := (list string).

Inductive node : Type :=
  | File (data : string) (mtime : Z)
  | Dir.

Global Instance node_eq_dec : EqDecision node.
Proof. solve_decision. Defined.

Abbreviation fs := (gmap (list string) node).

(** [Path.name] and [Path.parent] *)
Definition name (p : path) : string := List.last p EmptyString.
Definition parent (p : path) : path := removelast p.

Definition exists_ (m : fs) (p : path) : bool :=
  match m !! p with Some _ => true | None => false end.
Definition is_dir (m : fs) (p : path) : bool :=
  match m !! p with Some Dir => true | _ => false end.
Definition is_file (m : fs) (p : path) : bool :=
  match m !! p with Some (File _ _) => true | _ => false end.

(** The name [n] when [k] is the entry [n] of directory [d]. *)
Fixpoint child_of (d k : path) : option string :=
  match d, k with
  | [], [n] => Some n
  | x :: d', y :: k' => if decide (x = y) then child_of d' k' else None
  | _, _ => None
  end.

(** [os.listdir(d)] for an existing directory [d] *)
Definition listdir (m : fs) (d : path) : list string :=
  omap (λ kv, child_of d kv.1) (map_to_list m).

(** A file system is well formed when the root is a directory and every
    entry lies in a directory. *)
Definition wf (m : fs) : Prop :=
  m !! [] = Some Dir ∧ ∀ p n, is_Some (m !! (p ++ [n])) → m !! p = Some Dir.

(** The errno of a failed resolution of [p]: ENOTDIR when a component on
    the way is a regular file, ENOENT otherwise. *)
Fixpoint enotdir (m : fs) (pre rest : path) : bool :=
  match rest with
  | [] => false
  | c :: rest' => is_file m pre || enotdir m (pre ++ [c]) rest'
  end.

Definition errno (m : fs) (p : path) : exn :=
  if enotdir m [] p then NotADirectoryError else FileNotFoundError.

(** [Path.iterdir()]: the entries, each with the directory flag the scan
    records *)
Definition iterdir (d : path) : M fs (list (string * bool)) :=
  λ m, match m !! d with
       | Some Dir => Ret ((λ n, (n, is_dir m (d ++ [n]))) <$> listdir m d) m
       | Some (File _ _) => Raise NotADirectoryError m
       | None => Raise (errno m d) m
       end.

(** [os.mkdir(p)] *)
Definition os_mkdir (p : path) : M fs unit :=
  λ m, match m !! p with
       | Some _ => Raise FileExistsError m
       | None =>
           match m !! parent p with
           | Some Dir => Ret tt (<[p := Dir]> m)
           | _ => Raise (errno m p) m
           end
       end.

(** [Path.mkdir(parents=False, exist_ok=True)] *)
Definition mkdir_exist_ok (p : path) : M fs unit :=
  try_except (os_mkdir p)
    (λ e m, if is_dir m p then Ret tt m else Raise e m).

(** [Path.mkdir(parents=True, exist_ok=True)]: pathlib retries after
    creating the parent when [os.mkdir] reports ENOENT. [n] bounds the
    climb and is the number of components of [p]. *)
Fixpoint mkdir_parents_go (n : nat) (p : path) : M fs unit :=
  try_except (os_mkdir p)
    (λ e m,
       match e, n with
       | FileNotFoundError, S n' =>
           match p with
           | [] => Raise e m
           | _ => (mkdir_parents_go n' (parent p) >> mkdir_exist_ok p)%py m
           end
       | FileNotFoundError, O => Raise e m
       | _, _ => if is_dir m p then Ret tt m else Raise e m
       end).

Definition mkdir_parents (p : path) : M fs unit :=
  mkdir_parents_go (length p) p.

(** [os.makedirs(p)] with [exist_ok=False] *)
Definition os_makedirs (p : path) : M fs unit :=
  λ m, ((if exists_ m (parent p) then ret tt
         else try_except (mkdir_parents (parent p))
                (λ e, match e with FileExistsError => ret tt | _ => raise e end)) >>
        os_mkdir p)%py m.

(** [shutil.copy2(src, dst)]: into [dst] when it is a directory; an
    existing regular file at the target is overwritten. *)
Definition shutil_copy2 (src dst : path) : M fs unit :=
  λ m,
    let target := if is_dir m dst then dst ++ [name src] else dst in
    match m !! src with
    | None => Raise (errno m src) m
    | Some Dir => Raise IsADirectoryError m
    | Some (File d t) =>
        if decide (src = target) then Raise SameFileError m
        else match m !! target with
             | Some Dir => Raise IsADirectoryError m
             | Some (File _ _) => Ret tt (<[target := File d t]> m)
             | None =>
                 match m !! parent target with
                 | Some Dir => Ret tt (<[target := File d t]> m)
                 | _ => Raise (errno m target) m
                 end
             end
    end.

(** [shutil.copytree(src, dst)]: the entries are listed first, then the
    target is created (it must not exist), then every entry is copied; a
    failure on an entry is collected and raised as [shutil.Error] once all
    entries were tried. [copy_entry] is the body of that loop, [failed]
    the flag for a non-empty error list. *)
Definition copy_entry (copytree : path → path → M fs unit) (src dst : path)
    (entry : string * bool) (failed : bool) : M fs bool :=
  try_except
    ((if entry.2
      then copytree (src ++ [entry.1]) (dst ++ [entry.1])
      else shutil_copy2 (src ++ [entry.1]) (dst ++ [entry.1])) >>
     ret failed)
    (λ _, ret true).

Fixpoint shutil_copytree (fuel : nat) (src dst : path) : M fs unit :=
  match fuel with
  | O => λ m, OutOfFuel m
  | S fuel' =>
      let* entries := iterdir src in
      os_makedirs dst >>
      let* failed := foldM entries (copy_entry (shutil_copytree fuel') src dst) false in
      if failed then raise ShutilError else ret tt
  end.

(** The tree below [src] re-rooted at [dst], and what lies outside [src]. *)
Fixpoint strip_prefix (d k : path) : option path :=
  match d, k with
  | [], _ => Some k
  | x :: d', y :: k' => if decide (x = y) then strip_prefix d' k' else None
  | _ :: _, [] => None
  end.

Definition rekey (src dst : path) (m : fs) : fs :=
  list_to_map (omap (λ kv, (λ rest, (dst ++ rest, kv.2)) <$> strip_prefix src kv.1)
                 (map_to_list m))
  ∪ filter (λ kv, strip_prefix src kv.1 = None) m.

(** [shutil.move(src, dst)]. Into [dst] when it is a directory, refusing
    an existing entry there; otherwise [os.rename], which replaces an
    existing regular file at the target. When [os.rename] fails the
    library falls back on copying: [copy2] and [unlink] for a file (which
    fail the same way), [copytree] and [rmtree] for a directory (which
    create missing parents of the target). *)
Definition shutil_move (src dst : path) : M fs unit :=
  λ m,
    if is_dir m dst && bool_decide (src = dst) then Ret tt m
    else
      let real_dst := if is_dir m dst then dst ++ [name src] else dst in
      if is_dir m dst && exists_ m real_dst then Raise ShutilError m
      else
        match m !! src with
        | None => Raise (errno m src) m
        | Some (File d t) =>
            if decide (src = real_dst) then Ret tt m
            else match m !! real_dst, m !! parent real_dst with
                 | Some Dir, _ => Raise IsADirectoryError m
                 | Some (File _ _), _ | None, Some Dir =>
                     Ret tt (<[real_dst := File d t]> (delete src m))
                 | None, _ => Raise (errno m real_dst) m
                 end
        | Some Dir =>
            if exists_ m real_dst then Raise FileExistsError m
            else if bool_decide (is_Some (strip_prefix src real_dst))
            then Raise ShutilError m
            else match m !! parent real_dst with
                 | Some Dir => Ret tt (rekey src real_dst m)
                 | Some (File _ _) => Raise NotADirectoryError m
                 | None =>
                     (mkdir_parents (parent real_dst) >>
                      modify (rekey src real_dst))%py m
                 end
        end.

(** [PurePath.suffix] and [PurePath.stem] of a file name *)
Definition suffix (n : string) : string :=
  match PyStr.rfind "." n with
  | Some i =>
      if (0 <? i) && (i <? String.length n - 1)
      then substring i (String.length n - i) n
      else EmptyString
  | None => EmptyString
  end.

Definition stem (n : string) : string :=
  match PyStr.rfind "." n with
  | Some i =>
      if (0 <? i) && (i <? String.length n - 1) then substring 0 i n else n
  | None => n
  end.

(** [Path(s)] for the text of a path: the components between slashes,
    empty ones and [.] dropped; the working directory is the root. *)
Definition Path (s : string) : path :=
  filter (λ c, c ≠ EmptyString ∧ c ≠ "."%string) (PyStr.split "/" s).

(** ** Dates: [datetime.strptime(s, '%Y:%m:%d %H:%M:%S')] *)

Record datetime : Type := mk_datetime {
  year : nat; month : nat; day : nat;
  hour : nat; minute : nat; second : nat
}.

Module Strptime.

(** A pattern maps a text to its matches, most preferred first, each with
    the matched part and the rest: the order in which a backtracking
    matcher tries them. *)
Definition pat : Type := string → list (string * string).

Definition cls (f : ascii → bool) : pat :=
  λ s, match s with
       | String c s' => if f c then [(String c EmptyString, s')] else []
       | EmptyString => []
       end.

Definition chr (c : ascii) : pat := cls (Ascii.eqb c).
Definition rng (lo hi : nat) : pat :=
  cls (λ c, (lo <=? nat_of_ascii c) && (nat_of_ascii c <=? hi)).
Definition digit : pat := cls PyStr.is_digit.

Definition seq (p q : pat) : pat :=
  λ s, '(a, r) ← p s; '(b, r') ← q r; [((a +:+ b)%string, r')].
Definition alt (p q : pat) : pat := λ s, p s ++ q s.

Infix "·" := seq (at level 40, left associativity).
Infix "|||" := alt (at level 50, left associativity).

(** [\s*] and [\s+], greedy *)
Fixpoint spaces0 (s : string) : list (string * string) :=
  match s with
  | String c s' =>
      if PyStr.is_space c
      then (prod_map (String c) id <$> spaces0 s') ++ [(EmptyString, s)]
      else [(EmptyString, s)]
  | EmptyString => [(EmptyString, EmptyString)]
  end.

Definition spaces1 : pat :=
  λ s, match s with
       | String c s' =>
           if PyStr.is_space c then prod_map (String c) id <$> spaces0 s' else []
       | EmptyString => []
       end.

Definition d0 : nat := 48.

Definition pY : pat := digit · digit · digit · digit.
Definition pm : pat :=
  chr "1" · rng d0 (d0 + 2) ||| chr "0" · rng (d0 + 1) (d0 + 9) ||| rng (d0 + 1) (d0 + 9).
Definition pd : pat :=
  chr "3" · rng d0 (d0 + 1) ||| rng (d0 + 1) (d0 + 2) · digit
  ||| chr "0" · rng (d0 + 1) (d0 + 9) ||| rng (d0 + 1) (d0 + 9)
  ||| chr " " · rng (d0 + 1) (d0 + 9).
Definition pH : pat :=
  chr "2" · rng d0 (d0 + 3) ||| rng d0 (d0 + 1) · digit ||| digit.
Definition pM : pat := rng d0 (d0 + 5) · digit ||| digit.
Definition pS : pat :=
  chr "6" · rng d0 (d0 + 1) ||| rng d0 (d0 + 5) · digit ||| digit.

(** The compiled format, with its six groups. *)
Definition format_regex (s : string)
    : list (string * string * string * string * string * string * string) :=
  '(Y, r) ← pY s; '(_, r) ← chr ":" r;
  '(m, r) ← pm r; '(_, r) ← chr ":" r;
  '(d, r) ← pd r; '(_, r) ← spaces1 r;
  '(H, r) ← pH r; '(_, r) ← chr ":" r;
  '(Mi, r) ← pM r; '(_, r) ← chr ":" r;
  '(Se, r) ← pS r;
  [(Y, m, d, H, Mi, Se, r)].

Definition is_leap (y : nat) : bool :=
  (y mod 4 =? 0) && (negb (y mod 100 =? 0) || (y mod 400 =? 0)).

Definition days_in_month (y m : nat) : nat :=
  match m with
  | 2 => if is_leap y then 29 else 28
  | 4 | 6 | 9 | 11 => 30
  | _ => 31
  end.

(** [None] stands for ValueError: no match, unconverted data after the
    first match, or field values that are no date and time. *)
Definition strptime (s : string) : option datetime :=
  match format_regex s with
  | (Y, m, d, H, Mi, Se, r) :: _ =>
      match r with
      | EmptyString =>
          y ← PyStr.int Y; mo ← PyStr.int m; dd ← PyStr.int (PyStr.strip d);
          h ← PyStr.int H; mi ← PyStr.int Mi; sec ← PyStr.int Se;
          if (1 <=? y) && (1 <=? dd) && (dd <=? days_in_month y mo) && (sec <=? 59)
          then Some (mk_datetime y mo dd h mi sec)
          else None
      | _ => None
      end
  | [] => None
  end.

End Strptime.

(** ** The run state *)

Inductive level : Type := ERROR | WARNING | INFO.

(** The texts handed to the logger and kept in the error list. *)
Inductive message : Type :=
  | SourceNotFound (p : path)
  | FailedToCopy (p : path) (e : exn)
  | CopiedFrom (source_name : string) (copied : nat)
  | JdupesFailed (stderr : string)
  | JdupesTimedOut
  | JdupesNotInstalled
  | FoundDuplicates (total : nat)
  | FailedToMoveDuplicate (p : path) (e : exn)
  | MovedDuplicates (moved : nat)
  | FailedToOrganize (p : path) (e : exn)
  | Organized (count : nat)
  | OrganizedDirNotFound
  | DarktableUpdated
  | DarktableNotUpdated
  | FailedToImport (e : exn)
  | ConsolidationFailed (e : exn)
  | StrOf (e : exn)
  | StepNotImplemented (step : string).

(** [self.stats]; the total size is kept in bytes (the script divides by
    2^20 in floating point). *)
Record ConsolidationStats : Type := mk_stats {
  files_found : nat;
  duplicates_found : nat;
  files_copied : nat;
  total_size_mb : N;
  errors : list message
}.

Record source_info : Type := mk_source_info {
  src_path : path;
  file_count : nat;
  size_mb : N
}.

Abbreviation discovered := (list (string * source_info)).

(** The log file of [logging.basicConfig]: the [FileHandler] opens it when
    the module is loaded, and every record is appended to it. *)
Definition log_file : path := ["tmp"; "photo_consolidation.log"]%string.

(** The state of a run. [log] is the log file: the records appended to
    [log_file] so far, which the console handler prints as well. It is
    kept apart from [disk], which holds every other path, since the
    handler writes through the stream it opened, whatever the run does
    to the paths. What is said of [disk] is said of the paths other than
    [log_file]; what a run does to the log file is said of [log]. *)
Record world : Type := mk_world {
  disk : fs;
  stats : ConsolidationStats;
  log : list (level * message);
  stdout : list discovered
}.

Definition set_disk (m : fs) (w : world) : world :=
  mk_world m (stats w) (log w) (stdout w).
Definition set_stats (f : ConsolidationStats → ConsolidationStats) (w : world) : world :=
  mk_world (disk w) (f (stats w)) (log w) (stdout w).
Definition add_log (l : level) (msg : message) (w : world) : world :=
  mk_world (disk w) (stats w) (log w ++ [(l, msg)]) (stdout w).
Definition add_stdout (d : discovered) (w : world) : world :=
  mk_world (disk w) (stats w) (log w) (stdout w ++ [d]).

Definition set_files_found (n : nat) (s : ConsolidationStats) :=
  mk_stats n (duplicates_found s) (files_copied s) (total_size_mb s) (errors s).
Definition set_duplicates_found (n : nat) (s : ConsolidationStats) :=
  mk_stats (files_found s) n (files_copied s) (total_size_mb s) (errors s).
Definition set_files_copied (n : nat) (s : ConsolidationStats) :=
  mk_stats (files_found s) (duplicates_found s) n (total_size_mb s) (errors s).
Definition set_total_size_mb (n : N) (s : ConsolidationStats) :=
  mk_stats (files_found s) (duplicates_found s) (files_copied s) n (errors s).
Definition append_error (msg : message) (s : ConsolidationStats) :=
  mk_stats (files_found s) (duplicates_found s) (files_copied s) (total_size_mb s)
    (errors s ++ [msg]).

(** [logger.info], [logger.warning] and [logger.error] with a record that
    tells of the outcome: the record is appended to the log file. The
    lines that only announce a stage or tell of its progress are left
    out. *)
Definition logger (l : level) (msg : message) : M world unit := modify (add_log l msg).

(** A file-system operation run in the world. *)
Definition lift_fs {A} (c : M fs A) : M world A :=
  λ w, match c (disk w) with
       | Ret a m => Ret a (set_disk m w)
       | Raise e m => Raise e (set_disk m w)
       | OutOfFuel m => OutOfFuel (set_disk m w)
       end.

(** [os.walk(top)], top-down, with the loop body run on each directory
    before its subdirectories are entered; a directory that cannot be
    listed yields nothing. *)
Fixpoint os_walk {A} (fuel : nat) (top : path)
    (body : path → list string → A → M world A) (acc : A) : M world A :=
  match fuel with
  | O => λ w, OutOfFuel w
  | S fuel' =>
      λ w, match iterdir top (disk w) with
           | Ret entries _ =>
               (let* acc' := body top (fst <$> filter (λ e, e.2 = false) entries) acc in
                foldM (fst <$> filter (λ e, e.2 = true) entries)
                  (λ d a, os_walk fuel' (top ++ [d]) body a) acc')%py w
           | _ => Ret acc w
           end
  end.

(** What [subprocess.run] hands back or raises. *)
Inductive proc_result : Type :=
  | Completed (returncode : Z) (out err : string)
  | TimedOut
  | NotInstalled.

Definition subprocess_run {S} (r : proc_result) : M S (Z * string * string) :=
  match r with
  | Completed rc out err => ret (rc, out, err)
  | TimedOut => raise TimeoutExpired
  | NotInstalled => raise FileNotFoundError
  end.

(** [open(p, 'w')] followed by a write of [data] *)
Definition write_text (clock : Z) (p : path) (data : string) : M fs unit :=
  λ m, match m !! p, m !! parent p with
       | Some Dir, _ => Raise IsADirectoryError m
       | Some (File _ _), _ | None, Some Dir => Ret tt (<[p := File data clock]> m)
       | None, _ => Raise (errno m p) m
       end.

Record report : Type := mk_report {
  consolidation_date : string;
  statistics : ConsolidationStats;
  report_dry_run : bool;
  stage_directory : path
}.

Inductive step : Type := discover | gather | dedupe | organize | import | all.

Record args : Type := mk_args {
  arg_dry_run : bool;
  arg_stage_dir : path;
  arg_step : step
}.

(** ** class PhotoConsolidator *)

Definition photo_extensions : list string :=
  [".cr2"; ".raw"; ".dng"; ".nef"; ".arw"; ".orf"; ".rw2";
   ".jpg"; ".jpeg"; ".tif"; ".tiff"; ".png"; ".bmp"]%string.

Definition video_extensions : list string :=
  [".mp4"; ".mov"; ".avi"; ".mkv"; ".m4v"; ".3gp"]%string.

Definition raw_extensions : list string :=
  [".cr2"; ".raw"; ".dng"; ".nef"; ".arw"; ".orf"; ".rw2"]%string.

Definition sources : list (string * path) :=
  [("primary", ["data"; "Photography"]);
   ("media_drive", ["media"; "joel"]);
   ("external", ["mnt"; "external"])]%string.

Definition final_photo_dir : path := ["data"; "Photography"]%string.
Definition report_file : path := ["tmp"; "photo_consolidation_report.json"]%string.

Definition init_stats : ConsolidationStats := mk_stats 0 0 0 0%N [].

(** [f"{base_name}_{counter}{extension}"] *)
Definition suffixed (base_name : string) (counter : nat) (extension : string) : string :=
  (base_name +:+ "_" +:+ PyStr.str counter +:+ extension)%string.

(** The [while dest_item.exists()] loop of [_merge_directories], started
    at [counter]; [n] bounds the number of rounds. *)
Fixpoint unused_name (m : fs) (dest_dir : path) (base_name extension : string)
    (counter n : nat) : option path :=
  match n with
  | O => None
  | S n' =>
      let dest_item := dest_dir ++ [suffixed base_name counter extension] in
      if exists_ m dest_item
      then unused_name m dest_dir base_name extension (S counter) n'
      else Some dest_item
  end.

(** The body of the loop of [_merge_directories]. *)
Definition merge_entry (merge copytree : path → path → M fs unit)
    (src_dir dest_dir : path) (entry : string * bool) : M fs unit :=
  λ m,
    let src_item := src_dir ++ [entry.1] in
    let dest_item := dest_dir ++ [entry.1] in
    if is_dir m src_item then
      if exists_ m dest_item
      then merge src_item dest_item m
      else copytree src_item dest_item m
    else
      if exists_ m dest_item then
        match unused_name m dest_dir (stem entry.1) (suffix entry.1) 1 (S (size m)) with
        | Some dest_item' => shutil_copy2 src_item dest_item' m
        | None => OutOfFuel m
        end
      else shutil_copy2 src_item dest_item m.

Fixpoint _merge_directories (fuel : nat) (src_dir dest_dir : path) : M fs unit :=
  match fuel with
  | O => λ m, OutOfFuel m
  | S fuel' =>
      let* entries := iterdir src_dir in
      for_each entries
        (merge_entry (_merge_directories fuel') (shutil_copytree fuel') src_dir dest_dir)
  end.

Section Program.

(** The external collaborators. *)
Variable jdupes : fs → list path → proc_result.
Variable exiftool : fs → path → proc_result.
Variable darktable_cli : fs → proc_result.
Variable fromtimestamp : Z → datetime.
Variable now : string.
Variable clock : Z.
Variable json_dumps : report → string.

Section PhotoConsolidator.

(** [self.stage_dir], [self.dry_run] *)
Variable stage_dir : path.
Variable dry_run : bool.

Definition _count_photos_in_path (fuel : nat) (p : path) : M world nat :=
  os_walk fuel p
    (λ root files count,
       foldM files
         (λ file count,
            ret (if bool_decide (PyStr.lower (suffix file) ∈ photo_extensions)
                 then count + 1 else count))
         count)
    0.

Definition _get_directory_size_mb (fuel : nat) (p : path) : M world N :=
  os_walk fuel p
    (λ root files total_size,
       foldM files
         (λ file total_size w,
            match disk w !! (root ++ [file]) with
            | Some (File d _) => Ret (total_size + N.of_nat (String.length d))%N w
            | _ => Ret total_size w
            end)
         total_size)
    0%N.

Definition discover_photo_sources (fuel : nat) : M world discovered :=
  foldM sources
    (λ src discovered w,
       if exists_ (disk w) src.2 then
         (let* file_count := _count_photos_in_path fuel src.2 in
          let* size_mb := _get_directory_size_mb fuel src.2 in
          ret (discovered ++ [(src.1, mk_source_info src.2 file_count size_mb)]))%py w
       else (logger WARNING (SourceNotFound src.2) >> ret discovered)%py w)
    [].

Definition prepare_staging_area : M world unit :=
  if negb dry_run then
    lift_fs (mkdir_parents stage_dir >>
             mkdir_exist_ok (stage_dir ++ ["raw_photos"%string]) >>
             mkdir_exist_ok (stage_dir ++ ["processed_photos"%string]) >>
             mkdir_exist_ok (stage_dir ++ ["videos"%string]) >>
             mkdir_exist_ok (stage_dir ++ ["duplicates"%string]))%py
  else ret tt.

(** The staging subdirectory of an extension, [None] for [continue]. *)
Definition dest_subdir_of (extension : string) : option string :=
  if bool_decide (extension ∈ photo_extensions) then
    Some (if bool_decide (extension ∈ raw_extensions)
          then "raw_photos" else "processed_photos")%string
  else if bool_decide (extension ∈ video_extensions) then Some "videos"%string
  else None.

Definition _copy_photos_from_source (fuel : nat) (source_path : path)
    (source_name : string) : M world unit :=
  (let* copied :=
     os_walk fuel source_path
       (λ root files copied,
          foldM files
            (λ file copied,
               let file_path := root ++ [file] in
               let extension := PyStr.lower (suffix file) in
               match dest_subdir_of extension with
               | None => ret copied
               | Some dest_subdir =>
                   let dest_file := (source_name +:+ "_" +:+ file)%string in
                   let dest_path := stage_dir ++ [dest_subdir; dest_file] in
                   try_except
                     ((if negb dry_run
                       then lift_fs (shutil_copy2 file_path dest_path)
                       else ret tt) >>
                      modify (set_stats (λ s, set_files_copied (files_copied s + 1) s)) >>
                      ret (copied + 1))
                     (λ e,
                        logger ERROR (FailedToCopy file_path e) >>
                        modify (set_stats (append_error (FailedToCopy file_path e))) >>
                        ret copied)
               end)
            copied)
       0 in
   logger INFO (CopiedFrom source_name copied))%py.

Definition gather_all_photos (fuel : nat) (sources : discovered) : M world unit :=
  for_each sources
    (λ src, _copy_photos_from_source fuel (src_path src.2) src.1).

(** The loop of [_handle_duplicates]; its value is the local [moved]. *)
Definition quarantine (duplicate_file : string) (moved : nat) : M world nat :=
  let duplicate_path := Path (PyStr.strip duplicate_file) in
  λ w, if exists_ (disk w) duplicate_path then
         try_except
           (let dest_path := stage_dir ++ ["duplicates"%string; name duplicate_path] in
            lift_fs (shutil_move duplicate_path dest_path) >> ret (moved + 1))%py
           (λ e, logger ERROR (FailedToMoveDuplicate duplicate_path e) >> ret moved)%py
           w
       else Ret moved w.

Definition move_duplicates (jdupes_output : string) : M world nat :=
  let duplicate_groups := PyStr.split (NL +:+ NL) (PyStr.strip jdupes_output) in
  foldM duplicate_groups
    (λ group moved,
       if bool_decide (PyStr.strip group = EmptyString) then ret moved
       else
         let files := PyStr.split NL (PyStr.strip group) in
         if length files <? 2 then ret moved
         else foldM (tail files) quarantine moved)
    0.

Definition _handle_duplicates (jdupes_output : string) : M world unit :=
  (let* moved := move_duplicates jdupes_output in
   logger INFO (MovedDuplicates moved))%py.

(** The count [run_jdupes_deduplication] stores in the statistics. *)
Definition total_duplicates (out : string) : nat :=
  let duplicate_groups := PyStr.split (NL +:+ NL) (PyStr.strip out) in
  sum_list ((λ group, length (PyStr.split NL group) - 1)
              <$> filter (λ group, PyStr.strip group ≠ EmptyString) duplicate_groups).

Definition run_jdupes_deduplication : M world unit :=
  if dry_run then ret tt
  else
    try_except
      (λ w,
         (let* result :=
            subprocess_run
              (jdupes (disk w)
                 [stage_dir ++ ["raw_photos"%string];
                  stage_dir ++ ["processed_photos"%string]]) in
          let '(returncode, out, err) := result in
          if (returncode =? 0)%Z then
            modify (set_stats (set_duplicates_found (total_duplicates out))) >>
            logger INFO (FoundDuplicates (total_duplicates out)) >>
            _handle_duplicates out
          else
            logger ERROR (JdupesFailed err) >>
            modify (set_stats (append_error (JdupesFailed err))))%py w)
      (λ e,
         match e with
         | TimeoutExpired =>
             logger ERROR JdupesTimedOut >>
             modify (set_stats (append_error JdupesTimedOut))
         | FileNotFoundError =>
             logger ERROR JdupesNotInstalled >>
             modify (set_stats (append_error JdupesNotInstalled))
         | _ => raise e
         end)%py.

(** [photo_path.stat().st_mtime]; directories carry no time stamp here,
    and the organizer asks for regular files only. *)
Definition st_mtime (p : path) : M world Z :=
  λ w, match disk w !! p with
       | Some (File _ t) => Ret t w
       | Some Dir => Ret 0%Z w
       | None => Raise (errno (disk w) p) w
       end.

Definition _get_photo_date (photo_path : path) : M world datetime :=
  λ w,
    (let* parsed :=
       try_except
         (let* result := subprocess_run (exiftool (disk w) photo_path) in
          let '(returncode, out, _) := result in
          if (returncode =? 0)%Z && PyStr.contains "Date/Time Original" out then
            let date_line := PyStr.strip out in
            match PyStr.split_max ": " 1 date_line with
            | _ :: date_str :: _ =>
                match Strptime.strptime date_str with
                | Some d => ret (Some d)
                | None => raise ValueError
                end
            | _ => raise IndexError
            end
          else ret None)
         (λ e,
            match e with
            | TimeoutExpired | FileNotFoundError | ValueError => ret None
            | _ => raise e
            end) in
     match parsed with
     | Some d => ret d
     | None => let* t := st_mtime photo_path in ret (fromtimestamp t)
     end)%py w.

(** Where a file named [n] with date [d] goes. *)
Definition day_dir_of (d : datetime) : path :=
  stage_dir ++ ["organized"%string; PyStr.str (year d);
                PyStr.fmt02 (month d); PyStr.fmt02 (day d)].

(** The [try] block of [organize_by_date] for one file. *)
Definition organize_file (photo_file : path) (organized_count : nat) : M world nat :=
  (let* photo_date := _get_photo_date photo_file in
   let day_dir := day_dir_of photo_date in
   lift_fs (mkdir_parents day_dir) >>
   let dest_path := day_dir ++ [name photo_file] in
   lift_fs (shutil_move photo_file dest_path) >>
   ret (organized_count + 1))%py.

Definition organize_by_date : M world unit :=
  if dry_run then ret tt
  else
    (let organized_dir := stage_dir ++ ["organized"%string] in
     lift_fs (mkdir_exist_ok organized_dir) >>
     let photo_dirs := [stage_dir ++ ["raw_photos"%string];
                        stage_dir ++ ["processed_photos"%string]] in
     let* organized_count :=
       foldM photo_dirs
         (λ photo_dir organized_count w,
            if negb (exists_ (disk w) photo_dir) then Ret organized_count w
            else
              (let* entries := lift_fs (iterdir photo_dir) in
               foldM entries
                 (λ entry organized_count w,
                    let photo_file := photo_dir ++ [entry.1] in
                    if is_file (disk w) photo_file then
                      try_except (organize_file photo_file organized_count)
                        (λ e, logger ERROR (FailedToOrganize photo_file e) >>
                              ret organized_count)
                        w
                    else Ret organized_count w)
                 organized_count) w)
         0 in
     logger INFO (Organized organized_count))%py.

(** The body of the loop over the organized year directories. *)
Definition import_year (fuel : nat) (entry : string * bool) : M world unit :=
  λ w,
    let year_dir := stage_dir ++ ["organized"%string; entry.1] in
    if is_dir (disk w) year_dir && PyStr.isdigit entry.1 then
      let dest_year_dir := final_photo_dir ++ [entry.1] in
      if exists_ (disk w) dest_year_dir
      then lift_fs (_merge_directories fuel year_dir dest_year_dir) w
      else lift_fs (shutil_copytree fuel year_dir dest_year_dir) w
    else Ret tt w.

(** The inner [try] that asks darktable to rescan the library. *)
Definition update_darktable : M world unit :=
  try_except
    (λ w, (subprocess_run (darktable_cli (disk w)) >>
           logger INFO DarktableUpdated) w)
    (λ e,
       match e with
       | FileNotFoundError | TimeoutExpired => logger WARNING DarktableNotUpdated
       | _ => raise e
       end).

(** The outer [try] block of [import_to_darktable]. *)
Definition copy_organized (fuel : nat) : M world unit :=
  let* entries := lift_fs (iterdir (stage_dir ++ ["organized"%string])) in
  for_each entries (import_year fuel) >>
  update_darktable.

Definition import_to_darktable (fuel : nat) : M world unit :=
  if dry_run then ret tt
  else
    λ w,
      let organized_dir := stage_dir ++ ["organized"%string] in
      if negb (exists_ (disk w) organized_dir) then logger ERROR OrganizedDirNotFound w
      else
        try_except (copy_organized fuel)
          (λ e,
             logger ERROR (FailedToImport e) >>
             modify (set_stats (append_error (FailedToImport e))))
          w.

Definition generate_report : M world report :=
  λ w,
    let report := mk_report now (stats w) dry_run stage_dir in
    (lift_fs (write_text clock report_file (json_dumps report)) >> ret report)%py w.

(** Steps 2 to 7 of [run_full_consolidation]. *)
Definition run_stages (fuel : nat) (sources : discovered) : M world unit :=
  prepare_staging_area >>
  gather_all_photos fuel sources >>
  run_jdupes_deduplication >>
  organize_by_date >>
  import_to_darktable fuel >>
  generate_report >>
  ret tt.

Definition run_full_consolidation (fuel : nat) : M world unit :=
  try_except
    (let* sources := discover_photo_sources fuel in
     modify (set_stats (set_files_found (sum_list (file_count ∘ snd <$> sources)))) >>
     modify (set_stats (set_total_size_mb
                          (foldr N.add 0%N (size_mb ∘ snd <$> sources)))) >>
     run_stages fuel sources)
    (λ e,
       logger ERROR (ConsolidationFailed e) >>
       modify (set_stats (append_error (StrOf e))) >>
       raise e).

End PhotoConsolidator.

Definition step_name (s : step) : string :=
  match s with
  | discover => "discover" | gather => "gather" | dedupe => "dedupe"
  | organize => "organize" | import => "import" | all => "all"
  end.

(** [main()], on the parsed arguments; the consolidator it builds starts
    with zeroed statistics. *)
Definition main (fuel : nat) (a : args) : M world unit :=
  modify (set_stats (λ _, init_stats)) >>
  match arg_step a with
  | discover =>
      let* sources := discover_photo_sources fuel in
      modify (add_stdout sources)
  | all => run_full_consolidation (arg_stage_dir a) (arg_dry_run a) fuel
  | s => logger ERROR (StepNotImplemented (step_name s))
  end.

End Program.

(** ** What the theorems speak about *)

(** Run from [s], the computation [c] only adds entries to the file system
    [π s] and leaves it well formed; [Grows] says so from every well-formed
    state. *)
Definition grows {S A : Type} (π : S → fs) (c : M S A) (s : S) : Prop :=
  π s ⊆ π (final (c s)) ∧ wf (π (final (c s))).

Definition Grows {S A : Type} (π : S → fs) (c : M S A) : Prop :=
  ∀ s, wf (π s) → grows π c s.

(** Every run of [c] relates the state it starts from to the state it
    leaves, whatever the outcome. *)
Definition Steps {S A : Type} (R : relation S) (c : M S A) : Prop :=
  ∀ s, R s (final (c s)).

(** The statistics, and the disk, seen as what a step may leave alone. *)
Definition same_stats : relation world := λ w w', stats w' = stats w.
Definition same_disk : relation world := λ w w', disk w' = disk w.
Definition same_errors : relation world := λ w w', errors (stats w') = errors (stats w).

(** Every entry that [m'] has and [m] lacks lies at or below [d]. *)
Definition added_under (d : path) (m m' : fs) : Prop :=
  ∀ k, m !! k = None → is_Some (m' !! k) → d `prefix_of` k.

(** Every entry that [m'] has and [m] lacks is [d] or one of its ancestors. *)
Definition added_above (d : path) (m m' : fs) : Prop :=
  ∀ k, m !! k = None → is_Some (m' !! k) → k `prefix_of` d.

(** What the induction on the fuel of [shutil.copytree] carries: from a
    well-formed state where the target does not exist, the call only adds
    entries, and below the target when the target's parent is there. *)
Definition copytree_ok (rec : path → path → M fs unit) : Prop :=
  ∀ s d m, wf m → m !! d = None →
    grows id (rec s d) m ∧
    (m !! parent d = Some Dir → added_under d m (final (rec s d m))).

(** The groups of two lines or more that [_handle_duplicates] acts on, as
    lists of lines, and the lines after the first of each, in order. *)
Definition duplicate_groups (jdupes_output : string) : list (list string) :=
  filter (λ files, 2 ≤ length files)
    ((λ group, PyStr.split NL (PyStr.strip group))
       <$> filter (λ group, PyStr.strip group ≠ EmptyString)
             (PyStr.split (NL +:+ NL) (PyStr.strip jdupes_output))).

Definition path_of_line (line : string) : path := Path (PyStr.strip line).

(** The same groups as paths; the members after the first of each group. *)
Definition member_groups (jdupes_output : string) : list (list path) :=
  (λ files : list string, path_of_line <$> files) <$> duplicate_groups jdupes_output.

Definition later_members (jdupes_output : string) : list path :=
  concat (tail <$> member_groups jdupes_output).

(** The file at [p] taken to the directory [q] under its base name. *)
Definition relocate (q : path) (m : fs) (p : path) : fs :=
  match m !! p with
  | Some x => <[q ++ [name p] := x]> (delete p m)
  | None => m
  end.

(** The resolved capture date in the specification's words: the date
    parsed from the reader's original-capture field when the reader
    succeeds and the field parses, the modification time otherwise. *)
Definition capture_field (r : proc_result) : option string :=
  match r with
  | Completed rc out _ =>
      if (rc =? 0)%Z && PyStr.contains "Date/Time Original" out
      then PyStr.split_max ": " 1 (PyStr.strip out) !! 1
      else None
  | _ => None
  end.

Definition resolved_date (fromtimestamp : Z → datetime) (r : proc_result) (mtime : Z)
    : datetime :=
  match capture_field r ≫= Strptime.strptime with
  | Some d => d
  | None => fromtimestamp mtime
  end.

(** The length of the longest path of a file system. *)
Definition depth (m : fs) : nat := max_list (length <$> (map_to_list m).*1).

(** The disk is the same except possibly at [p]. *)
Definition same_disk_but (p : path) : relation world :=
  λ w w', ∀ k, k ≠ p → disk w' !! k = disk w !! k.

(** Apart from [p] and the log file every path of the disk is as it was,
    and the log file has only been appended to. *)
Definition kept_but (p : path) : relation world :=
  λ w w', (∀ k, k ≠ p → k ≠ log_file → disk w' !! k = disk w !! k)
          ∧ log w `prefix_of` log w'.

(** The counts of the discovery are the same. *)
Definition same_found : relation world :=
  λ w w', files_found (stats w') = files_found (stats w)
          ∧ total_size_mb (stats w') = total_size_mb (stats w).

(** The number of line feeds of a string. *)
Fixpoint count_nl (s : string) : nat :=
  match s with
  | EmptyString => 0
  | String c s' => (if Ascii.eqb "010" c then 1 else 0) + count_nl s'
  end.

(** The outcome is not an exhausted fuel. *)
Definition terminates {S A : Type} (r : result S A) : Prop :=
  match r with OutOfFuel _ => False | _ => True end.

(** From every state where [P] holds, [c] returns a value that satisfies
    [Q] and leaves a state where [P] holds. *)
Definition safe {S A : Type} (P : S → Prop) (Q : A → Prop) (c : M S A) : Prop :=
  ∀ s, P s → ∃ a s', c s = Ret a s' ∧ P s' ∧ Q a.

(** Well-formedness as a test, for concrete file systems. *)
Definition wfb (m : fs) : bool :=
  is_dir m [] &&
  forallb (λ kv, match kv.1 with [] => true | _ => is_dir m (parent kv.1) end)
    (map_to_list m).

(** ** Sample states *)

Module Sample.

Definition lib : path := ["data"; "Photography"]%string.
Definition staging : path := ["mnt"; "staging"]%string.
Definition organized : path := staging ++ ["organized"%string].

(** The directories leading to [p], [p] included. *)
Fixpoint dirs_to (pre p : path) : list (path * node) :=
  match p with
  | [] => [(pre, Dir)]
  | c :: p' => (pre, Dir) :: dirs_to (pre ++ [c]) p'
  end.

Definition no_tool (_ : fs) : proc_result := NotInstalled.
Definition no_tool2 (_ : fs) (_ : path) : proc_result := NotInstalled.
Definition no_jdupes (_ : fs) (_ : list path) : proc_result := NotInstalled.
Definition epoch (t : Z) : datetime := mk_datetime 2023 1 (Z.to_nat t) 0 0 0.
Definition no_json (_ : report) : string := "{}"%string.

Definition world_of (m : fs) : world := mk_world m init_stats [] [].

(** The library holds 2020/03/15/IMG_01.jpg; the organized tree brings a
    different file of that name for the same day, and a year the library
    does not have. *)
Definition conflict_fs : fs :=
  list_to_map
    (dirs_to [] (lib ++ ["2020"; "03"; "15"]%string) ++
     dirs_to [] (organized ++ ["2020"; "03"; "15"]%string) ++
     dirs_to [] (organized ++ ["2021"; "01"; "02"]%string) ++
     [(lib ++ ["2020"; "03"; "15"; "IMG_01.jpg"]%string, File "old" 5%Z);
      (organized ++ ["2020"; "03"; "15"; "IMG_01.jpg"]%string, File "new" 7%Z);
      (organized ++ ["2021"; "01"; "02"; "a.png"]%string, File "a" 9%Z)]).

(** Two byte-identical pairs found by the detector: [A_img001.cr2] is kept
    and [B_photo.cr2] set aside, [A_x.jpg] is kept and [B_y.jpg] set aside. *)
Definition raw : path := staging ++ ["raw_photos"%string].
Definition processed : path := staging ++ ["processed_photos"%string].
Definition quarantine_dir : path := staging ++ ["duplicates"%string].

Definition staged_fs : fs :=
  list_to_map
    (dirs_to [] raw ++ dirs_to [] processed ++ dirs_to [] quarantine_dir ++
     [(raw ++ ["A_img001.cr2"%string], File "raw bytes" 11%Z);
      (raw ++ ["B_photo.cr2"%string], File "raw bytes" 12%Z);
      (processed ++ ["A_x.jpg"%string], File "jpeg bytes" 13%Z);
      (processed ++ ["B_y.jpg"%string], File "jpeg bytes" 14%Z);
      (processed ++ ["A_z.png"%string], File "png bytes" 15%Z)]).

Definition staged_out : string :=
  join NL ["/mnt/staging/raw_photos/A_img001.cr2";
           "/mnt/staging/raw_photos/B_photo.cr2";
           "";
           "/mnt/staging/processed_photos/A_x.jpg";
           "/mnt/staging/processed_photos/B_y.jpg";
           ""; ""]%string.

(** Two groups found under subdirectories of the raw staging directory
    (the detector is run recursively); the members set aside are both
    named [x.jpg]. *)
Definition collision_fs : fs :=
  list_to_map
    (dirs_to [] (raw ++ ["a"%string]) ++ dirs_to [] (raw ++ ["b"%string]) ++
     dirs_to [] quarantine_dir ++
     [(raw ++ ["k1.jpg"%string], File "first picture" 21%Z);
      (raw ++ ["a"; "x.jpg"]%string, File "first picture" 22%Z);
      (raw ++ ["k2.jpg"%string], File "second picture" 23%Z);
      (raw ++ ["b"; "x.jpg"]%string, File "second picture" 24%Z)]).

Definition collision_out : string :=
  join NL ["/mnt/staging/raw_photos/k1.jpg";
           "/mnt/staging/raw_photos/a/x.jpg";
           "";
           "/mnt/staging/raw_photos/k2.jpg";
           "/mnt/staging/raw_photos/b/x.jpg";
           ""; ""]%string.

(** A detector output whose second path is not on disk. *)
Definition stale_out : string :=
  join NL ["/mnt/staging/raw_photos/A_img001.cr2";
           "/mnt/staging/raw_photos/gone.cr2"]%string.

Definition jdupes_says (out : string) (_ : fs) (_ : list path) : proc_result :=
  Completed 0 out EmptyString.

(** A staged photograph taken on 2019-07-04 and last modified in 2023. *)
Definition summer_fs : fs :=
  list_to_map
    (dirs_to [] raw ++ dirs_to [] processed ++
     [(processed ++ ["A_beach.jpg"%string], File "beach" 17%Z);
      (processed ++ ["A_scan.png"%string], File "scan" 18%Z)]).

Definition exif_2019 (_ : fs) (p : path) : proc_result :=
  if bool_decide (name p = "A_beach.jpg"%string)
  then Completed 0 ("Date/Time Original              : 2019:07:04 10:15:00" +:+ NL)
         EmptyString
  else Completed 0 EmptyString EmptyString.

(** The same staging area after an earlier run left a regular file named
    [2023] where the organizer wants a year directory. *)
Definition blocked_fs : fs :=
  <[organized ++ ["2023"%string] := File "stale" 1%Z]>
    (<[organized := Dir]> summer_fs).

(** A primary source with two photographs, a video and a text file, and
    a [/tmp] directory for the report. *)
Definition source_fs : fs :=
  list_to_map
    (dirs_to [] (lib ++ ["trip"%string]) ++ dirs_to [] ["tmp"%string] ++
     [(lib ++ ["a.JPG"%string], File "12345" 31%Z);
      (lib ++ ["trip"; "b.cr2"]%string, File "123" 32%Z);
      (lib ++ ["trip"; "c.mp4"]%string, File "1234567" 33%Z);
      (lib ++ ["trip"; "notes.txt"]%string, File "1" 34%Z)]).

(** A metadata reader that prints the capture field of [A_beach.jpg]
    with no value, and no field for any other file. *)
Definition exif_blank (_ : fs) (p : path) : proc_result :=
  if bool_decide (name p = "A_beach.jpg"%string)
  then Completed 0 ("Date/Time Original              : " +:+ NL) EmptyString
  else Completed 0 EmptyString EmptyString.

(** A regular file where the organized tree should be. *)
Definition misplaced_fs : fs :=
  <[organized := File "not a directory" 3%Z]> summer_fs.

End Sample.

(** ** Walks, as lists of paths *)

(** The regular files that [os.walk(top)] hands to the loop body, in the
    order of the walk: the files of [top], then those of each of its
    subdirectories in turn. *)
Fixpoint walk (fuel : nat) (m : fs) (top : path) : list path :=
  match fuel with
  | O => []
  | S fuel' =>
      match m !! top with
      | Some Dir =>
          ((λ n, top ++ [n]) <$> filter (λ n, is_dir m (top ++ [n]) = false) (listdir m top))
          ++ concat ((λ d, walk fuel' m (top ++ [d]))
                       <$> filter (λ n, is_dir m (top ++ [n]) = true) (listdir m top))
      | _ => []
      end
  end.

(** The regular files of the file system that lie below [top]. *)
Definition files_below (m : fs) (top : path) : list path :=
  filter (λ k, is_file m k = true ∧ top `prefix_of` k ∧ k ≠ top) (map_to_list m).*1.

(** [st_size] of a regular file, 0 for anything else. *)
Definition size_of (m : fs) (p : path) : N :=
  match m !! p with
  | Some (File d _) => N.of_nat (String.length d)
  | _ => 0%N
  end.

(** File names that the discovery counts, and that the staging copies. *)
Definition is_photo (n : string) : Prop := PyStr.lower (suffix n) ∈ photo_extensions.
Definition is_media (n : string) : Prop := is_Some (dest_subdir_of (PyStr.lower (suffix n))).

Global Instance is_photo_dec (n : string) : Decision (is_photo n).
Proof. unfold is_photo. apply _. Defined.

Global Instance is_media_dec (n : string) : Decision (is_media n).
Proof. unfold is_media. apply _. Defined.

(** The body of the loop of [_copy_photos_from_source] for one file of
    the directory [root]. *)
Definition copy_one (stage_dir : path) (dry_run : bool) (source_name : string)
    (root : path) (file : string) (copied : nat) : M world nat :=
  let file_path := root ++ [file] in
  let extension := PyStr.lower (suffix file) in
  match dest_subdir_of extension with
  | None => ret copied
  | Some dest_subdir =>
      let dest_file := (source_name +:+ "_" +:+ file)%string in
      let dest_path := stage_dir ++ [dest_subdir; dest_file] in
      try_except
        ((if negb dry_run
          then lift_fs (shutil_copy2 file_path dest_path)
          else ret tt) >>
         modify (set_stats (λ s, set_files_copied (files_copied s + 1) s)) >>
         ret (copied + 1))
        (λ e,
           logger ERROR (FailedToCopy file_path e) >>
           modify (set_stats (append_error (FailedToCopy file_path e))) >>
           ret copied)
  end.

(** The paths inside the three staging directories that the copies go to. *)
Definition staged (stage_dir : path) (k : path) : Prop :=
  ∃ sub rest, sub ∈ ["raw_photos"; "processed_photos"; "videos"]%string
              ∧ rest ≠ [] ∧ k = stage_dir ++ sub :: rest.

(** What a gathering may do to the state: entries change inside the
    staging directories only, no entry disappears, the directories are
    the same, every file holds the bytes and the time stamp of a file that
    was there before; of the statistics only the copy counter, which does
    not decrease, and the error list, which is extended; the log file is
    appended to. *)
Record gathered (stage_dir : path) (w w' : world) : Prop := mk_gathered {
  gathered_outside : ∀ k, ¬ staged stage_dir k → disk w' !! k = disk w !! k;
  gathered_kept : ∀ k, is_Some (disk w !! k) → is_Some (disk w' !! k);
  gathered_dirs : ∀ k, disk w' !! k = Some Dir ↔ disk w !! k = Some Dir;
  gathered_bytes : ∀ k d t, disk w' !! k = Some (File d t) →
                            ∃ k', disk w !! k' = Some (File d t);
  gathered_found : same_found w w';
  gathered_duplicates : duplicates_found (stats w') = duplicates_found (stats w);
  gathered_copied : files_copied (stats w) ≤ files_copied (stats w');
  gathered_errors : errors (stats w) `prefix_of` errors (stats w');
  gathered_log : log w `prefix_of` log w'
}.

(** The disk has the directories of [m0]. *)
Definition same_dirs (m0 : fs) (w : world) : Prop :=
  ∀ k, disk w !! k = Some Dir ↔ m0 !! k = Some Dir.

(** ** What the discovery finds *)

(** The number of photo files, of photo and video files, and of bytes
    below [p]. *)
Definition photos_below (m : fs) (p : path) : nat :=
  length (filter (λ k, is_photo (name k)) (files_below m p)).
Definition media_below (m : fs) (p : path) : nat :=
  length (filter (λ k, is_media (name k)) (files_below m p)).
Definition bytes_below (m : fs) (p : path) : N :=
  foldr N.add 0%N (size_of m <$> files_below m p).

(** Of the roots [l], those that exist, each with its counts; and the
    warnings for the others. *)
Definition found_in (m : fs) (l : list (string * path)) : discovered :=
  (λ src, (src.1, mk_source_info src.2 (photos_below m src.2) (bytes_below m src.2)))
    <$> filter (λ src, exists_ m src.2 = true) l.

Definition missing_in (m : fs) (l : list (string * path)) : list (level * message) :=
  (λ src, (WARNING, SourceNotFound src.2)) <$> filter (λ src, exists_ m src.2 = false) l.

(** What [run_jdupes_deduplication] reports when the detector did not
    succeed: a non-zero exit status, a timeout, or no detector at all. *)
Definition jdupes_failure (r : proc_result) : option message :=
  match r with
  | Completed rc _ err => if (rc =? 0)%Z then None else Some (JdupesFailed err)
  | TimedOut => Some JdupesTimedOut
  | NotInstalled => Some JdupesNotInstalled
  end.

(** The directories that [prepare_staging_area] makes inside the staging
    directory. *)
Definition staging_subdirs : list string :=
  ["raw_photos"; "processed_photos"; "videos"; "duplicates"]%string.

(** * Part II: properties *)

(** ** Paths and listings *)

Lemma parent_app (d : path) (n : string) : parent (d ++ [n]) = d.
Proof. apply removelast_last. Qed.

Lemma name_app (d : path) (n : string) : name (d ++ [n]) = n.
Proof. apply last_last. Qed.

Lemma path_split (p : path) : p ≠ [] → p = parent p ++ [name p].
Proof. intros Hp. by apply app_removelast_last. Qed.

Lemma app_singleton_inj (d d' : path) (n n' : string) :
  d ++ [n] = d' ++ [n'] → d = d' ∧ n = n'.
Proof. intros H. apply app_inj_tail in H. done. Qed.

Lemma child_of_Some (d k : path) (n : string) :
  child_of d k = Some n ↔ k = d ++ [n].
Proof.
  revert k. induction d as [|x d IH]; intros k; simpl.
  - destruct k as [|y [|z k]]; split; intros H; simplify_eq; done.
  - destruct k as [|y k]; [split; intros H; simplify_eq|].
    case_decide as Hxy.
    + subst y. rewrite IH. split; intros H; simplify_eq; done.
    + split; intros H; simplify_eq.
Qed.

Lemma elem_of_listdir (m : fs) (d : path) (n : string) :
  n ∈ listdir m d ↔ is_Some (m !! (d ++ [n])).
Proof.
  unfold listdir. rewrite list_elem_of_omap. split.
  - intros [[k v] [Hin Hc]]. simpl in Hc. apply child_of_Some in Hc as ->.
    apply elem_of_map_to_list in Hin. eauto.
  - intros [v Hv]. exists (d ++ [n], v). split.
    + by apply elem_of_map_to_list.
    + simpl. by apply child_of_Some.
Qed.

Lemma NoDup_omap_keys {K V B} (f : K → option B) (l : list (K * V)) :
  NoDup l.*1 →
  (∀ k k' b, f k = Some b → f k' = Some b → k = k') →
  NoDup (omap (λ kv, f kv.1) l).
Proof.
  intros Hnd Hinj. induction l as [|[k v] l IH]; simpl; [constructor|].
  inversion_clear Hnd as [|? ? Hk Hl]. simpl in *.
  destruct (f k) as [b|] eqn:Hfk; [|by apply IH].
  constructor; [|by apply IH].
  rewrite list_elem_of_omap. intros [[k' v'] [Hin Hf]]. simpl in Hf.
  assert (k = k') as -> by eauto.
  apply Hk. apply list_elem_of_fmap. by exists (k', v').
Qed.

Lemma NoDup_listdir (m : fs) (d : path) : NoDup (listdir m d).
Proof.
  apply (NoDup_omap_keys (child_of d)).
  - apply NoDup_fst_map_to_list.
  - intros k k' b Hk Hk'. apply child_of_Some in Hk, Hk'. congruence.
Qed.

(** ** Well-formed file systems *)

Lemma wf_root (m : fs) : wf m → m !! [] = Some Dir.
Proof. by intros [? _]. Qed.

Lemma wf_parent (m : fs) (p : path) (n : string) :
  wf m → is_Some (m !! (p ++ [n])) → m !! p = Some Dir.
Proof. intros [_ H]. apply H. Qed.

Lemma wf_below_None (m : fs) (p q : path) :
  wf m → m !! p = None → m !! (p ++ q) = None.
Proof.
  intros Hwf Hp. induction q as [|n q IH] using rev_ind.
  - by rewrite app_nil_r.
  - destruct (m !! (p ++ q ++ [n])) eqn:Hq; [|done].
    rewrite app_assoc in Hq. apply mk_is_Some, (wf_parent _ _ _ Hwf) in Hq.
    congruence.
Qed.

Lemma wf_below_File (m : fs) (p q : path) (d : string) (t : Z) :
  wf m → m !! p = Some (File d t) → q ≠ [] → m !! (p ++ q) = None.
Proof.
  intros Hwf Hp Hq. induction q as [|n q IH] using rev_ind; [done|].
  destruct (m !! (p ++ q ++ [n])) eqn:Hn; [|done].
  rewrite app_assoc in Hn. apply mk_is_Some, (wf_parent _ _ _ Hwf) in Hn.
  destruct q as [|x q]; [rewrite app_nil_r in Hn; congruence|].
  rewrite IH in Hn; done.
Qed.

Lemma wf_insert (m : fs) (p : path) (x : node) :
  wf m → m !! p = None → m !! parent p = Some Dir → wf (<[p := x]> m).
Proof.
  intros Hwf Hp Hpar.
  assert (p ≠ []) as Hne by (intros ->; rewrite (wf_root _ Hwf) in Hp; done).
  split.
  - rewrite lookup_insert_ne; [by apply wf_root | done].
  - intros q n Hq. destruct (decide (p = q ++ [n])) as [->|Hpq].
    + rewrite parent_app in Hpar. rewrite lookup_insert_ne; [done|].
      intros Heq. apply (f_equal length) in Heq. rewrite length_app in Heq.
      simpl in Heq. lia.
    + rewrite lookup_insert_ne in Hq by done.
      apply (wf_parent _ _ _ Hwf) in Hq.
      rewrite lookup_insert_ne; [done | congruence].
Qed.

Lemma wf_insert_file (m : fs) (p : path) (d d' : string) (t t' : Z) :
  wf m → m !! p = Some (File d t) → wf (<[p := File d' t']> m).
Proof.
  intros Hwf Hp.
  assert (p ≠ []) as Hne by (intros ->; rewrite (wf_root _ Hwf) in Hp; done).
  split.
  - rewrite lookup_insert_ne; [by apply wf_root | done].
  - intros q n Hq.
    assert (is_Some (m !! (q ++ [n]))) as Hq'.
    { destruct (decide (p = q ++ [n])) as [<-|]; [eauto|].
      by rewrite lookup_insert_ne in Hq. }
    apply (wf_parent _ _ _ Hwf) in Hq'.
    rewrite lookup_insert_ne; [done | congruence].
Qed.

Lemma wf_delete_file (m : fs) (p : path) (d : string) (t : Z) :
  wf m → m !! p = Some (File d t) → wf (delete p m).
Proof.
  intros Hwf Hp.
  assert (p ≠ []) as Hne by (intros ->; rewrite (wf_root _ Hwf) in Hp; done).
  split.
  - rewrite lookup_delete_ne; [by apply wf_root | done].
  - intros q n Hq.
    assert (is_Some (m !! (q ++ [n]))) as Hq'.
    { apply lookup_delete_is_Some in Hq. by destruct Hq. }
    apply (wf_parent _ _ _ Hwf) in Hq'.
    rewrite lookup_delete_ne; [done | congruence].
Qed.

Lemma exists_true (m : fs) (p : path) : exists_ m p = true ↔ is_Some (m !! p).
Proof.
  unfold exists_, is_Some. destruct (m !! p); split; intros H; eauto; try done.
  by destruct H.
Qed.

Lemma exists_false (m : fs) (p : path) : exists_ m p = false ↔ m !! p = None.
Proof. unfold exists_. destruct (m !! p); split; intros H; done. Qed.

Lemma is_dir_true (m : fs) (p : path) : is_dir m p = true ↔ m !! p = Some Dir.
Proof. unfold is_dir. destruct (m !! p) as [[]|]; split; intros H; done. Qed.

Lemma is_file_true (m : fs) (p : path) :
  is_file m p = true ↔ ∃ d t, m !! p = Some (File d t).
Proof.
  unfold is_file. destruct (m !! p) as [[]|]; split; intros H; eauto;
    try done; by destruct H as (? & ? & ?).
Qed.

(** ** The monad *)

Lemma bind_Ret {S A B} (c : M S A) (k : A → M S B) (s s' : S) (a : A) :
  c s = Ret a s' → bind c k s = k a s'.
Proof. unfold bind. by intros ->. Qed.

Lemma returns_Ret {S : Type} (r : result S unit) :
  returns r = true → r = Ret tt (final r).
Proof. by destruct r as [[] ?| |]. Qed.

Lemma value_Ret {S A : Type} (r : result S A) (a : A) :
  value r = Some a → r = Ret a (final r).
Proof. destruct r; simpl; congruence. Qed.

Lemma bind_final {S A B} (c : M S A) (k : A → M S B) (s : S) :
  final (bind c k s) =
  match c s with Ret a s' => final (k a s') | _ => final (c s) end.
Proof. unfold bind. by destruct (c s). Qed.

Section grows.
Context {S : Type} (π : S → fs).

Lemma grows_refl {A} (c : M S A) (s : S) :
  wf (π s) → final (c s) = s → grows π c s.
Proof. intros Hwf Hs. unfold grows. by rewrite Hs. Qed.

Lemma grows_bind {A B} (c : M S A) (k : A → M S B) (s : S) :
  grows π c s →
  (∀ a s', c s = Ret a s' → wf (π s') → grows π (k a) s') →
  grows π (bind c k) s.
Proof.
  intros [Hsub Hwf] Hk. unfold grows. rewrite bind_final.
  destruct (c s) as [a s'| |] eqn:Hc; simpl in *; try done.
  destruct (Hk a s' eq_refl Hwf) as [Hsub' Hwf']. split; [by etrans|done].
Qed.

Lemma grows_try_except {A} (c : M S A) (h : exn → M S A) (s : S) :
  grows π c s →
  (∀ e s', c s = Raise e s' → wf (π s') → grows π (h e) s') →
  grows π (try_except c h) s.
Proof.
  intros [Hsub Hwf] Hh. unfold grows, try_except.
  destruct (c s) as [|e s'|] eqn:Hc; simpl in *; try done.
  destruct (Hh e s' eq_refl Hwf) as [Hsub' Hwf']. split; [by etrans|done].
Qed.

Lemma Grows_ret {A} (a : A) : Grows π (ret a).
Proof. intros s Hwf. by apply grows_refl. Qed.

Lemma Grows_raise {A} (e : exn) : Grows π (raise e : M S A).
Proof. intros s Hwf. by apply grows_refl. Qed.

Lemma Grows_bind {A B} (c : M S A) (k : A → M S B) :
  Grows π c → (∀ a, Grows π (k a)) → Grows π (bind c k).
Proof. intros Hc Hk s Hwf. apply grows_bind; [by apply Hc|]. intros. by apply Hk. Qed.

Lemma Grows_try_except {A} (c : M S A) (h : exn → M S A) :
  Grows π c → (∀ e, Grows π (h e)) → Grows π (try_except c h).
Proof.
  intros Hc Hh s Hwf. apply grows_try_except; [by apply Hc|]. intros. by apply Hh.
Qed.

Lemma Grows_for_each {X} (xs : list X) (body : X → M S unit) :
  (∀ x, x ∈ xs → Grows π (body x)) → Grows π (for_each xs body).
Proof.
  induction xs as [|x xs IH]; intros Hb; simpl.
  - apply Grows_ret.
  - apply Grows_bind; [apply Hb; left|].
    intros _. apply IH. intros y Hy. apply Hb. by right.
Qed.

Lemma Grows_foldM {X A} (xs : list X) (body : X → A → M S A) (acc : A) :
  (∀ x a, x ∈ xs → Grows π (body x a)) → Grows π (foldM xs body acc).
Proof.
  revert acc. induction xs as [|x xs IH]; intros acc Hb; simpl.
  - apply Grows_ret.
  - apply Grows_bind; [apply Hb; left|].
    intros a. apply IH. intros y b Hy. apply Hb. by right.
Qed.

Lemma Grows_if {A} (b : bool) (c1 c2 : M S A) :
  Grows π c1 → Grows π c2 → Grows π (if b then c1 else c2).
Proof. by destruct b. Qed.

End grows.

(** ** Creating directories and copying files *)

Lemma os_mkdir_Ret (p : path) (m m' : fs) :
  os_mkdir p m = Ret tt m' →
  m !! p = None ∧ m !! parent p = Some Dir ∧ m' = <[p := Dir]> m.
Proof.
  unfold os_mkdir. destruct (m !! p) eqn:Hp; [done|].
  destruct (m !! parent p) as [[]|] eqn:Hpar; try done. by intros [= <-].
Qed.

Lemma os_mkdir_final (p : path) (m : fs) :
  final (os_mkdir p m) = m ∨ os_mkdir p m = Ret tt (<[p := Dir]> m).
Proof.
  unfold os_mkdir. destruct (m !! p); [by left|].
  destruct (m !! parent p) as [[]|]; auto.
Qed.

Lemma os_mkdir_Raise (p : path) (m m' : fs) (e : exn) :
  os_mkdir p m = Raise e m' → m' = m.
Proof.
  unfold os_mkdir. destruct (m !! p); [by intros [= _ <-]|].
  destruct (m !! parent p) as [[]|]; try done; by intros [= _ <-].
Qed.

Lemma Grows_os_mkdir (p : path) : Grows id (os_mkdir p).
Proof.
  intros m Hwf. destruct (os_mkdir_final p m) as [Hf|Hf].
  - by apply grows_refl.
  - pose proof (os_mkdir_Ret _ _ _ Hf) as (Hp & Hpar & _).
    unfold grows. rewrite Hf. simpl.
    split; [by apply insert_subseteq | by apply wf_insert].
Qed.

Lemma above_os_mkdir (p : path) (m : fs) : added_above p m (final (os_mkdir p m)).
Proof.
  intros k Hk Hk'. destruct (os_mkdir_final p m) as [Hf|Hf]; rewrite Hf in Hk'; simpl in Hk'.
  - rewrite Hk in Hk'. by destruct Hk'.
  - destruct (decide (p = k)) as [->|]; [done|].
    rewrite lookup_insert_ne, Hk in Hk' by done. by destruct Hk'.
Qed.

Lemma Grows_mkdir_exist_ok (p : path) : Grows id (mkdir_exist_ok p).
Proof.
  apply Grows_try_except; [apply Grows_os_mkdir|].
  intros e m Hwf. apply grows_refl; [done|]. by destruct (is_dir m p).
Qed.

Lemma Grows_mkdir_parents_go (n : nat) (p : path) : Grows id (mkdir_parents_go n p).
Proof.
  revert p. induction n as [|n IH]; intros p; simpl.
  - apply Grows_try_except; [apply Grows_os_mkdir|].
    intros e m Hwf. apply grows_refl; [done|]. destruct e; try done; by destruct (is_dir m p).
  - apply Grows_try_except; [apply Grows_os_mkdir|].
    intros e m Hwf.
    destruct e; try (apply grows_refl; [done|]; by destruct (is_dir m p)).
    destruct p as [|x p]; [by apply grows_refl|].
    apply Grows_bind; [apply IH | intros; apply Grows_mkdir_exist_ok | done].
Qed.

Lemma Grows_mkdir_parents (p : path) : Grows id (mkdir_parents p).
Proof. apply Grows_mkdir_parents_go. Qed.

Lemma Grows_os_makedirs (p : path) : Grows id (os_makedirs p).
Proof.
  intros m Hwf. unfold grows, os_makedirs.
  apply grows_bind; [|intros; by apply Grows_os_mkdir].
  destruct (exists_ m (parent p)); [by apply Grows_ret|].
  apply Grows_try_except; [apply Grows_mkdir_parents| |done].
  intros []; try apply Grows_raise; apply Grows_ret.
Qed.

Lemma added_under_refl (d : path) (m : fs) : added_under d m m.
Proof. intros k Hk. rewrite Hk. by intros []. Qed.

Lemma added_above_refl (d : path) (m : fs) : added_above d m m.
Proof. intros k Hk. rewrite Hk. by intros []. Qed.

Lemma added_above_trans (d d' : path) (m m1 m2 : fs) :
  added_above d m m1 → added_above d' m1 m2 → d `prefix_of` d' →
  added_above d' m m2.
Proof.
  intros H1 H2 Hd k Hk Hk'. destruct (m1 !! k) eqn:Hk1.
  - etrans; [|exact Hd]. apply H1; eauto.
  - by apply H2.
Qed.

Lemma added_under_trans (d d' : path) (m m1 m2 : fs) :
  added_under d m m1 → added_under d' m1 m2 → d `prefix_of` d' →
  added_under d m m2.
Proof.
  intros H1 H2 Hd k Hk Hk'. destruct (m1 !! k) eqn:Hk1.
  - apply H1; eauto.
  - etrans; [exact Hd|]. by apply H2.
Qed.

Lemma bind_above {A B : Type} (c : M fs A) (k : A → M fs B) (d d' : path) (m : fs) :
  added_above d m (final (c m)) →
  (∀ a m', c m = Ret a m' → added_above d' m' (final (k a m'))) →
  d `prefix_of` d' →
  added_above d' m (final (bind c k m)).
Proof.
  intros Hc Hk Hd. rewrite bind_final. destruct (c m) as [a m'| |] eqn:Hcm; simpl in *.
  - eapply added_above_trans; eauto.
  - eapply added_above_trans; eauto using added_above_refl.
  - eapply added_above_trans; eauto using added_above_refl.
Qed.

Lemma parent_prefix (p : path) : parent p `prefix_of` p.
Proof.
  destruct (decide (p = [])) as [->|Hp]; [done|].
  rewrite (path_split p Hp) at 2. by apply prefix_app_r.
Qed.

Lemma above_handler (p : path) (m : fs) (h : exn → M fs unit) :
  (∀ e, added_above p m (final (h e m))) →
  added_above p m (final (try_except (os_mkdir p) h m)).
Proof.
  intros Hh. unfold try_except. pose proof (above_os_mkdir p m) as H.
  destruct (os_mkdir p m) as [| e m'|] eqn:Hr; try exact H.
  apply os_mkdir_Raise in Hr as ->. apply Hh.
Qed.

Lemma above_mkdir_exist_ok (p : path) (m : fs) :
  added_above p m (final (mkdir_exist_ok p m)).
Proof.
  apply above_handler. intros e. destruct (is_dir m p); apply added_above_refl.
Qed.

Lemma above_mkdir_parents_go (n : nat) (p : path) (m : fs) :
  added_above p m (final (mkdir_parents_go n p m)).
Proof.
  revert p m. induction n as [|n IH]; intros p m; simpl; apply above_handler; intros e.
  - destruct e; try apply added_above_refl;
      destruct (is_dir m p); apply added_above_refl.
  - destruct e; try (destruct (is_dir m p); apply added_above_refl).
    destruct p as [|x p]; [apply added_above_refl|].
    eapply bind_above; [apply IH| |apply parent_prefix].
    intros. apply above_mkdir_exist_ok.
Qed.

Lemma above_os_makedirs (p : path) (m : fs) :
  added_above p m (final (os_makedirs p m)).
Proof.
  unfold os_makedirs.
  eapply bind_above; [| intros; apply above_os_mkdir | apply parent_prefix].
  destruct (exists_ m (parent p)); [apply added_above_refl|].
  unfold try_except, mkdir_parents.
  pose proof (above_mkdir_parents_go (length (parent p)) (parent p) m) as H.
  destruct (mkdir_parents_go _ _ m) as [|e ?|]; try done. by destruct e.
Qed.

Lemma os_makedirs_Ret (p : path) (m m' : fs) :
  os_makedirs p m = Ret tt m' → m' !! p = Some Dir.
Proof.
  unfold os_makedirs, bind. destruct (exists_ m (parent p)).
  - unfold ret. intros (_ & _ & ->)%os_mkdir_Ret. apply lookup_insert_eq.
  - destruct (try_except _ _ m) as [[] m1| |]; try done.
    intros (_ & _ & ->)%os_mkdir_Ret. apply lookup_insert_eq.
Qed.

Lemma wf_prefix (m : fs) (p q : path) :
  wf m → is_Some (m !! (p ++ q)) → q ≠ [] → m !! p = Some Dir.
Proof.
  intros Hwf. revert p. induction q as [|n q IH] using rev_ind; [done|].
  intros p Hq _. rewrite app_assoc in Hq. apply (wf_parent _ _ _ Hwf) in Hq.
  destruct q as [|x q]; [by rewrite app_nil_r in Hq|].
  apply IH; [by rewrite Hq | done].
Qed.

Lemma prefix_parent (k p : path) : k `prefix_of` p → k = p ∨ k `prefix_of` parent p.
Proof.
  intros [q ->]. destruct q as [|x q] using rev_ind; [left; by rewrite app_nil_r|].
  right. rewrite app_assoc, parent_app. by apply prefix_app_r.
Qed.

Lemma above_to_under (p : path) (m m' : fs) :
  wf m → m !! parent p = Some Dir → added_above p m m' → added_under p m m'.
Proof.
  intros Hwf Hpar Habove k Hk Hk'.
  destruct (prefix_parent k p (Habove k Hk Hk')) as [->|[q Hq]]; [done|].
  destruct q as [|x q]; [rewrite app_nil_r in Hq; congruence|].
  assert (m !! k = Some Dir); [|congruence].
  apply (wf_prefix m k (x :: q)); [done| |done]. rewrite <-Hq, Hpar. eauto.
Qed.

Lemma copy2_final (src dst : path) (m : fs) :
  m !! dst = None →
  final (shutil_copy2 src dst m) = m ∨
  ∃ d t, m !! src = Some (File d t) ∧ m !! parent dst = Some Dir ∧
         shutil_copy2 src dst m = Ret tt (<[dst := File d t]> m).
Proof.
  intros Hdst. unfold shutil_copy2, is_dir. rewrite Hdst.
  destruct (m !! src) as [[d t|]|] eqn:Hsrc; [|by left..].
  case_decide; [by left|]. rewrite Hdst.
  destruct (m !! parent dst) as [[]|] eqn:Hpar; [by left| |by left].
  right. eauto.
Qed.

Lemma copy2_grows (src dst : path) (m : fs) :
  wf m → m !! dst = None →
  grows id (shutil_copy2 src dst) m ∧
  added_under dst m (final (shutil_copy2 src dst m)).
Proof.
  intros Hwf Hdst. unfold grows.
  destruct (copy2_final src dst m Hdst) as [->|(d & t & Hsrc & Hpar & ->)]; simpl.
  - split; [done|]. apply added_under_refl.
  - split; [split; [by apply insert_subseteq | by apply wf_insert]|].
    intros k Hk Hk'. destruct (decide (dst = k)) as [->|]; [done|].
    rewrite lookup_insert_ne, Hk in Hk' by done. by destruct Hk'.
Qed.

(** ** [shutil.copytree] only adds, and only below its target *)

Lemma foldM_final {S X A : Type} (x : X) (xs : list X) (body : X → A → M S A) (acc : A) (s : S) :
  final (foldM (x :: xs) body acc s) =
  match body x acc s with
  | Ret a s' => final (foldM xs body a s')
  | r => final r
  end.
Proof. simpl. rewrite bind_final. by destruct (body x acc s). Qed.

Lemma copy_entry_final (rec : path → path → M fs unit) (src dst : path)
    (e : string * bool) (failed : bool) (m : fs) :
  final (copy_entry rec src dst e failed m) =
  final ((if e.2 then rec (src ++ [e.1]) (dst ++ [e.1])
          else shutil_copy2 (src ++ [e.1]) (dst ++ [e.1])) m).
Proof.
  unfold copy_entry, try_except, bind, ret. destruct e as [n []]; simpl.
  - by destruct (rec _ _ m).
  - by destruct (shutil_copy2 _ _ m).
Qed.


Lemma copy_loop_grows (rec : path → path → M fs unit) (src dst : path) :
  copytree_ok rec →
  ∀ (es : list (string * bool)) (failed : bool) (m : fs),
    wf m → m !! dst = Some Dir → NoDup es.*1 →
    (∀ n, n ∈ es.*1 → m !! (dst ++ [n]) = None) →
    grows id (foldM es (copy_entry rec src dst) failed) m ∧
    added_under dst m (final (foldM es (copy_entry rec src dst) failed m)).
Proof.
  intros Hrec. induction es as [|[n isdir] es IH]; intros failed m Hwf Hdst Hnd Hfresh.
  { simpl. split; [by apply grows_refl | apply added_under_refl]. }
  simpl in Hnd. inversion_clear Hnd as [|? ? Hn Hnd'].
  assert (m !! (dst ++ [n]) = None) as Hfn by (apply Hfresh; simpl; left).
  assert (let m1 := final (copy_entry rec src dst (n, isdir) failed m) in
          m ⊆ m1 ∧ wf m1 ∧ added_under (dst ++ [n]) m m1) as (Hsub & Hwf1 & Hadd).
  { rewrite copy_entry_final. simpl. destruct isdir.
    - destruct (Hrec (src ++ [n]) (dst ++ [n]) m Hwf Hfn) as [[? ?] Hu].
      split_and!; [done..|]. apply Hu. by rewrite parent_app.
    - destruct (copy2_grows (src ++ [n]) (dst ++ [n]) m Hwf Hfn) as [[? ?] Hu]. done. }
  unfold grows. rewrite foldM_final.
  destruct (copy_entry rec src dst (n, isdir) failed m) as [f m1|e m1|m1] eqn:Hce;
    simpl in Hsub, Hwf1, Hadd; simpl.
  2,3: split; [done|]; eapply added_under_trans;
       [apply added_under_refl | exact Hadd | by apply prefix_app_r].
  destruct (IH f m1) as [[Hsub2 Hwf2] Hadd2]; [done| | done | |].
  - by eapply lookup_weaken.
  - intros n' Hn'. destruct (m1 !! (dst ++ [n'])) eqn:Hm1; [|done].
    exfalso. assert (dst ++ [n] `prefix_of` dst ++ [n']) as [q Hq].
    { apply Hadd; [|eauto]. apply Hfresh. simpl. by right. }
    destruct q as [|x q].
    + rewrite app_nil_r in Hq. apply app_singleton_inj in Hq as [_ ->]. done.
    + apply (f_equal length) in Hq. rewrite !length_app in Hq. simpl in Hq. lia.
  - split; [split; [by etrans | done]|].
    intros k Hk Hk'. destruct (m1 !! k) eqn:Hk1.
    + etrans; [|apply Hadd; eauto]. by apply prefix_app_r.
    + by apply Hadd2.
Qed.

Lemma iterdir_Ret (d : path) (m m' : fs) (es : list (string * bool)) :
  iterdir d m = Ret es m' →
  m' = m ∧ m !! d = Some Dir ∧ es.*1 = listdir m d.
Proof.
  unfold iterdir. destruct (m !! d) as [[]|]; try done. intros [= <- <-].
  split_and!; [done..|]. rewrite <-list_fmap_compose. simpl.
  by rewrite list_fmap_id.
Qed.

Lemma iterdir_final (d : path) (m : fs) : final (iterdir d m) = m.
Proof. unfold iterdir. by destruct (m !! d) as [[]|]. Qed.

Lemma shutil_copytree_final (fuel : nat) (src dst : path) (m : fs) :
  final (shutil_copytree (S fuel) src dst m) =
  match iterdir src m with
  | Ret es _ =>
      match os_makedirs dst m with
      | Ret _ m1 => final (foldM es (copy_entry (shutil_copytree fuel) src dst) false m1)
      | r => final r
      end
  | _ => m
  end.
Proof.
  simpl. rewrite bind_final. pose proof (iterdir_final src m) as Hf.
  destruct (iterdir src m) as [es m0| |] eqn:Hit; simpl in Hf; subst; [|done..].
  rewrite bind_final. destruct (os_makedirs dst m) as [[] m1| |]; [|done..].
  rewrite bind_final. by destruct (foldM es _ false m1) as [[] ?| |].
Qed.

Lemma shutil_copytree_ok (fuel : nat) : copytree_ok (shutil_copytree fuel).
Proof.
  induction fuel as [|fuel IH]; intros src dst m Hwf Hdst.
  { split; [by apply grows_refl | intros; apply added_under_refl]. }
  unfold grows. rewrite shutil_copytree_final.
  destruct (iterdir src m) as [es m0|e m0|m0] eqn:Hit.
  2,3: (split; [done | intros; apply added_under_refl]).
  apply iterdir_Ret in Hit as (-> & Hsrc & Hes).
  pose proof (Grows_os_makedirs dst m Hwf) as [Hsub1 Hwf1].
  pose proof (above_os_makedirs dst m) as Habove.
  destruct (os_makedirs dst m) as [[] m1|e m1|m1] eqn:Hmk; simpl in Hsub1, Hwf1, Habove.
  2,3: (simpl; split; [done | intros; by apply above_to_under]).
  apply os_makedirs_Ret in Hmk.
  destruct (copy_loop_grows (shutil_copytree fuel) src dst IH es false m1)
    as [[Hsub2 Hwf2] Hadd2]; [done..| | |].
  { rewrite Hes. apply NoDup_listdir. }
  { intros n _. destruct (m1 !! (dst ++ [n])) eqn:Hn; [|done]. exfalso.
    assert (dst ++ [n] `prefix_of` dst) as [q Hq].
    { apply Habove; [|eauto]. by apply (wf_below_None m dst [n]). }
    apply (f_equal length) in Hq. rewrite !length_app in Hq. simpl in Hq. lia. }
  split; [split; [by etrans | done]|].
  intros Hpar k Hk Hk'. destruct (m1 !! k) eqn:Hk1.
  - apply (above_to_under dst m m1); eauto.
  - by apply Hadd2.
Qed.

(** ** The name search of the merge *)

Lemma length_append (s1 s2 : string) :
  String.length (s1 +:+ s2) = String.length s1 + String.length s2.
Proof. induction s1 as [|c s1 IH]; simpl; [done | by rewrite IH]. Qed.

Lemma append_inj_r (s1 s2 e : string) : (s1 +:+ e = s2 +:+ e)%string → s1 = s2.
Proof.
  revert s2. induction s1 as [|c s1 IH]; intros [|c' s2] H.
  - done.
  - apply (f_equal String.length) in H. simpl in H.
    rewrite !length_append in H. simpl in H. lia.
  - apply (f_equal String.length) in H. simpl in H.
    rewrite !length_append in H. simpl in H. lia.
  - simpl in H. injection H as -> H. f_equal. by apply IH.
Qed.

Lemma str_inj (i j : nat) : PyStr.str i = PyStr.str j → i = j.
Proof.
  unfold PyStr.str. intros H.
  apply (f_equal NilEmpty.uint_of_string) in H. rewrite !NilEmpty.usu in H.
  injection H as H. apply (f_equal Nat.of_uint) in H.
  by rewrite !Unsigned.of_to in H.
Qed.

Lemma suffixed_inj (b e : string) (i j : nat) :
  suffixed b i e = suffixed b j e → i = j.
Proof.
  unfold suffixed. intros H. apply String.app_inj in H.
  apply (String.app_inj "_") in H. apply append_inj_r in H. by apply str_inj.
Qed.

Lemma unused_name_Some (m : fs) (d : path) (b e : string) (c n : nat) (p : path) :
  unused_name m d b e c n = Some p →
  m !! p = None ∧
  ∃ k, c ≤ k ∧ p = d ++ [suffixed b k e] ∧
       ∀ j, c ≤ j < k → is_Some (m !! (d ++ [suffixed b j e])).
Proof.
  revert c. induction n as [|n IH]; intros c; simpl; [done|].
  destruct (exists_ m (d ++ [suffixed b c e])) eqn:Hex.
  - intros H. destruct (IH _ H) as (Hp & k & Hk & -> & Hlt). split; [done|].
    exists k. split_and!; [lia | done |]. intros j Hj.
    destruct (decide (j = c)) as [->|]; [by apply exists_true | apply Hlt; lia].
  - intros [= <-]. apply exists_false in Hex. split; [done|].
    exists c. split_and!; [lia | done | intros; lia].
Qed.

Lemma unused_name_None (m : fs) (d : path) (b e : string) (c n : nat) :
  unused_name m d b e c n = None →
  ∀ j, c ≤ j < c + n → is_Some (m !! (d ++ [suffixed b j e])).
Proof.
  revert c. induction n as [|n IH]; intros c; simpl; [intros; lia|].
  destruct (exists_ m (d ++ [suffixed b c e])) eqn:Hex; [|done].
  intros H j Hj. destruct (decide (j = c)) as [->|]; [by apply exists_true|].
  apply (IH _ H). lia.
Qed.

(** The search always ends: among [size m + 1] distinct names one is free. *)
Lemma unused_name_total (m : fs) (d : path) (b e : string) (c : nat) :
  is_Some (unused_name m d b e c (S (size m))).
Proof.
  destruct (unused_name m d b e c (S (size m))) eqn:Hu; [eauto|]. exfalso.
  pose proof (unused_name_None _ _ _ _ _ _ Hu) as Hall.
  set (f := λ j, d ++ [suffixed b j e]).
  assert (Inj (=) (=) f) as Hinj.
  { intros i j Hij. unfold f in Hij. apply app_singleton_inj in Hij as [_ Hij].
    by eapply suffixed_inj. }
  assert (f <$> seq c (S (size m)) ⊆+ (map_to_list m).*1) as Hsub.
  { apply NoDup_submseteq; [apply NoDup_fmap_2; [done | apply NoDup_seq]|].
    intros p (j & -> & Hj)%list_elem_of_fmap. apply elem_of_seq in Hj.
    destruct (Hall j) as [x Hx]; [lia|].
    apply list_elem_of_fmap. exists (f j, x). split; [done|].
    by apply elem_of_map_to_list. }
  apply submseteq_length in Hsub.
  rewrite !length_fmap, length_seq, length_map_to_list in Hsub. lia.
Qed.

(** ** The merge only adds *)

Lemma Grows_merge_entry (merge copytree : path → path → M fs unit)
    (src dest : path) (entry : string * bool) :
  (∀ s d, Grows id (merge s d)) → copytree_ok copytree →
  Grows id (merge_entry merge copytree src dest entry).
Proof.
  intros Hmerge Hcopy m Hwf. unfold grows, merge_entry.
  destruct (is_dir m (src ++ [entry.1])).
  - destruct (exists_ m (dest ++ [entry.1])) eqn:Hex.
    + by apply Hmerge.
    + apply exists_false in Hex. by eapply proj1, Hcopy.
  - destruct (exists_ m (dest ++ [entry.1])) eqn:Hex.
    + destruct (unused_name m dest _ _ 1 (S (size m))) as [p|] eqn:Hu.
      * apply unused_name_Some in Hu as [Hp _]. by eapply proj1, copy2_grows.
      * by apply grows_refl.
    + apply exists_false in Hex. by eapply proj1, copy2_grows.
Qed.

Lemma Grows_iterdir (d : path) : Grows id (iterdir d).
Proof. intros m Hwf. apply grows_refl; [done | apply iterdir_final]. Qed.

Lemma Grows_merge_directories (fuel : nat) (src dest : path) :
  Grows id (_merge_directories fuel src dest).
Proof.
  revert src dest. induction fuel as [|fuel IH]; intros src dest; simpl.
  - intros m Hwf. by apply grows_refl.
  - apply Grows_bind; [apply Grows_iterdir|]. intros es.
    apply Grows_for_each. intros entry _.
    apply Grows_merge_entry; [done | apply shutil_copytree_ok].
Qed.

Lemma Grows_shutil_copytree (fuel : nat) (src dst : path) (m : fs) :
  wf m → m !! dst = None → grows id (shutil_copytree fuel src dst) m.
Proof. intros Hwf Hdst. by eapply proj1, shutil_copytree_ok. Qed.

(** ** File-system operations in the world *)

Lemma lift_fs_final {A} (c : M fs A) (w : world) :
  disk (final (lift_fs c w)) = final (c (disk w)).
Proof. unfold lift_fs. by destruct (c (disk w)). Qed.

Lemma grows_lift_fs {A} (c : M fs A) (w : world) :
  grows id c (disk w) → grows disk (lift_fs c) w.
Proof. unfold grows. by rewrite lift_fs_final. Qed.

Lemma Grows_lift_fs {A} (c : M fs A) : Grows id c → Grows disk (lift_fs c).
Proof. intros H w Hwf. apply grows_lift_fs. by apply H. Qed.

Lemma grows_same {A} (c : M world A) (w : world) :
  wf (disk w) → disk (final (c w)) = disk w → grows disk c w.
Proof. intros Hwf Hs. unfold grows. by rewrite Hs. Qed.

Lemma Grows_modify_stats (f : ConsolidationStats → ConsolidationStats) :
  Grows disk (modify (set_stats f)).
Proof. intros w Hwf. by apply grows_same. Qed.

Lemma Grows_logger (l : level) (msg : message) : Grows disk (logger l msg).
Proof. intros w Hwf. by apply grows_same. Qed.

Lemma Grows_subprocess_run (r : proc_result) :
  Grows disk (subprocess_run r : M world _).
Proof. intros w Hwf. apply grows_refl; [done|]. by destruct r. Qed.

Lemma Grows_import_year (stage_dir : path) (fuel : nat) (entry : string * bool) :
  Grows disk (import_year stage_dir fuel entry).
Proof.
  intros w Hwf. unfold grows, import_year. cbn zeta.
  destruct (is_dir (disk w) _ && PyStr.isdigit entry.1); [|by apply grows_refl].
  destruct (exists_ (disk w) (final_photo_dir ++ [entry.1])) eqn:Hex.
  - apply grows_lift_fs. by apply Grows_merge_directories.
  - apply grows_lift_fs. apply exists_false in Hex. by apply Grows_shutil_copytree.
Qed.

Lemma Grows_update_darktable (darktable_cli : fs → proc_result) :
  Grows disk (update_darktable darktable_cli).
Proof.
  apply Grows_try_except.
  - intros w Hwf. unfold grows.
    apply grows_bind; [by apply Grows_subprocess_run|].
    intros. by apply Grows_logger.
  - intros []; try apply Grows_raise; apply Grows_logger.
Qed.

Lemma Grows_copy_organized (darktable_cli : fs → proc_result) (stage_dir : path)
    (fuel : nat) :
  Grows disk (copy_organized darktable_cli stage_dir fuel).
Proof.
  apply Grows_bind; [apply Grows_lift_fs, Grows_iterdir|]. intros es.
  apply Grows_bind; [|intros _; apply Grows_update_darktable].
  apply Grows_for_each. intros entry _. apply Grows_import_year.
Qed.

Lemma Grows_import_to_darktable darktable_cli (stage_dir : path) (dry_run : bool)
    (fuel : nat) :
  Grows disk (import_to_darktable darktable_cli stage_dir dry_run fuel).
Proof.
  unfold import_to_darktable. destruct dry_run; [apply Grows_ret|].
  intros w Hwf. unfold grows.
  destruct (negb (exists_ (disk w) (stage_dir ++ ["organized"%string]))).
  { by apply Grows_logger. }
  apply Grows_try_except; [apply Grows_copy_organized | | done].
  intros e. apply Grows_bind; [apply Grows_logger|].
  intros _. apply Grows_modify_stats.
Qed.

Lemma wfb_wf (m : fs) : wfb m = true → wf m.
Proof.
  unfold wfb. intros [Hroot Hall]%andb_prop. split; [by apply is_dir_true|].
  intros p n [x Hx]. rewrite forallb_forall in Hall.
  assert (In (p ++ [n], x) (map_to_list m)) as Hin.
  { by apply list_elem_of_In, elem_of_map_to_list. }
  apply Hall in Hin. cbn [fst] in Hin.
  destruct (p ++ [n]) eqn:Hpn; [by destruct p|]. rewrite <-Hpn in Hin.
  rewrite parent_app in Hin. by apply is_dir_true.
Qed.

(** ** The merge into the persistent library (C1, C10) *)

(** C1. Whatever the import stage does (dry run or not, destination year
    directory absent and copied wholesale or present and merged, ending
    normally, by an exception or by exhausting the traversal fuel), every
    entry of the persistent library that was there before is still there
    at its path with the same content; the same holds for a single call
    of [_merge_directories] and of [shutil.copytree] onto an absent
    target. *)
Theorem merge_keeps_library
    (darktable_cli : fs → proc_result) (stage_dir : path) (dry_run : bool)
    (fuel : nat) (w : world) (p : path) (x : node) :
  wf (disk w) →
  final_photo_dir `prefix_of` p →
  disk w !! p = Some x →
  disk (final (import_to_darktable darktable_cli stage_dir dry_run fuel w)) !! p = Some x
  ∧ (∀ src dest, final (_merge_directories fuel src dest (disk w)) !! p = Some x)
  ∧ (∀ src dest, disk w !! dest = None →
       final (shutil_copytree fuel src dest (disk w)) !! p = Some x).
Proof.
  intros Hwf _ Hp. split_and!.
  - destruct (Grows_import_to_darktable darktable_cli stage_dir dry_run fuel w Hwf)
      as [Hsub _].
    by eapply lookup_weaken.
  - intros src dest.
    destruct (Grows_merge_directories fuel src dest (disk w) Hwf) as [Hsub _].
    by eapply lookup_weaken.
  - intros src dest Hdest.
    destruct (Grows_shutil_copytree fuel src dest (disk w) Hwf Hdest) as [Hsub _].
    by eapply lookup_weaken.
Qed.

Lemma merge_keeps_library_witness :
  let w := Sample.world_of Sample.conflict_fs in
  let p := Sample.lib ++ ["2020"; "03"; "15"; "IMG_01.jpg"]%string in
  wf (disk w) ∧ final_photo_dir `prefix_of` p ∧ disk w !! p = Some (File "old" 5%Z)
  ∧ disk (final (import_to_darktable Sample.no_tool Sample.staging false 8 w)) !! p
    = Some (File "old" 5%Z).
Proof.
  intros w p.
  assert (wf (disk w)) as Hwf by (apply wfb_wf; vm_compute; reflexivity).
  assert (final_photo_dir `prefix_of` p) as Hpre by (eexists; reflexivity).
  assert (disk w !! p = Some (File "old" 5%Z)) as Hp by (vm_compute; reflexivity).
  split_and!; [done..|].
  exact (proj1 (merge_keeps_library Sample.no_tool Sample.staging false 8 w p _
                  Hwf Hpre Hp)).
Defined.

(** C10. The import stage only copies out of the organized staging tree:
    after it, every entry of that tree is still at its path, unchanged. *)
Theorem import_keeps_staging
    (darktable_cli : fs → proc_result) (stage_dir : path) (dry_run : bool)
    (fuel : nat) (w : world) (p : path) (x : node) :
  wf (disk w) →
  (stage_dir ++ ["organized"%string]) `prefix_of` p →
  disk w !! p = Some x →
  disk (final (import_to_darktable darktable_cli stage_dir dry_run fuel w)) !! p = Some x.
Proof.
  intros Hwf _ Hp.
  destruct (Grows_import_to_darktable darktable_cli stage_dir dry_run fuel w Hwf)
    as [Hsub _].
  by eapply lookup_weaken.
Qed.

Lemma import_keeps_staging_witness :
  let w := Sample.world_of Sample.conflict_fs in
  let p := Sample.organized ++ ["2020"; "03"; "15"; "IMG_01.jpg"]%string in
  wf (disk w) ∧ (Sample.staging ++ ["organized"%string]) `prefix_of` p
  ∧ disk w !! p = Some (File "new" 7%Z)
  ∧ disk (final (import_to_darktable Sample.no_tool Sample.staging false 8 w)) !! p
    = Some (File "new" 7%Z).
Proof.
  intros w p.
  assert (wf (disk w)) as Hwf by (apply wfb_wf; vm_compute; reflexivity).
  assert ((Sample.staging ++ ["organized"%string]) `prefix_of` p) as Hpre
    by (eexists; reflexivity).
  assert (disk w !! p = Some (File "new" 7%Z)) as Hp by (vm_compute; reflexivity).
  split_and!; [done..|].
  exact (import_keeps_staging Sample.no_tool Sample.staging false 8 w p _ Hwf Hpre Hp).
Defined.

(** ** Name conflicts in the merge (C7) *)

Lemma for_each_inv {S X : Type} (π : S → fs) (body : X → M S unit) :
  (∀ x, Grows π (body x)) →
  ∀ (xs : list X) (s s' : S) (e : X),
    wf (π s) → for_each xs body s = Ret tt s' → e ∈ xs →
    ∃ s1 s2, wf (π s1) ∧ π s ⊆ π s1 ∧ body e s1 = Ret tt s2 ∧ π s2 ⊆ π s'.
Proof.
  intros Hb. induction xs as [|x xs IH]; intros s s' e Hwf Hrun He.
  { by apply elem_of_nil in He. }
  simpl in Hrun. unfold bind in Hrun.
  destruct (body x s) as [[] s1| |] eqn:Hx; try done.
  destruct (Hb x s Hwf) as [Hsub1 Hwf1]. rewrite Hx in Hsub1, Hwf1. simpl in *.
  assert (Grows π (for_each xs body)) as Hrest by (apply Grows_for_each; auto).
  destruct (Hrest s1 Hwf1) as [Hsub2 _]. rewrite Hrun in Hsub2. simpl in Hsub2.
  apply elem_of_cons in He as [->|He].
  - exists s, s1. split_and!; done.
  - destruct (IH s1 s' e Hwf1 Hrun He) as (s2 & s3 & ? & ? & ? & ?).
    exists s2, s3. split_and!; try done. by etrans.
Qed.

Lemma lookup_None_weaken (m m' : fs) (p : path) : m ⊆ m' → m' !! p = None → m !! p = None.
Proof.
  intros Hsub Hp. destruct (m !! p) eqn:Hm; [|done].
  eapply lookup_weaken in Hm; [|done]. congruence.
Qed.

Lemma lookup_is_Some_weaken (m m' : fs) (p : path) :
  m ⊆ m' → is_Some (m !! p) → is_Some (m' !! p).
Proof. intros Hsub [x Hx]. exists x. by eapply lookup_weaken. Qed.

(** One round of the loop on a regular file whose name is taken at the
    destination: the file is copied under the first unused suffixed name. *)
Lemma merge_entry_conflict (merge copytree : path → path → M fs unit)
    (src dest : path) (n : string) (b : bool) (c : string) (t : Z) (m : fs) :
  wf m →
  m !! (src ++ [n]) = Some (File c t) →
  is_Some (m !! (dest ++ [n])) →
  ∃ k, 1 ≤ k
    ∧ m !! (dest ++ [suffixed (stem n) k (suffix n)]) = None
    ∧ (∀ j, 1 ≤ j < k → is_Some (m !! (dest ++ [suffixed (stem n) j (suffix n)])))
    ∧ merge_entry merge copytree src dest (n, b) m
      = Ret tt (<[dest ++ [suffixed (stem n) k (suffix n)] := File c t]> m).
Proof.
  intros Hwf Hsrc Hdest. unfold merge_entry. cbn [fst snd].
  unfold is_dir at 1. rewrite Hsrc.
  pose proof Hdest as Hex. apply exists_true in Hex. rewrite Hex.
  destruct (unused_name_total m dest (stem n) (suffix n) 1) as [p Hp]. rewrite Hp.
  apply unused_name_Some in Hp as (Hfresh & k & Hk & -> & Hlt).
  exists k. split_and!; try done.
  destruct (copy2_final (src ++ [n]) _ m Hfresh) as [Hf|(d & t' & Hs & _ & ->)].
  - exfalso. unfold shutil_copy2, is_dir in Hf. rewrite Hfresh, Hsrc in Hf.
    case_decide as Heq; [rewrite <-Heq, Hsrc in Hfresh; done|].
    rewrite Hfresh, parent_app, (wf_parent m dest n Hwf Hdest) in Hf. simpl in Hf.
    apply (f_equal (λ m', m' !! (dest ++ [suffixed (stem n) k (suffix n)]))) in Hf.
    rewrite lookup_insert_eq, Hfresh in Hf. done.
  - by simplify_eq.
Qed.

(** Every entry of [d] is a regular file. *)
Lemma merge_files_total (fuel : nat) (src dest : path) (m : fs) :
  wf m → m !! src = Some Dir → m !! dest = Some Dir →
  (∀ e, is_Some (m !! (src ++ [e])) → is_file m (src ++ [e]) = true) →
  returns (_merge_directories (S fuel) src dest m) = true.
Proof.
  intros Hwf Hsrc Hdest Hfiles. simpl. unfold bind.
  destruct (iterdir src m) as [es m0| |] eqn:Hit;
    [|unfold iterdir in Hit; rewrite Hsrc in Hit; done..].
  apply iterdir_Ret in Hit as (-> & _ & Hes).
  assert (∀ e, e ∈ es → is_file m (src ++ [e.1]) = true) as Hes'.
  { intros e He. apply Hfiles, elem_of_listdir. rewrite <-Hes.
    apply list_elem_of_fmap. by exists e. }
  clear Hes Hfiles Hsrc. revert m Hwf Hdest Hes'.
  induction es as [|[n b] es IH]; intros m Hwf Hdest Hes'; [done|].
  simpl. unfold bind.
  assert (is_file m (src ++ [n]) = true) as Hn by (apply (Hes' (n, b)); left).
  apply is_file_true in Hn as (c & t & Hn).
  assert (∃ p, m !! p = None ∧ parent p = dest ∧
               merge_entry (_merge_directories fuel) (shutil_copytree fuel) src dest (n, b) m
               = Ret tt (<[p := File c t]> m)) as (p & Hp & Hpar & ->).
  { destruct (m !! (dest ++ [n])) eqn:Hdn.
    - destruct (merge_entry_conflict (_merge_directories fuel) (shutil_copytree fuel)
                  src dest n b c t m Hwf Hn) as (k & _ & Hfresh & _ & Hr); [eauto|].
      eexists. split_and!; [exact Hfresh | apply parent_app | exact Hr].
    - exists (dest ++ [n]). split_and!; [done | apply parent_app |].
      unfold merge_entry. cbn [fst snd]. unfold is_dir at 1. rewrite Hn.
      assert (exists_ m (dest ++ [n]) = false) as -> by by apply exists_false.
      unfold shutil_copy2, is_dir. rewrite Hdn, Hn, parent_app, Hdest.
      case_decide as Heq; [rewrite Heq in Hn; congruence | by rewrite Hdn]. }
  assert (p ≠ dest) as Hpd by (intros ->; congruence).
  apply IH.
  - apply wf_insert; [done..|]. by rewrite Hpar.
  - by rewrite lookup_insert_ne.
  - intros e He. assert (is_file m (src ++ [e.1]) = true) as Hf by (apply Hes'; by right).
    apply is_file_true in Hf as (c' & t' & Hf). apply is_file_true.
    destruct (decide (p = src ++ [e.1])) as [->|]; [congruence|].
    exists c', t'. by rewrite lookup_insert_ne.
Qed.

Lemma merge_conflict_nested (n : string) (c : string) (t : Z) (fuel : nat) :
  ∀ (rel src dest : path) (m m' : fs),
    wf m →
    m !! (src ++ rel ++ [n]) = Some (File c t) →
    is_Some (m !! (dest ++ rel ++ [n])) →
    _merge_directories fuel src dest m = Ret tt m' →
    ∃ k, 1 ≤ k
      ∧ m' !! (dest ++ rel ++ [suffixed (stem n) k (suffix n)]) = Some (File c t)
      ∧ m !! (dest ++ rel ++ [suffixed (stem n) k (suffix n)]) = None
      ∧ (∀ j, 1 ≤ j < k →
           is_Some (m' !! (dest ++ rel ++ [suffixed (stem n) j (suffix n)]))).
Proof.
  induction fuel as [|fuel IH]; intros rel src dest m m' Hwf Hsrc Hdest Hrun; [done|].
  simpl in Hrun. unfold bind in Hrun.
  destruct (iterdir src m) as [es m0| |] eqn:Hit; try done.
  apply iterdir_Ret in Hit as (-> & _ & Hes).
  assert (∀ e, Grows id (merge_entry (_merge_directories fuel) (shutil_copytree fuel)
                           src dest e)) as Hbody.
  { intros e. apply Grows_merge_entry;
      [intros; apply Grows_merge_directories | apply shutil_copytree_ok]. }
  destruct rel as [|r rel].
  - simpl in Hsrc, Hdest.
    assert (∃ b, (n, b) ∈ es) as [b Hb].
    { assert (n ∈ es.*1) as (e & -> & He)%list_elem_of_fmap.
      { rewrite Hes. apply elem_of_listdir. eauto. }
      exists e.2. by destruct e. }
    destruct (for_each_inv id _ Hbody es m m' (n, b) Hwf Hrun Hb)
      as (m1 & m2 & Hwf1 & Hsub1 & Hstep & Hsub2). simpl in *.
    destruct (merge_entry_conflict (_merge_directories fuel) (shutil_copytree fuel)
                src dest n b c t m1 Hwf1) as (k & Hk & Hfresh & Hlt & Hr).
    { by eapply lookup_weaken. }
    { by eapply lookup_is_Some_weaken. }
    rewrite Hr in Hstep. injection Hstep as <-.
    exists k. split_and!; [done| | |].
    + eapply lookup_weaken; [|done]. apply lookup_insert_eq.
    + by eapply lookup_None_weaken.
    + intros j Hj. eapply lookup_is_Some_weaken; [done|].
      destruct (decide (dest ++ [suffixed (stem n) k (suffix n)]
                        = dest ++ [suffixed (stem n) j (suffix n)])) as [Heq|Hne].
      * rewrite <-Heq, lookup_insert_eq. eauto.
      * rewrite lookup_insert_ne by done. by apply Hlt.
  - assert (m !! (src ++ [r]) = Some Dir) as Hsr.
    { apply (wf_prefix m (src ++ [r]) (rel ++ [n])); [done| |by destruct rel].
      rewrite <-app_assoc. simpl. eauto. }
    assert (m !! (dest ++ [r]) = Some Dir) as Hdr.
    { apply (wf_prefix m (dest ++ [r]) (rel ++ [n])); [done| |by destruct rel].
      by rewrite <-app_assoc. }
    assert (∃ b, (r, b) ∈ es) as [b Hb].
    { assert (r ∈ es.*1) as (e & -> & He)%list_elem_of_fmap.
      { rewrite Hes. apply elem_of_listdir. eauto. }
      exists e.2. by destruct e. }
    destruct (for_each_inv id _ Hbody es m m' (r, b) Hwf Hrun Hb)
      as (m1 & m2 & Hwf1 & Hsub1 & Hstep & Hsub2). simpl in *.
    unfold merge_entry in Hstep. cbn [fst snd] in Hstep.
    assert (is_dir m1 (src ++ [r]) = true) as Hisd.
    { apply is_dir_true. by eapply lookup_weaken. }
    assert (exists_ m1 (dest ++ [r]) = true) as Hexd.
    { apply exists_true. eapply lookup_is_Some_weaken; [done|]. eauto. }
    rewrite Hisd, Hexd in Hstep.
    destruct (IH rel (src ++ [r]) (dest ++ [r]) m1 m2 Hwf1) as (k & Hk & Hnew & Hfresh & Hlt).
    { rewrite <-app_assoc. simpl. by eapply lookup_weaken. }
    { rewrite <-app_assoc. simpl. by eapply lookup_is_Some_weaken. }
    { done. }
    rewrite <-!app_assoc in Hnew, Hfresh. simpl in Hnew, Hfresh.
    exists k. split_and!; [done| | |].
    + by eapply lookup_weaken.
    + by eapply lookup_None_weaken.
    + intros j Hj. specialize (Hlt j Hj). rewrite <-app_assoc in Hlt. simpl in Hlt.
      by eapply lookup_is_Some_weaken.
Qed.

(** ** Relations kept by every step *)

Section steps.
Context {S : Type} (R : relation S) `{!PreOrder R}.

Lemma Steps_ret {A : Type} (a : A) : Steps R (ret a).
Proof. intros s. simpl. reflexivity. Qed.

Lemma Steps_raise {A : Type} (e : exn) : Steps R (raise e : M S A).
Proof. intros s. simpl. reflexivity. Qed.

Lemma Steps_bind {A B : Type} (c : M S A) (k : A → M S B) :
  Steps R c → (∀ a, Steps R (k a)) → Steps R (bind c k).
Proof.
  intros Hc Hk s. rewrite bind_final. specialize (Hc s).
  destruct (c s) as [a s'| |]; simpl in *; [|done..].
  etrans; [exact Hc | apply Hk].
Qed.

Lemma Steps_try_except {A : Type} (c : M S A) (h : exn → M S A) :
  Steps R c → (∀ e, Steps R (h e)) → Steps R (try_except c h).
Proof.
  intros Hc Hh s. unfold try_except. specialize (Hc s).
  destruct (c s) as [|e s'|]; simpl in *; [done| |done].
  etrans; [exact Hc | apply Hh].
Qed.

Lemma Steps_for_each {X : Type} (xs : list X) (body : X → M S unit) :
  (∀ x, Steps R (body x)) → Steps R (for_each xs body).
Proof.
  intros Hb. induction xs as [|x xs IH]; simpl; [apply Steps_ret|].
  apply Steps_bind; [apply Hb | intros _; apply IH].
Qed.

Lemma Steps_foldM {X A : Type} (xs : list X) (body : X → A → M S A) (acc : A) :
  (∀ x a, Steps R (body x a)) → Steps R (foldM xs body acc).
Proof.
  intros Hb. revert acc. induction xs as [|x xs IH]; intros acc; simpl; [apply Steps_ret|].
  apply Steps_bind; [apply Hb | intros a; apply IH].
Qed.

Lemma Steps_state {A : Type} (c : S → M S A) :
  (∀ s0, Steps R (c s0)) → Steps R (λ s, c s s).
Proof. intros Hc s. apply Hc. Qed.

Lemma Steps_subprocess_run (r : proc_result) : Steps R (subprocess_run r).
Proof. intros s. destruct r; simpl; reflexivity. Qed.

End steps.

Global Instance same_stats_po : PreOrder same_stats.
Proof. split; [done|]. intros x y z. unfold same_stats. congruence. Qed.
Global Instance same_disk_po : PreOrder same_disk.
Proof. split; [done|]. intros x y z. unfold same_disk. congruence. Qed.
Global Instance same_errors_po : PreOrder same_errors.
Proof. split; [done|]. intros x y z. unfold same_errors. congruence. Qed.

Lemma Steps_lift_fs_stats {A : Type} (c : M fs A) : Steps same_stats (lift_fs c).
Proof. intros w. unfold lift_fs. by destruct (c (disk w)). Qed.

Lemma Steps_logger_stats (l : level) (msg : message) : Steps same_stats (logger l msg).
Proof. done. Qed.

Lemma Steps_logger_disk (l : level) (msg : message) : Steps same_disk (logger l msg).
Proof. done. Qed.

Lemma Steps_modify_stats_disk (f : ConsolidationStats → ConsolidationStats) :
  Steps same_disk (modify (set_stats f)).
Proof. done. Qed.

Lemma Steps_stats_errors {A : Type} (c : M world A) :
  Steps same_stats c → Steps same_errors c.
Proof. intros H w. unfold same_errors. by rewrite (H w). Qed.

Lemma lift_fs_Ret {A : Type} (c : M fs A) (w w' : world) (a : A) :
  lift_fs c w = Ret a w' → c (disk w) = Ret a (disk w').
Proof. unfold lift_fs. destruct (c (disk w)); try done. by intros [= <- <-]. Qed.

Lemma lift_iterdir_Ret (d : path) (w w' : world) (es : list (string * bool)) :
  lift_fs (iterdir d) w = Ret es w' →
  w' = w ∧ disk w !! d = Some Dir ∧ es.*1 = listdir (disk w) d.
Proof.
  intros H. pose proof (lift_fs_Ret _ _ _ _ H) as H'.
  apply iterdir_Ret in H' as (Hd & ? & ?). split_and!; [|done..].
  unfold lift_fs in H. destruct (iterdir d (disk w)); try done.
  injection H as <- <-. simpl in Hd. subst. by destruct w.
Qed.

Lemma Steps_update_darktable (R : relation world) `{!PreOrder R}
    (darktable_cli : fs → proc_result) :
  (∀ l msg, Steps R (logger l msg)) →
  Steps R (update_darktable darktable_cli).
Proof.
  intros Hlog. apply Steps_try_except; [done| |].
  - apply (Steps_state R (λ w0, subprocess_run (darktable_cli (disk w0)) >>
                                logger INFO DarktableUpdated)).
    intros w0. apply Steps_bind; [done | by apply Steps_subprocess_run | done].
  - intros []; try (by apply Steps_raise); apply Hlog.
Qed.

Lemma Steps_import_year_stats (stage_dir : path) (fuel : nat) (entry : string * bool) :
  Steps same_stats (import_year stage_dir fuel entry).
Proof.
  intros w. unfold import_year. cbn zeta.
  destruct (_ && _); [|done]. destruct (exists_ _ _); apply Steps_lift_fs_stats.
Qed.

Lemma Steps_copy_organized_stats (darktable_cli : fs → proc_result)
    (stage_dir : path) (fuel : nat) :
  Steps same_stats (copy_organized darktable_cli stage_dir fuel).
Proof.
  apply Steps_bind; [apply _ | apply Steps_lift_fs_stats |]. intros es.
  apply Steps_bind; [apply _ | |].
  - apply Steps_for_each; [apply _|]. intros e. apply Steps_import_year_stats.
  - intros _. apply Steps_update_darktable; [apply _ | apply Steps_logger_stats].
Qed.

(** The import stage, when it reports no error, has merged every year. *)
Lemma import_conflict (darktable_cli : fs → proc_result) (stage_dir : path)
    (fuel : nat) (w w' : world) (y n : string) (rel : path) (c : string) (t : Z) :
  wf (disk w) →
  PyStr.isdigit y = true →
  disk w !! (stage_dir ++ ["organized"%string; y] ++ rel ++ [n]) = Some (File c t) →
  is_Some (disk w !! (final_photo_dir ++ [y] ++ rel ++ [n])) →
  import_to_darktable darktable_cli stage_dir false fuel w = Ret tt w' →
  errors (stats w') = errors (stats w) →
  ∃ k, 1 ≤ k
    ∧ disk w' !! (final_photo_dir ++ [y] ++ rel ++ [suffixed (stem n) k (suffix n)])
      = Some (File c t)
    ∧ disk w !! (final_photo_dir ++ [y] ++ rel ++ [suffixed (stem n) k (suffix n)]) = None
    ∧ (∀ j, 1 ≤ j < k →
         is_Some (disk w' !! (final_photo_dir ++ [y] ++ rel
                                ++ [suffixed (stem n) j (suffix n)]))).
Proof.
  intros Hwf Hy Hsrc Hdest Hrun Herr.
  assert (disk w !! (stage_dir ++ ["organized"%string]) = Some Dir) as Horg.
  { apply (wf_prefix _ _ ([y] ++ rel ++ [n])); [done| |done].
    rewrite <-app_assoc. simpl. eauto. }
  assert (disk w !! (stage_dir ++ ["organized"%string; y]) = Some Dir) as Hyd.
  { apply (wf_prefix _ _ (rel ++ [n])); [done| |by destruct rel].
    rewrite <-app_assoc. eauto. }
  assert (disk w !! (final_photo_dir ++ [y]) = Some Dir) as Hld.
  { apply (wf_prefix _ _ (rel ++ [n])); [done| |by destruct rel].
    by rewrite <-app_assoc. }
  unfold import_to_darktable in Hrun. cbn zeta in Hrun.
  assert (exists_ (disk w) (stage_dir ++ ["organized"%string]) = true) as Hex
    by (apply exists_true; eauto).
  rewrite Hex in Hrun. cbn [negb] in Hrun.
  unfold try_except in Hrun.
  pose proof (Steps_copy_organized_stats darktable_cli stage_dir fuel w) as Hst.
  unfold same_stats in Hst.
  destruct (copy_organized darktable_cli stage_dir fuel w) as [[] w1|e w1|w1] eqn:Hco;
    simpl in Hst.
  3: done.
  2: { exfalso. unfold bind, logger, modify in Hrun. injection Hrun as <-.
       simpl in Herr. rewrite Hst in Herr.
       apply (f_equal length) in Herr. rewrite length_app in Herr. simpl in Herr. lia. }
  injection Hrun as ->.
  unfold copy_organized, bind in Hco.
  destruct (lift_fs (iterdir _) w) as [es w0| |] eqn:Hit; try done.
  apply lift_iterdir_Ret in Hit as (-> & _ & Hes).
  destruct (for_each es (import_year stage_dir fuel) w) as [[] w2| |] eqn:Hloop; try done.
  assert (disk w' = disk w2) as Hd.
  { pose proof (Steps_update_darktable same_disk darktable_cli Steps_logger_disk w2) as H.
    by rewrite Hco in H. }
  rewrite Hd.
  assert (∃ b, (y, b) ∈ es) as [b Hb].
  { assert (y ∈ es.*1) as (e & -> & Hin)%list_elem_of_fmap.
    { rewrite Hes. apply elem_of_listdir. rewrite <-app_assoc. eauto. }
    exists e.2. by destruct e. }
  destruct (for_each_inv disk _ (Grows_import_year stage_dir fuel) es w w2 (y, b)
              Hwf Hloop Hb) as (w3 & w4 & Hwf3 & Hsub3 & Hstep & Hsub4).
  unfold import_year in Hstep. cbn [fst] in Hstep. cbn zeta in Hstep.
  assert (is_dir (disk w3) (stage_dir ++ ["organized"%string; y]) = true) as Hisd.
  { apply is_dir_true. by eapply lookup_weaken. }
  assert (exists_ (disk w3) (final_photo_dir ++ [y]) = true) as Hexd.
  { apply exists_true. eapply lookup_is_Some_weaken; [done|]. eauto. }
  rewrite Hisd, Hy, Hexd in Hstep. cbn [andb] in Hstep. apply lift_fs_Ret in Hstep.
  assert (disk w3 !! ((stage_dir ++ ["organized"%string; y]) ++ rel ++ [n])
          = Some (File c t)) as Hs3.
  { rewrite <-app_assoc. by eapply lookup_weaken. }
  assert (is_Some (disk w3 !! ((final_photo_dir ++ [y]) ++ rel ++ [n]))) as Hd3.
  { rewrite <-app_assoc. by eapply lookup_is_Some_weaken. }
  destruct (merge_conflict_nested n c t fuel rel _ _ _ _ Hwf3 Hs3 Hd3 Hstep)
    as (k & Hk & Hnew & Hfresh & Hlt).
  rewrite <-!app_assoc in Hnew, Hfresh.
  exists k. split_and!; [done| | |].
  - by eapply lookup_weaken.
  - by eapply lookup_None_weaken.
  - intros j Hj. specialize (Hlt j Hj). rewrite <-app_assoc in Hlt.
    by eapply lookup_is_Some_weaken.
Qed.

(** C7. A file brought by the merge into a directory that already has an
    entry of its name leaves that entry untouched and is copied under the
    name [stem_k.ext], where [k >= 1] is the first counter whose name is
    unused: the name was free before the merge and every smaller counter
    is taken after it.
    - First part: merging a directory that holds only regular files (a
      date bucket) into an existing directory always completes, for every
      positive fuel.
    - Second part: the same for a file any number of levels below an
      organized year directory, for a run of the import stage that
      reports no error. *)
Theorem merge_conflict_suffix :
  (∀ (fuel : nat) (src dest : path) (m : fs) (n c : string) (t : Z) (x : node),
     wf m →
     forallb (λ e, is_file m (src ++ [e])) (listdir m src) = true →
     m !! (src ++ [n]) = Some (File c t) →
     m !! (dest ++ [n]) = Some x →
     ∃ m' k,
       _merge_directories (S fuel) src dest m = Ret tt m'
       ∧ m' !! (dest ++ [n]) = Some x
       ∧ 1 ≤ k
       ∧ m' !! (dest ++ [suffixed (stem n) k (suffix n)]) = Some (File c t)
       ∧ m !! (dest ++ [suffixed (stem n) k (suffix n)]) = None
       ∧ (∀ j, 1 ≤ j < k →
            is_Some (m' !! (dest ++ [suffixed (stem n) j (suffix n)]))))
  ∧
  (∀ (darktable_cli : fs → proc_result) (stage_dir : path) (fuel : nat)
     (w w' : world) (y n : string) (rel : path) (c : string) (t : Z) (x : node),
     wf (disk w) →
     PyStr.isdigit y = true →
     disk w !! (stage_dir ++ ["organized"%string; y] ++ rel ++ [n]) = Some (File c t) →
     disk w !! (final_photo_dir ++ [y] ++ rel ++ [n]) = Some x →
     import_to_darktable darktable_cli stage_dir false fuel w = Ret tt w' →
     errors (stats w') = errors (stats w) →
     disk w' !! (final_photo_dir ++ [y] ++ rel ++ [n]) = Some x
     ∧ ∃ k, 1 ≤ k
       ∧ disk w' !! (final_photo_dir ++ [y] ++ rel ++ [suffixed (stem n) k (suffix n)])
         = Some (File c t)
       ∧ disk w !! (final_photo_dir ++ [y] ++ rel ++ [suffixed (stem n) k (suffix n)])
         = None
       ∧ (∀ j, 1 ≤ j < k →
            is_Some (disk w' !! (final_photo_dir ++ [y] ++ rel
                                   ++ [suffixed (stem n) j (suffix n)])))).
Proof.
  split.
  - intros fuel src dest m n c t x Hwf Hfiles Hsrc Hdest.
    assert (m !! src = Some Dir) as Hsd by (apply (wf_parent m src n); eauto).
    assert (m !! dest = Some Dir) as Hdd by (apply (wf_parent m dest n); eauto).
    assert (returns (_merge_directories (S fuel) src dest m) = true) as Hret.
    { apply merge_files_total; [done..|]. intros e He.
      rewrite forallb_forall in Hfiles. apply Hfiles.
      by apply list_elem_of_In, elem_of_listdir. }
    destruct (_merge_directories (S fuel) src dest m) as [[] m'| |] eqn:Hrun; try done.
    destruct (merge_conflict_nested n c t (S fuel) [] src dest m m' Hwf)
      as (k & Hk & Hnew & Hfresh & Hlt); [done | eauto | done |].
    exists m', k. split_and!; try done.
    destruct (Grows_merge_directories (S fuel) src dest m Hwf) as [Hsub _].
    rewrite Hrun in Hsub. by eapply lookup_weaken.
  - intros cli stage_dir fuel w w' y n rel c t x Hwf Hy Hsrc Hdest Hrun Herr. split.
    + destruct (Grows_import_to_darktable cli stage_dir false fuel w Hwf) as [Hsub _].
      rewrite Hrun in Hsub. by eapply lookup_weaken.
    + eapply import_conflict; eauto.
Qed.

Lemma merge_conflict_suffix_witness :
  let w := Sample.world_of Sample.conflict_fs in
  let day := ["2020"; "03"; "15"]%string in
  (∃ m', _merge_directories 1 (Sample.organized ++ day) (Sample.lib ++ day) (disk w)
         = Ret tt m'
         ∧ m' !! (Sample.lib ++ day ++ ["IMG_01.jpg"%string]) = Some (File "old" 5%Z)
         ∧ m' !! (Sample.lib ++ day ++ ["IMG_01_1.jpg"%string]) = Some (File "new" 7%Z))
  ∧ (∃ w', import_to_darktable Sample.no_tool Sample.staging false 8 w = Ret tt w'
         ∧ errors (stats w') = errors (stats w)
         ∧ disk w' !! (Sample.lib ++ day ++ ["IMG_01.jpg"%string]) = Some (File "old" 5%Z)
         ∧ disk w' !! (Sample.lib ++ day ++ ["IMG_01_1.jpg"%string])
           = Some (File "new" 7%Z)).
Proof.
  intros w day.
  assert (wf (disk w)) as Hwf by (apply wfb_wf; vm_compute; reflexivity).
  split.
  - destruct (proj1 merge_conflict_suffix 0 (Sample.organized ++ day) (Sample.lib ++ day)
                (disk w) "IMG_01.jpg"%string "new"%string 7%Z (File "old" 5%Z) Hwf)
      as (m' & k & Hrun & Hold & _); [by vm_compute..|].
    exists m'. split_and!; [done| |].
    + by rewrite <-app_assoc in Hold.
    + assert (m' = final (_merge_directories 1 (Sample.organized ++ day)
                            (Sample.lib ++ day) (disk w))) as ->
        by (by rewrite Hrun).
      vm_compute. reflexivity.
  - exists (final (import_to_darktable Sample.no_tool Sample.staging false 8 w)).
    assert (import_to_darktable Sample.no_tool Sample.staging false 8 w
            = Ret tt (final (import_to_darktable Sample.no_tool Sample.staging false 8 w)))
      as Hrun by (apply returns_Ret; vm_compute; reflexivity).
    assert (errors (stats (final (import_to_darktable Sample.no_tool Sample.staging
                                    false 8 w))) = errors (stats w)) as Herr
      by (vm_compute; reflexivity).
    destruct (proj2 merge_conflict_suffix Sample.no_tool Sample.staging 8 w
                (final (import_to_darktable Sample.no_tool Sample.staging false 8 w))
                "2020"%string "IMG_01.jpg"%string ["03"; "15"]%string
                "new"%string 7%Z (File "old" 5%Z) Hwf) as (Hold & _);
      [by vm_compute.. | exact Hrun | exact Herr |].
    split_and!; [exact Hrun | exact Herr | exact Hold | vm_compute; reflexivity].
Defined.

(** ** Duplicate resolution (C2, C3, C5) *)

Lemma foldM_app {S X A : Type} (xs ys : list X) (body : X → A → M S A) (acc : A) (s : S) :
  foldM (xs ++ ys) body acc s = (let* a := foldM xs body acc in foldM ys body a) s.
Proof.
  revert acc s. induction xs as [|x xs IH]; intros acc s; simpl; [done|].
  unfold bind. destruct (body x acc s) as [a s'| |]; try done.
Qed.

(** The nested loops of [_handle_duplicates] are one loop over the lines
    after the first of each group. *)
Lemma move_groups_flat (stage_dir : path) (gs : list string) (acc : nat) (w : world) :
  foldM gs
    (λ group moved,
       if bool_decide (PyStr.strip group = EmptyString) then ret moved
       else
         let files := PyStr.split NL (PyStr.strip group) in
         if length files <? 2 then ret moved
         else foldM (tail files) (quarantine stage_dir) moved)
    acc w
  = foldM (concat (tail <$> filter (λ files, 2 ≤ length files)
                     ((λ group, PyStr.split NL (PyStr.strip group))
                        <$> filter (λ group, PyStr.strip group ≠ EmptyString) gs)))
      (quarantine stage_dir) acc w.
Proof.
  revert acc w. induction gs as [|g gs IH]; intros acc w; [done|].
  cbn [foldM]. rewrite filter_cons. unfold bind at 1. case_bool_decide as Hblank.
  - rewrite decide_False by (by intros ?). unfold ret. apply IH.
  - rewrite decide_True by done. rewrite fmap_cons, filter_cons. cbn zeta.
    destruct (length (PyStr.split NL (PyStr.strip g)) <? 2) eqn:Hlen.
    + apply Nat.ltb_lt in Hlen. rewrite decide_False by lia. unfold ret. apply IH.
    + apply Nat.ltb_ge in Hlen. rewrite decide_True by lia.
      rewrite fmap_cons. cbn [concat]. rewrite foldM_app. unfold bind.
      by destruct (foldM (tail _) _ acc w).
Qed.

Lemma move_duplicates_flat (stage_dir : path) (out : string) (w : world) :
  move_duplicates stage_dir out w
  = foldM (concat (tail <$> duplicate_groups out)) (quarantine stage_dir) 0 w.
Proof. apply move_groups_flat. Qed.

Lemma relocate_lookup (q : path) (m : fs) (p k : path) (x : node) :
  m !! p = Some x →
  relocate q m p !! k =
  if decide (k = q ++ [name p]) then Some x
  else if decide (k = p) then None else m !! k.
Proof.
  intros Hp. unfold relocate. rewrite Hp. case_decide as Hk.
  - subst. apply lookup_insert_eq.
  - rewrite lookup_insert_ne by done. case_decide as Hkp.
    + subst. apply lookup_delete_eq.
    + by rewrite lookup_delete_ne.
Qed.

Lemma wf_relocate (q : path) (m : fs) (p : path) (d : string) (t : Z) :
  wf m → m !! p = Some (File d t) → m !! q = Some Dir →
  m !! (q ++ [name p]) ≠ Some Dir →
  wf (relocate q m p).
Proof.
  intros Hwf Hp Hq Hnd. unfold relocate. rewrite Hp.
  pose proof (wf_delete_file m p d t Hwf Hp) as Hwf'.
  assert (q ≠ p) as Hqp by congruence.
  destruct (decide (p = q ++ [name p])) as [Heq|Hne].
  - rewrite <-Heq. rewrite insert_delete_eq. by eapply wf_insert_file.
  - destruct (m !! (q ++ [name p])) as [[d' t'|]|] eqn:Hdst; [|done|].
    + eapply wf_insert_file; [done|]. by rewrite lookup_delete_ne.
    + apply wf_insert; [done| |].
      * by rewrite lookup_delete_ne.
      * rewrite parent_app. by rewrite lookup_delete_ne.
Qed.

(** [shutil.move] of a regular file into the quarantine directory. *)
Lemma shutil_move_file (q p : path) (m : fs) (d : string) (t : Z) :
  m !! p = Some (File d t) → m !! q = Some Dir →
  m !! (q ++ [name p]) ≠ Some Dir →
  shutil_move p (q ++ [name p]) m = Ret tt (relocate q m p).
Proof.
  intros Hp Hq Hnd. unfold shutil_move, relocate.
  assert (is_dir m (q ++ [name p]) = false) as Hisd.
  { unfold is_dir. by destruct (m !! (q ++ [name p])) as [[]|]. }
  rewrite Hisd. simpl. rewrite Hp. case_decide as Heq.
  - rewrite <-Heq, insert_delete_eq, insert_id; done.
  - rewrite parent_app, Hq. by destruct (m !! (q ++ [name p])) as [[]|].
Qed.

Lemma later_members_lines (out : string) :
  later_members out = path_of_line <$> concat (tail <$> duplicate_groups out).
Proof.
  unfold later_members, member_groups.
  induction (duplicate_groups out) as [|g gs IH]; [done|].
  rewrite !fmap_cons. cbn [concat]. rewrite fmap_app, IH. f_equal. by destruct g.
Qed.

Lemma quarantine_target (stage_dir : path) (n : string) :
  stage_dir ++ ["duplicates"%string; n] = (stage_dir ++ ["duplicates"%string]) ++ [n].
Proof. by rewrite <-app_assoc. Qed.

Lemma quarantine_file (stage_dir : path) (line : string) (moved : nat) (w : world)
    (d : string) (t : Z) :
  let q := stage_dir ++ ["duplicates"%string] in
  disk w !! path_of_line line = Some (File d t) →
  disk w !! q = Some Dir →
  disk w !! (q ++ [name (path_of_line line)]) ≠ Some Dir →
  quarantine stage_dir line moved w
  = Ret (moved + 1) (set_disk (relocate q (disk w) (path_of_line line)) w).
Proof.
  intros q Hp Hq Hnd. unfold quarantine. fold (path_of_line line).
  assert (exists_ (disk w) (path_of_line line) = true) as -> by (apply exists_true; eauto).
  unfold try_except, bind, lift_fs. rewrite quarantine_target.
  by rewrite (shutil_move_file _ _ _ d t).
Qed.

Lemma quarantine_missing (stage_dir : path) (line : string) (moved : nat) (w : world) :
  disk w !! path_of_line line = None →
  quarantine stage_dir line moved w = Ret moved w.
Proof.
  intros Hp. unfold quarantine. fold (path_of_line line).
  by assert (exists_ (disk w) (path_of_line line) = false) as -> by by apply exists_false.
Qed.

Lemma target_not_outside (q k : path) (n : string) : parent k ≠ q → k ≠ q ++ [n].
Proof. intros Hk ->. by rewrite parent_app in Hk. Qed.

Lemma quarantine_loop (stage_dir : path) :
  let q := stage_dir ++ ["duplicates"%string] in
  ∀ (lines : list string) (moved : nat) (w : world),
    wf (disk w) →
    disk w !! q = Some Dir →
    (∀ n, disk w !! (q ++ [n]) ≠ Some Dir) →
    NoDup (path_of_line <$> lines) →
    (∀ p, p ∈ path_of_line <$> lines → is_file (disk w) p = true ∧ parent p ≠ q) →
    foldM lines (quarantine stage_dir) moved w
    = Ret (moved + length lines)
        (set_disk (foldl (relocate q) (disk w) (path_of_line <$> lines)) w).
Proof.
  intros q. induction lines as [|line lines IH]; intros moved w Hwf Hq Hnd Hdist Hfiles.
  { simpl. unfold ret. rewrite Nat.add_0_r. by destruct w. }
  rewrite fmap_cons in Hdist, Hfiles. inversion_clear Hdist as [|? ? Hnotin Hdist'].
  destruct (Hfiles (path_of_line line)) as [Hf Hout]; [left|].
  apply is_file_true in Hf as (d & t & Hp).
  simpl. unfold bind. rewrite (quarantine_file _ _ _ _ d t); [|done..].
  assert (∀ k, k ≠ path_of_line line → parent k ≠ q →
               relocate q (disk w) (path_of_line line) !! k = disk w !! k) as Hframe.
  { intros k Hk Hkq. rewrite (relocate_lookup _ _ _ _ _ Hp).
    rewrite decide_False by by apply target_not_outside. by rewrite decide_False. }
  rewrite IH; simpl.
  - f_equal. lia.
  - by eapply wf_relocate.
  - rewrite Hframe; [done|congruence|].
    unfold q. rewrite parent_app. intros Heq. apply (f_equal length) in Heq.
    rewrite length_app in Heq. simpl in Heq. lia.
  - intros n. rewrite (relocate_lookup _ _ _ _ _ Hp). case_decide; [done|].
    case_decide; [done | apply Hnd].
  - done.
  - intros p Hin. destruct (Hfiles p) as [Hf' Hout']; [by right|]. split; [|done].
    apply is_file_true in Hf' as (d' & t' & Hp'). apply is_file_true. exists d', t'.
    rewrite Hframe; [done| |done]. intros ->. done.
Qed.

Lemma relocate_all_spec (q : path) :
  ∀ (ps : list path) (m : fs),
    NoDup ps →
    (∀ p, p ∈ ps → is_file m p = true ∧ parent p ≠ q) →
    let m' := foldl (relocate q) m ps in
    (∀ k, k ∉ ps → parent k ≠ q → m' !! k = m !! k)
    ∧ (∀ p, p ∈ ps → m' !! p = None)
    ∧ (∀ n, is_file m (q ++ [n]) = true → is_file m' (q ++ [n]) = true)
    ∧ (∀ p, p ∈ ps → is_file m' (q ++ [name p]) = true)
    ∧ (∀ n, n ∉ name <$> ps → m' !! (q ++ [n]) = m !! (q ++ [n]))
    ∧ (NoDup (name <$> ps) → ∀ p, p ∈ ps → m' !! (q ++ [name p]) = m !! p).
Proof.
  induction ps as [|p ps IH]; intros m Hnd Hfiles; simpl.
  { split_and!; [done | intros p []%elem_of_nil | done | intros p []%elem_of_nil
               | done | intros _ p []%elem_of_nil]. }
  inversion_clear Hnd as [|? ? Hnotin Hnd'].
  destruct (Hfiles p) as [Hf Hout]; [left|].
  apply is_file_true in Hf as (d & t & Hp).
  pose proof (relocate_lookup q m p) as Hl. specialize (λ k, Hl k _ Hp).
  assert (∀ k, k ≠ p → parent k ≠ q → relocate q m p !! k = m !! k) as Hframe.
  { intros k Hk Hkq. rewrite Hl.
    rewrite decide_False by by apply target_not_outside. by rewrite decide_False. }
  destruct (IH (relocate q m p) Hnd') as (H1 & H2 & H3 & H4 & H5 & H6).
  { intros p' Hin. destruct (Hfiles p') as [Hf' Hout']; [by right|]. split; [|done].
    apply is_file_true in Hf' as (d' & t' & Hp'). apply is_file_true. exists d', t'.
    rewrite Hframe; [done| |done]. by intros ->. }
  assert (p ≠ q ++ [name p]) as Hpt by by apply target_not_outside.
  split_and!.
  - intros k Hk Hkq. apply not_elem_of_cons in Hk as [Hkp Hk].
    by rewrite H1, Hframe.
  - intros p' [->|Hin]%elem_of_cons; [|by apply H2].
    rewrite H1, Hl by done. rewrite decide_False by done. by rewrite decide_True.
  - intros n Hn. apply H3. apply is_file_true in Hn as (d' & t' & Hn).
    apply is_file_true. rewrite Hl. case_decide; [eauto|].
    rewrite decide_False; [eauto|]. intros <-. by rewrite parent_app in Hout.
  - intros p' [->|Hin]%elem_of_cons; [|by apply H4].
    apply H3. apply is_file_true. exists d, t. rewrite Hl. by rewrite decide_True.
  - intros n Hn. apply not_elem_of_cons in Hn as [Hnp Hn].
    rewrite H5 by done. rewrite Hl.
    rewrite decide_False by (by intros [_ ?]%app_singleton_inj).
    rewrite decide_False; [done|]. intros <-. by rewrite parent_app in Hout.
  - intros Hnames p' Hin.
    inversion_clear Hnames as [|? ? Hnn Hnames'].
    apply elem_of_cons in Hin as [->|Hin].
    + rewrite H5 by done. rewrite Hl. by rewrite decide_True.
    + rewrite H6 by done. apply Hframe; [by intros ->|].
      by destruct (Hfiles p') as [_ ?]; [right|].
Qed.

Lemma tails_subset (gs : list (list path)) : concat (tail <$> gs) ⊆ concat gs.
Proof.
  induction gs as [|g gs IH]; [done|]. rewrite fmap_cons. cbn [concat].
  intros x [Hx|Hx]%elem_of_app; apply elem_of_app; [left|right; by apply IH].
  destruct g; [done | by right].
Qed.

Lemma tails_NoDup (gs : list (list path)) :
  NoDup (concat gs) → NoDup (concat (tail <$> gs)).
Proof.
  induction gs as [|g gs IH]; [done|]. rewrite fmap_cons. cbn [concat].
  intros (Hg & Hdisj & Hrest)%NoDup_app. apply NoDup_app. split_and!.
  - destruct g; [done|]. by inversion_clear Hg.
  - intros x Hx Hx'. apply (Hdisj x); [|by apply tails_subset].
    destruct g; [done | by right].
  - by apply IH.
Qed.

Lemma first_not_later (gs : list (list path)) (first : path) (rest : list path) :
  NoDup (concat gs) → (first :: rest) ∈ gs →
  first ∉ concat (tail <$> gs) ∧ rest ⊆ concat (tail <$> gs).
Proof.
  induction gs as [|g gs IH]; intros Hnd Hg; [by apply elem_of_nil in Hg|].
  cbn [concat] in Hnd. apply NoDup_app in Hnd as (Hnd0 & Hdisj & Hnd').
  rewrite fmap_cons. cbn [concat].
  apply elem_of_cons in Hg as [<-|Hg].
  - split.
    + intros [Hin|Hin]%elem_of_app.
      * simpl in Hin. by inversion_clear Hnd0.
      * apply (Hdisj first); [by left | by apply tails_subset].
    + intros x Hx. apply elem_of_app. by left.
  - destruct (IH Hnd' Hg) as [Hnot Hsub]. split.
    + intros [Hin|Hin]%elem_of_app; [|done].
      apply (Hdisj first).
      * destruct g; [done | by right].
      * clear -Hg. induction gs as [|g' gs IH']; [by apply elem_of_nil in Hg|].
        cbn [concat]. apply elem_of_app.
        apply elem_of_cons in Hg as [<-|Hg]; [left; by left | right; by apply IH'].
    + intros x Hx. apply elem_of_app. right. by apply Hsub.
Qed.

Lemma quarantine_loop_missing (stage_dir : path) (lines : list string) (moved : nat)
    (w : world) :
  (∀ line, line ∈ lines → disk w !! path_of_line line = None) →
  foldM lines (quarantine stage_dir) moved w = Ret moved w.
Proof.
  induction lines as [|line lines IH]; intros Hall; [done|].
  simpl. unfold bind. rewrite quarantine_missing by (apply Hall; left).
  apply IH. intros l Hl. apply Hall. by right.
Qed.

(** C2. On a detector output that lists pairwise distinct regular files
    outside the quarantine directory, with the quarantine directory in
    place and holding no directory, duplicate resolution completes and,
    for every group of two or more members: the first member is at its
    path as before; every other member is gone from its path and a file
    is at the quarantine directory under the member's base name, with the
    member's content when the base names set aside are pairwise distinct.
    Running resolution again on the result changes nothing on disk. *)
Theorem duplicates_resolved (stage_dir : path) (out : string) (w : world) :
  let q := stage_dir ++ ["duplicates"%string] in
  wf (disk w) →
  disk w !! q = Some Dir →
  Forall (λ n, is_dir (disk w) (q ++ [n]) = false) (listdir (disk w) q) →
  NoDup (concat (member_groups out)) →
  Forall (λ p, is_file (disk w) p = true ∧ parent p ≠ q) (concat (member_groups out)) →
  ∃ w',
    _handle_duplicates stage_dir out w = Ret tt w'
    ∧ (∀ first rest, (first :: rest) ∈ member_groups out →
         disk w' !! first = disk w !! first
         ∧ ∀ p, p ∈ rest →
             disk w' !! p = None
             ∧ is_file (disk w') (q ++ [name p]) = true
             ∧ (NoDup (name <$> later_members out) →
                  disk w' !! (q ++ [name p]) = disk w !! p))
    ∧ ∃ w'', _handle_duplicates stage_dir out w' = Ret tt w'' ∧ disk w'' = disk w'.
Proof.
  intros q Hwf Hq Hnodir Hnd Hfiles.
  rewrite Forall_forall in Hnodir. rewrite Forall_forall in Hfiles.
  assert (∀ n, disk w !! (q ++ [n]) ≠ Some Dir) as Hnodir'.
  { intros n Hn. assert (is_dir (disk w) (q ++ [n]) = false) as Hf.
    { apply Hnodir, elem_of_listdir. eauto. }
    apply is_dir_true in Hn. congruence. }
  assert (∀ p, p ∈ later_members out → is_file (disk w) p = true ∧ parent p ≠ q) as Hlater.
  { intros p Hp. by apply Hfiles, tails_subset. }
  pose proof (tails_NoDup _ Hnd) as Hndl. fold (later_members out) in Hndl.
  pose proof (quarantine_loop stage_dir (concat (tail <$> duplicate_groups out)) 0 w
                Hwf Hq Hnodir') as Hloop.
  rewrite <-later_members_lines in Hloop. specialize (Hloop Hndl Hlater).
  destruct (relocate_all_spec q (later_members out) (disk w) Hndl Hlater)
    as (H1 & H2 & H3 & H4 & H5 & H6).
  set (m' := foldl (relocate q) (disk w) (later_members out)) in *.
  exists (add_log INFO (MovedDuplicates (length (concat (tail <$> duplicate_groups out))))
            (set_disk m' w)).
  split_and!.
  - unfold _handle_duplicates, bind. by rewrite move_duplicates_flat, Hloop.
  - intros first rest Hg. destruct (first_not_later _ first rest Hnd Hg) as [Hnot Hsub].
    simpl. split.
    + apply H1; [done|]. apply Hfiles.
      clear -Hg. induction (member_groups out) as [|g gs IH]; [by apply elem_of_nil in Hg|].
      cbn [concat]. apply elem_of_app.
      apply elem_of_cons in Hg as [<-|Hg]; [left; by left | right; by apply IH].
    + intros p Hp. apply Hsub in Hp. split_and!; [by apply H2 | by apply H4 |].
      intros Hnames. by apply H6.
  - eexists. split.
    + unfold _handle_duplicates, bind. rewrite move_duplicates_flat.
      rewrite quarantine_loop_missing; [reflexivity|].
      intros line Hline. simpl. apply H2. rewrite later_members_lines.
      apply list_elem_of_fmap. by exists line.
    + done.
Qed.

(** Decidable facts about concrete states, by evaluation. *)
Ltac decide_by_compute := apply (bool_decide_unpack _); vm_compute; exact I.

Lemma duplicates_resolved_witness :
  let w := Sample.world_of Sample.staged_fs in
  let w' := final (_handle_duplicates Sample.staging Sample.staged_out w) in
  _handle_duplicates Sample.staging Sample.staged_out w = Ret tt w'
  ∧ disk w' !! (Sample.raw ++ ["A_img001.cr2"%string]) = Some (File "raw bytes" 11%Z)
  ∧ disk w' !! (Sample.raw ++ ["B_photo.cr2"%string]) = None
  ∧ disk w' !! (Sample.quarantine_dir ++ ["B_photo.cr2"%string])
    = Some (File "raw bytes" 12%Z).
Proof.
  intros w w'.
  destruct (duplicates_resolved Sample.staging Sample.staged_out w)
    as (w1 & Hrun & Hgroups & _).
  - apply wfb_wf. vm_compute. reflexivity.
  - vm_compute. reflexivity.
  - decide_by_compute.
  - decide_by_compute.
  - decide_by_compute.
  - assert (w1 = w') as -> by (unfold w'; by rewrite Hrun).
    split; [done|].
    destruct (Hgroups (Sample.raw ++ ["A_img001.cr2"%string])
                [Sample.raw ++ ["B_photo.cr2"%string]]) as [Hfirst Hrest].
    { decide_by_compute. }
    destruct (Hrest (Sample.raw ++ ["B_photo.cr2"%string])) as (Hgone & _ & Hcontent);
      [by left|].
    split_and!.
    + rewrite Hfirst. vm_compute. reflexivity.
    + exact Hgone.
    + refine (eq_trans (Hcontent _) _); [decide_by_compute | vm_compute; reflexivity].
Defined.

(** C3. Two groups whose set-aside members share a base name: both are
    moved (the counter says two), the second move replaces the first
    quarantined copy, and the quarantine directory ends with one file.
    The member moved first is at no path any more. *)
Theorem quarantine_collision_loses_copy :
  let w := Sample.world_of Sample.collision_fs in
  let w' := final (_handle_duplicates Sample.staging Sample.collision_out w) in
  _handle_duplicates Sample.staging Sample.collision_out w = Ret tt w'
  ∧ log w' = [(INFO, MovedDuplicates 2)]
  ∧ disk w' !! (Sample.raw ++ ["a"; "x.jpg"]%string) = None
  ∧ disk w' !! (Sample.raw ++ ["b"; "x.jpg"]%string) = None
  ∧ listdir (disk w') Sample.quarantine_dir = ["x.jpg"%string]
  ∧ disk w' !! (Sample.quarantine_dir ++ ["x.jpg"%string])
    = Some (File "second picture" 24%Z)
  ∧ ∀ p, disk w' !! p ≠ Some (File "first picture" 22%Z).
Proof.
  intros w w'. split_and!.
  - apply returns_Ret. vm_compute. reflexivity.
  - vm_compute. reflexivity.
  - vm_compute. reflexivity.
  - vm_compute. reflexivity.
  - vm_compute. reflexivity.
  - vm_compute. reflexivity.
  - intros p Hp. apply elem_of_map_to_list in Hp.
    assert (Forall (λ kv, kv.2 ≠ File "first picture" 22%Z) (map_to_list (disk w'))) as Hall
      by decide_by_compute.
    rewrite Forall_forall in Hall. by apply Hall in Hp.
Qed.

(** *** Counting the listed duplicates *)

Lemma split_nl_length (cur : list ascii) (s : string) :
  length (PyStr.split_go NL None 0 cur s) = S (count_nl s).
Proof.
  revert cur. induction s as [|c s IH]; intros cur; [done|].
  cbn [PyStr.split_go count_nl]. unfold NL at 1. cbn [PyStr.startswith].
  destruct (Ascii.eqb "010" c) eqn:Hc.
  - change (Init.Nat.pred <$> None) with (@None nat).
    change (String.length NL - 1) with 0. cbn [length]. rewrite IH. lia.
  - rewrite IH. lia.
Qed.

Lemma count_nl_lstrip (s : string) : count_nl (PyStr.lstrip s) ≤ count_nl s.
Proof.
  induction s as [|c s IH]; [done|]. cbn [PyStr.lstrip].
  destruct (PyStr.is_space c); [|done]. cbn [count_nl]. lia.
Qed.

Lemma count_nl_rstrip (s : string) : count_nl (PyStr.rstrip s) ≤ count_nl s.
Proof.
  induction s as [|c s IH]; [done|]. cbn [PyStr.rstrip count_nl].
  destruct (PyStr.rstrip s) as [|c' r] eqn:Hr.
  - destruct (PyStr.is_space c); cbn [count_nl]; lia.
  - cbn [count_nl] in *. lia.
Qed.

Lemma split_nl_strip (g : string) :
  length (PyStr.split NL (PyStr.strip g)) ≤ length (PyStr.split NL g).
Proof.
  unfold PyStr.split. rewrite !split_nl_length. unfold PyStr.strip.
  pose proof (count_nl_lstrip (PyStr.rstrip g)). pose proof (count_nl_rstrip g). lia.
Qed.

Lemma later_lines_length (gs : list string) :
  length (concat (tail <$> filter (λ files : list string, 2 ≤ length files)
                    ((λ group, PyStr.split NL (PyStr.strip group))
                       <$> filter (λ group, PyStr.strip group ≠ EmptyString) gs)))
  = sum_list ((λ group, length (PyStr.split NL (PyStr.strip group)) - 1)
                <$> filter (λ group, PyStr.strip group ≠ EmptyString) gs).
Proof.
  induction (filter (λ group, PyStr.strip group ≠ EmptyString) gs) as [|g gs' IH]; [done|].
  rewrite !fmap_cons, filter_cons. cbn [sum_list sum_list_with]. case_decide as Hlen.
  - rewrite fmap_cons. cbn [concat]. rewrite length_app, IH. f_equal.
    unfold sum_list, id. destruct (PyStr.split NL (PyStr.strip g)); simpl; lia.
  - rewrite IH. unfold sum_list, id. lia.
Qed.

Lemma later_lines_le (out : string) :
  length (concat (tail <$> duplicate_groups out)) ≤ total_duplicates out.
Proof.
  unfold duplicate_groups, total_duplicates. rewrite later_lines_length.
  induction (filter _ (PyStr.split (NL +:+ NL) (PyStr.strip out))) as [|g gs IH]; [done|].
  rewrite !fmap_cons. cbn [sum_list sum_list_with].
  pose proof (split_nl_strip g). unfold sum_list, id in *. lia.
Qed.

Lemma later_lines_eq (out : string) :
  Forall (λ group, PyStr.strip group = group)
    (PyStr.split (NL +:+ NL) (PyStr.strip out)) →
  length (concat (tail <$> duplicate_groups out)) = total_duplicates out.
Proof.
  intros Hall. unfold duplicate_groups, total_duplicates. rewrite later_lines_length.
  f_equal. apply list_fmap_ext. intros i g Hg.
  apply list_elem_of_lookup_2, list_elem_of_filter in Hg as [_ Hg].
  rewrite Forall_forall in Hall. by rewrite (Hall g Hg).
Qed.

(** *** Moving never exhausts fuel *)

Lemma terminates_os_mkdir (p : path) (m : fs) : terminates (os_mkdir p m).
Proof.
  unfold os_mkdir. destruct (m !! p); [done|]. by destruct (m !! parent p) as [[]|].
Qed.

Lemma terminates_bind {S A B : Type} (c : M S A) (k : A → M S B) (s : S) :
  terminates (c s) → (∀ a s', terminates (k a s')) → terminates (bind c k s).
Proof. intros Hc Hk. unfold bind. by destruct (c s). Qed.

Lemma terminates_try_except {S A : Type} (c : M S A) (h : exn → M S A) (s : S) :
  terminates (c s) → (∀ e s', terminates (h e s')) → terminates (try_except c h s).
Proof. intros Hc Hh. unfold try_except. by destruct (c s). Qed.

Lemma terminates_mkdir_exist_ok (p : path) (m : fs) : terminates (mkdir_exist_ok p m).
Proof.
  apply terminates_try_except; [apply terminates_os_mkdir|].
  intros e m'. by destruct (is_dir m' p).
Qed.

Lemma terminates_mkdir_parents_go (n : nat) (p : path) (m : fs) :
  terminates (mkdir_parents_go n p m).
Proof.
  revert p m. induction n as [|n IH]; intros p m; simpl;
    (apply terminates_try_except; [apply terminates_os_mkdir|]); intros e m'.
  - destruct e; try done; by destruct (is_dir m' p).
  - destruct e; try (by destruct (is_dir m' p)).
    destruct p as [|x p]; [done|].
    apply terminates_bind; [apply IH | intros; apply terminates_mkdir_exist_ok].
Qed.

Lemma terminates_shutil_move (src dst : path) (m : fs) :
  terminates (shutil_move src dst m).
Proof.
  unfold shutil_move. destruct (is_dir m dst && bool_decide (src = dst)); [done|].
  destruct (is_dir m dst && exists_ m _); [done|].
  destruct (m !! src) as [[d t|]|]; [| |done].
  - case_decide; [done|].
    destruct (m !! _) as [[]|]; [done..|]. by destruct (m !! _) as [[]|].
  - destruct (exists_ m _); [done|]. destruct (bool_decide _); [done|].
    destruct (m !! parent _) as [[]|]; [done..|].
    apply terminates_bind; [apply terminates_mkdir_parents_go | done].
Qed.

Lemma quarantine_Ret (stage_dir : path) (line : string) (moved : nat) (w : world) :
  ∃ moved' w',
    quarantine stage_dir line moved w = Ret moved' w'
    ∧ stats w' = stats w ∧ moved ≤ moved' ≤ moved + 1.
Proof.
  unfold quarantine. destruct (exists_ (disk w) _); [|exists moved, w; split_and!; done || lia].
  unfold try_except, bind, lift_fs.
  pose proof (terminates_shutil_move (Path (PyStr.strip line))
                (stage_dir ++ ["duplicates"%string; name (Path (PyStr.strip line))])
                (disk w)) as Hterm.
  destruct (shutil_move _ _ (disk w)) as [[] m|e m|m]; [| |done].
  - eexists _, _. split_and!; [done | done | lia | lia].
  - eexists _, _. split_and!; [done | done | lia | lia].
Qed.

Lemma move_lines_Ret (stage_dir : path) (lines : list string) (moved : nat) (w : world) :
  ∃ moved' w',
    foldM lines (quarantine stage_dir) moved w = Ret moved' w'
    ∧ stats w' = stats w ∧ moved ≤ moved' ≤ moved + length lines.
Proof.
  revert moved w. induction lines as [|line lines IH]; intros moved w.
  { exists moved, w. split_and!; [done | done | lia | simpl; lia]. }
  destruct (quarantine_Ret stage_dir line moved w) as (m1 & w1 & Hq & Hs1 & Hm1).
  destruct (IH m1 w1) as (m2 & w2 & Hl & Hs2 & Hm2).
  exists m2, w2. simpl. unfold bind. rewrite Hq, Hl.
  split_and!; [done | congruence | lia | lia].
Qed.

Lemma run_jdupes_completed (jdupes : fs → list path → proc_result) (stage_dir : path)
    (w : world) (out err : string) :
  jdupes (disk w) [stage_dir ++ ["raw_photos"%string];
                   stage_dir ++ ["processed_photos"%string]] = Completed 0 out err →
  ∃ moved w2,
    move_duplicates stage_dir out
      (add_log INFO (FoundDuplicates (total_duplicates out))
         (set_stats (set_duplicates_found (total_duplicates out)) w)) = Ret moved w2
    ∧ run_jdupes_deduplication jdupes stage_dir false w
      = Ret tt (add_log INFO (MovedDuplicates moved) w2).
Proof.
  intros Hjd.
  destruct (move_lines_Ret stage_dir (concat (tail <$> duplicate_groups out)) 0
              (add_log INFO (FoundDuplicates (total_duplicates out))
                 (set_stats (set_duplicates_found (total_duplicates out)) w)))
    as (moved & w2 & Hrun & _ & _).
  rewrite <-move_duplicates_flat in Hrun.
  exists moved, w2. split; [done|].
  unfold run_jdupes_deduplication, try_except. rewrite Hjd.
  unfold subprocess_run, _handle_duplicates, logger, bind, ret. unfold modify.
  cbn [Z.eqb]. by rewrite Hrun.
Qed.

(** C5, as the code has it. When the detector succeeds, the statistic is
    the number of lines after the first over the groups of its output;
    the number of files moved, which the stage logs, never exceeds it,
    and equals it when every group is free of surrounding blanks and the
    paths set aside are pairwise distinct regular files outside the
    quarantine directory, which is in place and holds no directory. *)
Theorem duplicates_found_bounds (jdupes : fs → list path → proc_result)
    (stage_dir : path) (w : world) (out err : string) :
  let q := stage_dir ++ ["duplicates"%string] in
  jdupes (disk w) [stage_dir ++ ["raw_photos"%string];
                   stage_dir ++ ["processed_photos"%string]] = Completed 0 out err →
  ∃ moved w',
    run_jdupes_deduplication jdupes stage_dir false w = Ret tt w'
    ∧ last (log w') = Some (INFO, MovedDuplicates moved)
    ∧ duplicates_found (stats w') = total_duplicates out
    ∧ moved ≤ duplicates_found (stats w')
    ∧ (wf (disk w) →
       disk w !! q = Some Dir →
       Forall (λ n, is_dir (disk w) (q ++ [n]) = false) (listdir (disk w) q) →
       NoDup (later_members out) →
       Forall (λ p, is_file (disk w) p = true ∧ parent p ≠ q) (later_members out) →
       Forall (λ group, PyStr.strip group = group)
         (PyStr.split (NL +:+ NL) (PyStr.strip out)) →
       moved = duplicates_found (stats w')).
Proof.
  intros q Hjd.
  destruct (run_jdupes_completed jdupes stage_dir w out err Hjd) as (moved & w2 & Hmv & Hrun).
  set (w1 := add_log INFO (FoundDuplicates (total_duplicates out))
               (set_stats (set_duplicates_found (total_duplicates out)) w)) in *.
  pose proof Hmv as Hmv'. rewrite move_duplicates_flat in Hmv'.
  destruct (move_lines_Ret stage_dir (concat (tail <$> duplicate_groups out)) 0 w1)
    as (moved' & w2' & Hrun' & Hstats & Hle).
  rewrite Hmv' in Hrun'. injection Hrun' as <- <-.
  assert (duplicates_found (stats w2) = total_duplicates out) as Hdf by by rewrite Hstats.
  exists moved, (add_log INFO (MovedDuplicates moved) w2).
  split_and!; [done | by cbn; rewrite last_snoc | done | | ].
  - cbn. rewrite Hdf. pose proof (later_lines_le out). lia.
  - intros Hwf Hq Hnodir Hnd Hfiles Hgroups. cbn. rewrite Hdf.
    rewrite Forall_forall in Hnodir. rewrite Forall_forall in Hfiles.
    pose proof (quarantine_loop stage_dir (concat (tail <$> duplicate_groups out)) 0 w1)
      as Hloop.
    rewrite <-later_members_lines in Hloop. rewrite Hloop in Hmv'; try done.
    + injection Hmv' as <- _. by apply later_lines_eq.
    + intros n Hn. change (disk w !! (q ++ [n]) = Some Dir) in Hn.
      assert (is_dir (disk w) (q ++ [n]) = false) as Hf.
      { apply Hnodir, elem_of_listdir. eauto. }
      apply is_dir_true in Hn. congruence.
Qed.

Lemma duplicates_found_bounds_witness :
  let w := Sample.world_of Sample.staged_fs in
  let w' := final (run_jdupes_deduplication (Sample.jdupes_says Sample.staged_out)
                     Sample.staging false w) in
  last (log w') = Some (INFO, MovedDuplicates 2) ∧ duplicates_found (stats w') = 2.
Proof.
  intros w w'.
  destruct (duplicates_found_bounds (Sample.jdupes_says Sample.staged_out) Sample.staging w
              Sample.staged_out EmptyString eq_refl)
    as (moved & w1 & Hrun & Hlast & Hfound & _ & Heq).
  assert (w1 = w') as -> by (unfold w'; by rewrite Hrun).
  assert (duplicates_found (stats w') = 2) as H2 by (vm_compute; reflexivity).
  assert (moved = 2) as ->; [|split; assumption].
  rewrite Heq; [exact H2|..].
  - apply wfb_wf. vm_compute. reflexivity.
  - vm_compute. reflexivity.
  - decide_by_compute.
  - decide_by_compute.
  - decide_by_compute.
  - decide_by_compute.
Defined.

(** C5, as the specification states it, fails: the detector lists a path
    that is not on disk; one duplicate is counted, none is moved and the
    quarantine directory stays empty. *)
Lemma duplicates_found_is_not_moved :
  let w := Sample.world_of Sample.staged_fs in
  let w' := final (run_jdupes_deduplication (Sample.jdupes_says Sample.stale_out)
                     Sample.staging false w) in
  duplicates_found (stats w') = 1
  ∧ last (log w') = Some (INFO, MovedDuplicates 0)
  ∧ listdir (disk w') Sample.quarantine_dir = []
  ∧ ¬ (∀ moved, last (log w') = Some (INFO, MovedDuplicates moved) →
         duplicates_found (stats w') = moved).
Proof.
  intros w w'.
  assert (duplicates_found (stats w') = 1) as H1 by (vm_compute; reflexivity).
  assert (last (log w') = Some (INFO, MovedDuplicates 0)) as H2 by (vm_compute; reflexivity).
  split_and!; [done | done | vm_compute; reflexivity |].
  intros H. specialize (H 0 H2). congruence.
Qed.

(** ** Organizing by date *)

Lemma int_str (n : nat) : PyStr.int (PyStr.str n) = Some n.
Proof.
  unfold PyStr.int, PyStr.str.
  destruct (NilEmpty.string_of_uint (Nat.to_uint n)) eqn:Hs.
  - exfalso. pose proof Hs as Hs'.
    apply (f_equal NilEmpty.uint_of_string) in Hs'. rewrite NilEmpty.usu in Hs'.
    simpl in Hs'. injection Hs' as Hs'. apply (f_equal Nat.of_uint) in Hs'.
    rewrite Unsigned.of_to in Hs'. simpl in Hs'. subst n. done.
  - rewrite <-Hs, NilEmpty.usu. simpl. by rewrite Unsigned.of_to.
Qed.

Lemma int_fmt02 (n : nat) : PyStr.int (PyStr.fmt02 n) = Some n.
Proof.
  unfold PyStr.fmt02. destruct (n <? 10); [|apply int_str].
  pose proof (int_str n) as H. unfold PyStr.int in *.
  destruct (PyStr.str n) as [|a s] eqn:Hs; [done|].
  change (NilEmpty.uint_of_string (String "0" (String a s)))
    with (Decimal.D0 <$> NilEmpty.uint_of_string (String a s)).
  destruct (NilEmpty.uint_of_string (String a s)) as [u|]; [|done].
  simpl in *. by injection H as <-.
Qed.

(** [_get_photo_date] reads and never writes; when it returns, it returns
    the resolved capture date. *)
Lemma get_photo_date_Ret (exiftool : fs → path → proc_result)
    (fromtimestamp : Z → datetime) (photo_path : path) (w w' : world)
    (date : datetime) (d : string) (t : Z) :
  disk w !! photo_path = Some (File d t) →
  _get_photo_date exiftool fromtimestamp photo_path w = Ret date w' →
  w' = w ∧ date = resolved_date fromtimestamp (exiftool (disk w) photo_path) t.
Proof.
  intros Hp. unfold _get_photo_date, resolved_date, capture_field, st_mtime.
  unfold bind, try_except, subprocess_run.
  destruct (exiftool (disk w) photo_path) as [rc out err| |]; unfold ret, raise.
  - destruct ((rc =? 0)%Z && PyStr.contains "Date/Time Original" out).
    + destruct (PyStr.split_max ": " 1 (PyStr.strip out)) as [|x [|date_str rest]];
        cbn [lookup list_lookup mbind option_bind]; try done.
      destruct (Strptime.strptime date_str) as [dt|]; unfold ret, raise.
      * by intros [= <- <-].
      * rewrite Hp. by intros [= <- <-].
    + cbn [mbind option_bind]. rewrite Hp. by intros [= <- <-].
  - cbn [mbind option_bind]. rewrite Hp. by intros [= <- <-].
  - cbn [mbind option_bind]. rewrite Hp. by intros [= <- <-].
Qed.

(** Where [shutil.move] leaves a regular file. *)
Lemma shutil_move_file_Ret (src dst : path) (m m' : fs) (d : string) (t : Z) :
  m !! src = Some (File d t) →
  shutil_move src dst m = Ret tt m' →
  m' !! dst = Some (File d t) ∨ m' !! (dst ++ [name src]) = Some (File d t).
Proof.
  intros Hsrc. unfold shutil_move.
  destruct (is_dir m dst) eqn:Hisd; cbn [andb].
  - case_bool_decide as Heq.
    { subst. apply is_dir_true in Hisd. congruence. }
    destruct (exists_ m (dst ++ [name src])) eqn:Hex; [done|].
    apply exists_false in Hex. rewrite Hsrc. case_decide as Hs; [congruence|].
    rewrite Hex, parent_app. apply is_dir_true in Hisd. rewrite Hisd.
    intros [= <-]. right. apply lookup_insert_eq.
  - rewrite Hsrc. case_decide as Hs.
    { intros [= <-]. left. by rewrite <-Hs. }
    destruct (m !! dst) as [[]|] eqn:Hd.
    + intros [= <-]. left. apply lookup_insert_eq.
    + done.
    + destruct (m !! parent dst) as [[]|]; try done.
      intros [= <-]. left. apply lookup_insert_eq.
Qed.

(** ** Failures of single files (C6) *)

Lemma get_photo_date_final (exiftool : fs → path → proc_result)
    (fromtimestamp : Z → datetime) (photo_path : path) (w : world) :
  final (_get_photo_date exiftool fromtimestamp photo_path w) = w.
Proof.
  unfold _get_photo_date, st_mtime, bind, try_except, subprocess_run.
  destruct (exiftool (disk w) photo_path) as [rc out err| |]; unfold ret, raise.
  - destruct ((rc =? 0)%Z && PyStr.contains "Date/Time Original" out).
    + destruct (PyStr.split_max ": " 1 (PyStr.strip out)) as [|x [|date_str rest]];
        try done.
      destruct (Strptime.strptime date_str) as [dt|]; unfold ret, raise; [done|].
      by destruct (disk w !! photo_path) as [[]|].
    + by destruct (disk w !! photo_path) as [[]|].
  - by destruct (disk w !! photo_path) as [[]|].
  - by destruct (disk w !! photo_path) as [[]|].
Qed.

Lemma Steps_organize_file_stats (exiftool : fs → path → proc_result)
    (fromtimestamp : Z → datetime) (stage_dir photo_file : path) (count : nat) :
  Steps same_stats (organize_file exiftool fromtimestamp stage_dir photo_file count).
Proof.
  apply Steps_bind; [apply _| |].
  - intros w. unfold same_stats. by rewrite get_photo_date_final.
  - intros date. apply Steps_bind; [apply _ | apply Steps_lift_fs_stats |].
    intros _. apply Steps_bind; [apply _ | apply Steps_lift_fs_stats |].
    intros _. apply Steps_ret, _.
Qed.

Lemma Steps_organize_by_date_stats (exiftool : fs → path → proc_result)
    (fromtimestamp : Z → datetime) (stage_dir : path) (dry_run : bool) :
  Steps same_stats (organize_by_date exiftool fromtimestamp stage_dir dry_run).
Proof.
  unfold organize_by_date. destruct dry_run; [apply Steps_ret, _|].
  apply Steps_bind; [apply _ | apply Steps_lift_fs_stats |]. intros _.
  apply Steps_bind; [apply _ | | intros; apply Steps_logger_stats].
  apply Steps_foldM; [apply _|]. intros photo_dir count w.
  destruct (negb (exists_ (disk w) photo_dir)); [by unfold same_stats|].
  apply Steps_bind; [apply _ | apply Steps_lift_fs_stats |]. intros entries.
  apply Steps_foldM; [apply _|]. intros entry count' w'.
  destruct (is_file (disk w') _); [|by unfold same_stats].
  apply Steps_try_except; [apply _ | apply Steps_organize_file_stats |].
  intros e. apply Steps_bind; [apply _ | apply Steps_logger_stats |].
  intros _. apply Steps_ret, _.
Qed.

Lemma Steps_handle_duplicates_stats (stage_dir : path) (out : string) :
  Steps same_stats (_handle_duplicates stage_dir out).
Proof.
  intros w. unfold same_stats, _handle_duplicates, bind.
  rewrite move_duplicates_flat.
  destruct (move_lines_Ret stage_dir (concat (tail <$> duplicate_groups out)) 0 w)
    as (moved & w' & -> & Hs & _).
  done.
Qed.

(** C6. The organizer and the duplicate resolver never touch the
    statistics, so a file they fail on is logged and nowhere recorded in
    the error list. On the sample state the year directory of one file is
    blocked by a regular file: the failure is logged, the error list stays
    empty, the file stays where it was, and the next file is organized. *)
Theorem organize_failure_not_recorded :
  (∀ exiftool fromtimestamp stage_dir dry_run w,
     stats (final (organize_by_date exiftool fromtimestamp stage_dir dry_run w)) = stats w)
  ∧ (∀ stage_dir out w, stats (final (_handle_duplicates stage_dir out w)) = stats w)
  ∧ let w := Sample.world_of Sample.blocked_fs in
    let w' := final (organize_by_date Sample.exif_2019 Sample.epoch Sample.staging false w) in
    returns (organize_by_date Sample.exif_2019 Sample.epoch Sample.staging false w) = true
    ∧ log w' = [(ERROR, FailedToOrganize (Sample.processed ++ ["A_scan.png"%string])
                          NotADirectoryError);
                (INFO, Organized 1)]
    ∧ errors (stats w') = []
    ∧ disk w' !! (Sample.processed ++ ["A_scan.png"%string]) = Some (File "scan" 18%Z)
    ∧ disk w' !! (Sample.organized ++ ["2019"; "07"; "04"; "A_beach.jpg"]%string)
      = Some (File "beach" 17%Z).
Proof.
  split; [|split].
  - intros. apply Steps_organize_by_date_stats.
  - intros. apply Steps_handle_duplicates_stats.
  - intros w w'. split_and!; vm_compute; reflexivity.
Qed.

(** ** Dry runs *)

Global Instance same_disk_but_po (p : path) : PreOrder (same_disk_but p).
Proof.
  split; [done|]. intros x y z Hxy Hyz k Hk. by rewrite Hyz, Hxy.
Qed.

Global Instance same_found_po : PreOrder same_found.
Proof.
  split; [done|]. intros x y z [? ?] [? ?]. split; congruence.
Qed.

Lemma Steps_weaken {S A : Type} (R R' : relation S) (c : M S A) :
  (∀ s s', R s s' → R' s s') → Steps R c → Steps R' c.
Proof. intros HR Hc s. apply HR, Hc. Qed.

Lemma Steps_os_walk {A : Type} (R : relation world) `{!PreOrder R} (fuel : nat)
    (top : path) (body : path → list string → A → M world A) (acc : A) :
  (∀ root files a, Steps R (body root files a)) →
  Steps R (os_walk fuel top body acc).
Proof.
  intros Hb. revert top acc. induction fuel as [|fuel IH]; intros top acc w; simpl.
  { reflexivity. }
  destruct (iterdir top (disk w)) as [entries m| |]; [|simpl; reflexivity..].
  apply Steps_bind; [done | apply Hb |]. intros a.
  apply Steps_foldM; [done|]. intros d a'. apply IH.
Qed.

Lemma Steps_count_photos (R : relation world) `{!PreOrder R} (fuel : nat) (p : path) :
  Steps R (_count_photos_in_path fuel p).
Proof.
  apply Steps_os_walk; [done|]. intros root files a.
  apply Steps_foldM; [done|]. intros file a'. by apply Steps_ret.
Qed.

Lemma Steps_directory_size (R : relation world) `{!PreOrder R} (fuel : nat) (p : path) :
  Steps R (_get_directory_size_mb fuel p).
Proof.
  apply Steps_os_walk; [done|]. intros root files a.
  apply Steps_foldM; [done|]. intros file a' w.
  destruct (disk w !! (root ++ [file])) as [[]|]; simpl; reflexivity.
Qed.

Lemma Steps_discover (R : relation world) `{!PreOrder R} (fuel : nat) :
  (∀ l msg, Steps R (logger l msg)) →
  Steps R (discover_photo_sources fuel).
Proof.
  intros Hlog. apply Steps_foldM; [done|]. intros src discovered w.
  destruct (exists_ (disk w) src.2).
  - apply Steps_bind; [done | by apply Steps_count_photos |]. intros n.
    apply Steps_bind; [done | by apply Steps_directory_size |]. intros sz.
    by apply Steps_ret.
  - apply Steps_bind; [done | apply Hlog |]. intros _. by apply Steps_ret.
Qed.

Lemma Steps_copy_photos_dry (R : relation world) `{!PreOrder R} (stage_dir : path)
    (fuel : nat) (source_path : path) (source_name : string) :
  (∀ l msg, Steps R (logger l msg)) →
  Steps R (modify (set_stats (λ s, set_files_copied (files_copied s + 1) s))) →
  (∀ msg, Steps R (modify (set_stats (append_error msg)))) →
  Steps R (_copy_photos_from_source stage_dir true fuel source_path source_name).
Proof.
  intros Hlog Hcopied Hstats. apply Steps_bind; [done| |intros; apply Hlog].
  apply Steps_os_walk; [done|]. intros root files a.
  apply Steps_foldM; [done|]. intros file a'.
  cbn zeta. destruct (dest_subdir_of (PyStr.lower (suffix file))); [|by apply Steps_ret].
  apply Steps_try_except; [done| |].
  - cbn [negb]. apply Steps_bind; [done | by apply Steps_ret |]. intros _.
    apply Steps_bind; [done | apply Hcopied |]. intros _. by apply Steps_ret.
  - intros e. apply Steps_bind; [done | apply Hlog |]. intros _.
    apply Steps_bind; [done | apply Hstats |]. intros _. by apply Steps_ret.
Qed.

Lemma Steps_gather_dry (R : relation world) `{!PreOrder R} (stage_dir : path)
    (fuel : nat) (sources : discovered) :
  (∀ l msg, Steps R (logger l msg)) →
  Steps R (modify (set_stats (λ s, set_files_copied (files_copied s + 1) s))) →
  (∀ msg, Steps R (modify (set_stats (append_error msg)))) →
  Steps R (gather_all_photos stage_dir true fuel sources).
Proof.
  intros Hlog Hcopied Hstats. apply Steps_for_each; [done|]. intros src.
  by apply Steps_copy_photos_dry.
Qed.

Lemma Steps_logger_but (p : path) (l : level) (msg : message) :
  Steps (same_disk_but p) (logger l msg).
Proof. done. Qed.

Lemma Steps_modify_stats_but (p : path) (f : ConsolidationStats → ConsolidationStats) :
  Steps (same_disk_but p) (modify (set_stats f)).
Proof. done. Qed.

Lemma write_text_other (clock : Z) (p k : path) (data : string) (m : fs) :
  k ≠ p → final (write_text clock p data m) !! k = m !! k.
Proof.
  intros Hk. unfold write_text.
  destruct (m !! p) as [[]|]; [| |destruct (m !! parent p) as [[]|]]; cbn [final];
    rewrite ?lookup_insert_ne; done.
Qed.

Lemma generate_report_final (now : string) (clock : Z) (json_dumps : report → string)
    (stage_dir : path) (dry_run : bool) (w : world) :
  final (generate_report now clock json_dumps stage_dir dry_run w)
  = set_disk (final (write_text clock report_file
                       (json_dumps (mk_report now (stats w) dry_run stage_dir)) (disk w))) w.
Proof.
  unfold generate_report. rewrite bind_final. unfold lift_fs.
  by destruct (write_text _ _ _ (disk w)).
Qed.

Lemma Steps_generate_report (now : string) (clock : Z) (json_dumps : report → string)
    (stage_dir : path) (dry_run : bool) :
  Steps (same_disk_but report_file)
    (generate_report now clock json_dumps stage_dir dry_run)
  ∧ Steps same_stats (generate_report now clock json_dumps stage_dir dry_run).
Proof.
  split; intros w; rewrite generate_report_final.
  - intros k Hk. cbn [disk set_disk]. by apply write_text_other.
  - done.
Qed.

Lemma Steps_run_stages_dry (R : relation world) `{!PreOrder R}
    (jdupes : fs → list path → proc_result) (exiftool : fs → path → proc_result)
    (darktable_cli : fs → proc_result) (fromtimestamp : Z → datetime) (now : string)
    (clock : Z) (json_dumps : report → string) (stage_dir : path) (fuel : nat)
    (sources : discovered) :
  (∀ l msg, Steps R (logger l msg)) →
  Steps R (modify (set_stats (λ s, set_files_copied (files_copied s + 1) s))) →
  (∀ msg, Steps R (modify (set_stats (append_error msg)))) →
  Steps R (generate_report now clock json_dumps stage_dir true) →
  Steps R (run_stages jdupes exiftool darktable_cli fromtimestamp now clock json_dumps
             stage_dir true fuel sources).
Proof.
  intros Hlog Hcopied Herr Hrep. unfold run_stages.
  apply Steps_bind; [done | by apply Steps_ret |]. intros _.
  apply Steps_bind; [done | by apply Steps_gather_dry |]. intros _.
  apply Steps_bind; [done | by apply Steps_ret |]. intros _.
  apply Steps_bind; [done | by apply Steps_ret |]. intros _.
  apply Steps_bind; [done | by apply Steps_ret |]. intros _.
  apply Steps_bind; [done | done |]. intros _. by apply Steps_ret.
Qed.

Lemma Steps_run_full_dry (jdupes : fs → list path → proc_result)
    (exiftool : fs → path → proc_result) (darktable_cli : fs → proc_result)
    (fromtimestamp : Z → datetime) (now : string) (clock : Z)
    (json_dumps : report → string) (stage_dir : path) (fuel : nat) :
  Steps (same_disk_but report_file)
    (run_full_consolidation jdupes exiftool darktable_cli fromtimestamp now clock
       json_dumps stage_dir true fuel).
Proof.
  apply Steps_try_except; [apply _| |].
  - apply Steps_bind; [apply _ | apply Steps_discover; [apply _ | apply Steps_logger_but] |].
    intros sources.
    apply Steps_bind; [apply _ | apply Steps_modify_stats_but |]. intros _.
    apply Steps_bind; [apply _ | apply Steps_modify_stats_but |]. intros _.
    apply Steps_run_stages_dry; [apply _ | apply Steps_logger_but
      | apply Steps_modify_stats_but | intros; apply Steps_modify_stats_but
      | apply Steps_generate_report].
  - intros e. apply Steps_bind; [apply _ | apply Steps_logger_but |]. intros _.
    apply Steps_bind; [apply _ | apply Steps_modify_stats_but |]. intros _.
    apply Steps_raise, _.
Qed.

Lemma Steps_run_stages_found (jdupes : fs → list path → proc_result)
    (exiftool : fs → path → proc_result) (darktable_cli : fs → proc_result)
    (fromtimestamp : Z → datetime) (now : string) (clock : Z)
    (json_dumps : report → string) (stage_dir : path) (fuel : nat)
    (sources : discovered) :
  Steps same_found
    (run_stages jdupes exiftool darktable_cli fromtimestamp now clock json_dumps
       stage_dir true fuel sources).
Proof.
  apply Steps_run_stages_dry; [apply _ | done | done | done |].
  intros w. destruct (Steps_generate_report now clock json_dumps stage_dir true) as [_ H].
  specialize (H w). unfold same_stats in H. unfold same_found. by rewrite H.
Qed.

(** *** Enough fuel for a walk over a disk that stays the same *)

Lemma lookup_depth (m : fs) (p : path) : is_Some (m !! p) → length p ≤ depth m.
Proof.
  intros [x Hx]. unfold depth. apply max_list_elem_of_le.
  apply list_elem_of_fmap. exists p. split; [done|].
  apply list_elem_of_fmap. exists (p, x). split; [done|]. by apply elem_of_map_to_list.
Qed.

Section safe.
Context {S : Type} (P : S → Prop).

Lemma safe_ret {A : Type} (Q : A → Prop) (a : A) : Q a → safe P Q (ret a).
Proof. intros Ha s Hs. by exists a, s. Qed.

Lemma safe_bind {A B : Type} (Q : A → Prop) (Q' : B → Prop) (c : M S A) (k : A → M S B) :
  safe P Q c → (∀ a, Q a → safe P Q' (k a)) → safe P Q' (bind c k).
Proof.
  intros Hc Hk s Hs. destruct (Hc s Hs) as (a & s' & Hr & Hp & Hq).
  unfold bind. rewrite Hr. by apply Hk.
Qed.

Lemma safe_try_except {A : Type} (Q : A → Prop) (c : M S A) (h : exn → M S A) :
  safe P Q c → safe P Q (try_except c h).
Proof.
  intros Hc s Hs. destruct (Hc s Hs) as (a & s' & Hr & Hp & Hq).
  unfold try_except. rewrite Hr. by exists a, s'.
Qed.

Lemma safe_foldM {X A : Type} (I : A → Prop) (xs : list X) (body : X → A → M S A)
    (acc : A) :
  I acc → (∀ x a, x ∈ xs → I a → safe P I (body x a)) → safe P I (foldM xs body acc).
Proof.
  revert acc. induction xs as [|x xs IH]; intros acc Hacc Hb; simpl.
  - by apply safe_ret.
  - apply (safe_bind I); [apply Hb; [left|done]|].
    intros a Ha. apply IH; [done|]. intros y b Hy. apply Hb. by right.
Qed.

Lemma safe_for_each {X : Type} (xs : list X) (body : X → M S unit) :
  (∀ x, x ∈ xs → safe P (λ _, True) (body x)) →
  safe P (λ _, True) (for_each xs body).
Proof.
  induction xs as [|x xs IH]; intros Hb; simpl.
  - by apply safe_ret.
  - apply (safe_bind (λ _, True)); [apply Hb; left|].
    intros _ _. apply IH. intros y Hy. apply Hb. by right.
Qed.

End safe.

Lemma safe_os_walk {A : Type} (m0 : fs) (I : A → Prop)
    (body : path → list string → A → M world A) :
  (∀ root files a, I a → safe (λ w, disk w = m0) I (body root files a)) →
  ∀ (fuel : nat) (top : path) (acc : A),
    I acc → is_Some (m0 !! top) → depth m0 < length top + fuel →
    safe (λ w, disk w = m0) I (os_walk fuel top body acc).
Proof.
  intros Hb. induction fuel as [|fuel IH]; intros top acc Hacc Htop Hfuel.
  { apply lookup_depth in Htop. lia. }
  intros w Hw. simpl.
  destruct (iterdir top (disk w)) as [entries m| |] eqn:Hit; [|by exists acc, w..].
  apply iterdir_Ret in Hit as (-> & Hd & Hes).
  refine (safe_bind _ I I _ _ _ _ w Hw); [by apply Hb|].
  intros a Ha. apply safe_foldM; [done|]. intros d a' Hin Ha'.
  apply IH; [done| |rewrite length_app; simpl; lia].
  apply list_elem_of_fmap in Hin as (e & -> & He).
  apply list_elem_of_filter in He as [_ He].
  rewrite <-Hw. apply elem_of_listdir. rewrite <-Hes.
  apply list_elem_of_fmap. by exists e.
Qed.

Lemma safe_logger (m0 : fs) (l : level) (msg : message) :
  safe (λ w, disk w = m0) (λ _, True) (logger l msg).
Proof. intros w Hw. by eexists _, _. Qed.

Lemma safe_modify_stats (m0 : fs) (f : ConsolidationStats → ConsolidationStats) :
  safe (λ w, disk w = m0) (λ _, True) (modify (set_stats f)).
Proof. intros w Hw. by eexists _, _. Qed.

Lemma safe_count_photos (m0 : fs) (fuel : nat) (p : path) :
  is_Some (m0 !! p) → depth m0 < fuel →
  safe (λ w, disk w = m0) (λ _, True) (_count_photos_in_path fuel p).
Proof.
  intros Hp Hfuel. apply safe_os_walk; [|done|done|lia].
  intros root files a _. apply safe_foldM; [done|]. intros file a' _ _.
  by apply safe_ret.
Qed.

Lemma safe_directory_size (m0 : fs) (fuel : nat) (p : path) :
  is_Some (m0 !! p) → depth m0 < fuel →
  safe (λ w, disk w = m0) (λ _, True) (_get_directory_size_mb fuel p).
Proof.
  intros Hp Hfuel. apply safe_os_walk; [|done|done|lia].
  intros root files a _. apply safe_foldM; [done|]. intros file a' _ _ w Hw.
  destruct (disk w !! (root ++ [file])) as [[]|]; by eexists _, _.
Qed.

Lemma safe_discover (m0 : fs) (fuel : nat) :
  depth m0 < fuel →
  safe (λ w, disk w = m0)
    (λ sources : discovered, ∀ src, src ∈ sources → is_Some (m0 !! src_path src.2))
    (discover_photo_sources fuel).
Proof.
  intros Hfuel. apply safe_foldM.
  { intros src Hsrc. by apply elem_of_nil in Hsrc. }
  intros src discovered _ Hd w Hw.
  destruct (exists_ (disk w) src.2) eqn:Hex.
  - apply exists_true in Hex. rewrite Hw in Hex.
    refine (safe_bind _ (λ _, True) _ _ _ _ _ w Hw); [by apply safe_count_photos|].
    intros n _. apply (safe_bind _ (λ _, True)); [by apply safe_directory_size|].
    intros sz _. apply safe_ret.
    intros s [Hs| ->%list_elem_of_singleton]%elem_of_app; [by apply Hd | done].
  - refine (safe_bind _ (λ _, True) _ _ _ _ _ w Hw); [apply safe_logger|].
    intros _ _. by apply safe_ret.
Qed.

Lemma safe_copy_photos_dry (m0 : fs) (stage_dir : path) (fuel : nat)
    (source_path : path) (source_name : string) :
  is_Some (m0 !! source_path) → depth m0 < fuel →
  safe (λ w, disk w = m0) (λ _, True)
    (_copy_photos_from_source stage_dir true fuel source_path source_name).
Proof.
  intros Hp Hfuel.
  apply (safe_bind _ (λ _, True)); [|intros; apply safe_logger].
  apply safe_os_walk; [|done|done|lia].
  intros root files a _. apply safe_foldM; [done|]. intros file a' _ _.
  cbn zeta. destruct (dest_subdir_of (PyStr.lower (suffix file))); [|by apply safe_ret].
  apply safe_try_except. cbn [negb].
  apply (safe_bind _ (λ _, True)); [by apply safe_ret|]. intros _ _.
  apply (safe_bind _ (λ _, True)); [apply safe_modify_stats|]. intros _ _.
  by apply safe_ret.
Qed.

Lemma safe_gather_dry (m0 : fs) (stage_dir : path) (fuel : nat) (sources : discovered) :
  (∀ src, src ∈ sources → is_Some (m0 !! src_path src.2)) → depth m0 < fuel →
  safe (λ w, disk w = m0) (λ _, True) (gather_all_photos stage_dir true fuel sources).
Proof.
  intros Hsrc Hfuel. apply safe_for_each. intros src Hin.
  apply safe_copy_photos_dry; [by apply Hsrc | done].
Qed.

Lemma run_stages_dry (jdupes : fs → list path → proc_result)
    (exiftool : fs → path → proc_result) (darktable_cli : fs → proc_result)
    (fromtimestamp : Z → datetime) (now : string) (clock : Z)
    (json_dumps : report → string) (stage_dir : path) (fuel : nat)
    (sources : discovered) (w : world) :
  run_stages jdupes exiftool darktable_cli fromtimestamp now clock json_dumps
    stage_dir true fuel sources w
  = (gather_all_photos stage_dir true fuel sources >>
     generate_report now clock json_dumps stage_dir true >> ret tt) w.
Proof.
  unfold run_stages, prepare_staging_area, run_jdupes_deduplication, organize_by_date,
    import_to_darktable. cbn [negb]. unfold bind at 1. unfold ret at 1.
  unfold bind. by destruct (gather_all_photos stage_dir true fuel sources w).
Qed.

Lemma terminates_generate_report (now : string) (clock : Z) (json_dumps : report → string)
    (stage_dir : path) (dry_run : bool) (w : world) :
  terminates ((generate_report now clock json_dumps stage_dir dry_run >> ret tt) w).
Proof.
  unfold generate_report, bind, lift_fs, write_text.
  destruct (disk w !! report_file) as [[]|]; try done.
  by destruct (disk w !! parent report_file) as [[]|].
Qed.

(** * Part III: further properties of the pipeline *)

(** ** Walks *)

Lemma foldM_ext {S X A : Type} (xs : list X) (f g : X → A → M S A) (acc : A) (s : S) :
  (∀ x a s, x ∈ xs → f x a s = g x a s) → foldM xs f acc s = foldM xs g acc s.
Proof.
  revert acc s. induction xs as [|x xs IH]; intros acc s H; simpl; [done|].
  unfold bind. rewrite H by left. destruct (g x acc s); try done.
  apply IH. intros. apply H. by right.
Qed.

Lemma foldM_fmap {S X Y A : Type} (h : X → Y) (xs : list X) (f : Y → A → M S A)
    (acc : A) (s : S) :
  foldM (h <$> xs) f acc s = foldM xs (λ x, f (h x)) acc s.
Proof.
  revert acc s. induction xs as [|x xs IH]; intros acc s; simpl; [done|].
  unfold bind. destruct (f (h x) acc s); try done.
Qed.

Lemma Steps_foldM_disk {X A : Type} (xs : list X) (f : X → A → M world A) (acc : A) :
  (∀ x a, Steps same_disk (f x a)) → Steps same_disk (foldM xs f acc).
Proof. intros H. apply Steps_foldM; [apply _ | done]. Qed.

Lemma fst_filter_flag (m : fs) (top : path) (b : bool) (l : list string) :
  (filter (λ e : string * bool, e.2 = b) ((λ n, (n, is_dir m (top ++ [n]))) <$> l)).*1
  = filter (λ n, is_dir m (top ++ [n]) = b) l.
Proof.
  induction l as [|n l IH]; [done|].
  rewrite fmap_cons, !filter_cons. cbn [snd].
  destruct (decide (is_dir m (top ++ [n]) = b)); rewrite ?fmap_cons; cbn [fst];
    by rewrite IH.
Qed.

(** A walk whose body loops over the files of each directory, and leaves
    the disk alone, is one loop over the files of the walk. *)
Lemma os_walk_flat {A : Type} (body : path → list string → A → M world A)
    (step : path → A → M world A) (m : fs) :
  (∀ root files a w, body root files a w = foldM files (λ file, step (root ++ [file])) a w) →
  (∀ p a, Steps same_disk (step p a)) →
  ∀ (fuel : nat) (top : path) (acc : A) (w : world),
    disk w = m → is_Some (m !! top) → depth m < length top + fuel →
    os_walk fuel top body acc w = foldM (walk fuel m top) step acc w.
Proof.
  intros Hbody Hstep. induction fuel as [|fuel IH]; intros top acc w Hw Htop Hfuel.
  { apply lookup_depth in Htop. lia. }
  simpl. rewrite Hw. unfold iterdir.
  destruct (m !! top) as [[]|] eqn:Hm; [done| |by destruct Htop].
  rewrite foldM_app. unfold bind.
  rewrite Hbody, !fst_filter_flag, foldM_fmap.
  pose proof (Steps_foldM_disk
                (filter (λ n, is_dir m (top ++ [n]) = false) (listdir m top))
                (λ file, step (top ++ [file])) acc (λ x a, Hstep _ a) w) as Hd.
  destruct (foldM _ (λ file, step (top ++ [file])) acc w) as [a w1| |]; [|done..].
  simpl in Hd. unfold same_disk in Hd. rewrite Hw in Hd.
  assert (∀ d, d ∈ filter (λ n, is_dir m (top ++ [n]) = true) (listdir m top) →
               is_Some (m !! (top ++ [d]))) as Hds.
  { intros d [_ Hin]%list_elem_of_filter. by apply elem_of_listdir. }
  revert a w1 Hd Hds.
  induction (filter (λ n, is_dir m (top ++ [n]) = true) (listdir m top)) as [|d ds IHds];
    intros a w1 Hd Hds; [done|].
  rewrite fmap_cons. cbn [concat foldM]. rewrite foldM_app. unfold bind.
  rewrite (IH (top ++ [d]) a w1 Hd);
    [|apply Hds; left|rewrite length_app; simpl; lia].
  pose proof (Steps_foldM_disk (walk fuel m (top ++ [d])) step a Hstep w1) as Hd'.
  destruct (foldM (walk fuel m (top ++ [d])) step a w1) as [a' w2| |]; [|done..].
  simpl in Hd'. unfold same_disk in Hd'. rewrite Hd in Hd'.
  apply IHds; [done|]. intros d' Hd''. apply Hds. by right.
Qed.

Lemma elem_of_concat {A : Type} (x : A) (ls : list (list A)) :
  x ∈ concat ls ↔ ∃ l, x ∈ l ∧ l ∈ ls.
Proof.
  induction ls as [|l0 ls IH]; simpl.
  - split; [by intros ?%elem_of_nil | by intros (l & _ & ?%elem_of_nil)].
  - rewrite elem_of_app, IH. split.
    + intros [H|(l & H1 & H2)]; [exists l0; split; [done|left] | exists l; split; [done|by right]].
    + intros (l & H1 & [->|H2]%elem_of_cons); [by left | right; eauto].
Qed.

Lemma walk_elem (m : fs) (fuel : nat) (top p : path) :
  p ∈ walk fuel m top → is_file m p = true ∧ ∃ q, q ≠ [] ∧ p = top ++ q.
Proof.
  revert top. induction fuel as [|fuel IH]; intros top; simpl; [by intros ?%elem_of_nil|].
  destruct (m !! top) as [[]|] eqn:Hm; try by intros ?%elem_of_nil.
  intros [Hp|Hp]%elem_of_app.
  - apply list_elem_of_fmap in Hp as (n & -> & [Hn Hin]%list_elem_of_filter).
    apply elem_of_listdir in Hin as [x Hx]. split; [|by exists [n]].
    unfold is_file, is_dir in *. rewrite Hx in *. by destruct x.
  - apply elem_of_concat in Hp as (l & Hp & Hl).
    apply list_elem_of_fmap in Hl as (d & -> & _).
    apply IH in Hp as [Hf (q & Hq & ->)]. split; [done|].
    exists (d :: q). split; [done|]. by rewrite <-app_assoc.
Qed.

Lemma elem_walk (m : fs) (fuel : nat) (top q : path) :
  wf m → is_file m (top ++ q) = true → q ≠ [] → depth m < length top + fuel →
  top ++ q ∈ walk fuel m top.
Proof.
  intros Hwf. revert top q. induction fuel as [|fuel IH]; intros top q Hf Hq Hfuel.
  { apply is_file_true in Hf as (d & t & Hf). apply mk_is_Some, lookup_depth in Hf.
    rewrite length_app in Hf. destruct q; [done|]. simpl in Hf. lia. }
  assert (is_Some (m !! (top ++ q))) as Hsome.
  { apply is_file_true in Hf as (d & t & ->). eauto. }
  simpl. rewrite (wf_prefix m top q Hwf Hsome Hq).
  destruct q as [|n q]; [done|]. apply elem_of_app.
  destruct q as [|n' q].
  - left. apply list_elem_of_fmap. exists n. split; [done|].
    apply list_elem_of_filter. split; [|by apply elem_of_listdir].
    unfold is_file, is_dir in *. by destruct (m !! (top ++ [n])) as [[]|].
  - right. apply elem_of_concat. exists (walk fuel m (top ++ [n])). split.
    + replace (top ++ n :: n' :: q) with ((top ++ [n]) ++ n' :: q)
        by (by rewrite <-app_assoc).
      apply IH; [by rewrite <-app_assoc | done | rewrite length_app; simpl; lia].
    + apply list_elem_of_fmap. exists n. split; [done|].
      apply list_elem_of_filter.
      assert (m !! (top ++ [n]) = Some Dir) as Hn.
      { apply (wf_prefix m (top ++ [n]) (n' :: q)); [done| |done].
        by rewrite <-app_assoc. }
      split; [by apply is_dir_true | apply elem_of_listdir; rewrite Hn; eauto].
Qed.

Lemma NoDup_walk (m : fs) (fuel : nat) (top : path) : NoDup (walk fuel m top).
Proof.
  revert top. induction fuel as [|fuel IH]; intros top; simpl; [constructor|].
  destruct (m !! top) as [[]|]; try constructor.
  apply NoDup_app. split_and!.
  - apply NoDup_fmap_2; [|apply NoDup_filter, NoDup_listdir].
    intros n n' H. by apply app_singleton_inj in H as [_ ?].
  - intros p Hp Hp'.
    apply list_elem_of_fmap in Hp as (n & -> & _).
    apply elem_of_concat in Hp' as (l & Hp' & Hl).
    apply list_elem_of_fmap in Hl as (d & -> & _).
    apply walk_elem in Hp' as [_ (q & Hq & Heq)].
    rewrite <-app_assoc in Heq. apply app_inv_head in Heq.
    simpl in Heq. destruct q; [done|]. discriminate Heq.
  - assert (NoDup (filter (λ n, is_dir m (top ++ [n]) = true) (listdir m top))) as Hnd
      by apply NoDup_filter, NoDup_listdir.
    induction Hnd as [|d ds Hd Hnd IHds]; [constructor|].
    rewrite fmap_cons. cbn [concat]. apply NoDup_app. split_and!; [apply IH| |done].
    intros p Hp Hp'.
    apply elem_of_concat in Hp' as (l & Hp' & Hl).
    apply list_elem_of_fmap in Hl as (d' & -> & Hd').
    apply walk_elem in Hp as [_ (q & Hq & ->)].
    apply walk_elem in Hp' as [_ (q' & Hq' & Heq)].
    rewrite <-!app_assoc in Heq. apply app_inv_head in Heq.
    simpl in Heq. injection Heq as -> _. done.
Qed.

Lemma walk_files_below (m : fs) (fuel : nat) (top : path) :
  wf m → depth m < length top + fuel → walk fuel m top ≡ₚ files_below m top.
Proof.
  intros Hwf Hfuel. apply NoDup_Permutation.
  - apply NoDup_walk.
  - apply NoDup_filter, NoDup_fst_map_to_list.
  - intros p. unfold files_below. rewrite list_elem_of_filter. split.
    + intros Hp. apply walk_elem in Hp as [Hf (q & Hq & ->)].
      split_and!; [done|by apply prefix_app_r| |].
      * intros Heq. rewrite <-(app_nil_r top) in Heq at 2. by apply app_inv_head in Heq.
      * apply is_file_true in Hf as (d & t & Hf).
        apply list_elem_of_fmap. exists (top ++ q, File d t). split; [done|].
        by apply elem_of_map_to_list.
    + intros [(Hf & [q ->] & Hne) _].
      apply elem_walk; [done..| |done]. intros ->. by rewrite app_nil_r in Hne.
Qed.

Lemma os_walk_flat_top {A : Type} (body : path → list string → A → M world A)
    (step : path → A → M world A) (fuel : nat) (top : path) (acc : A) (w : world) :
  (∀ root files a w, body root files a w = foldM files (λ file, step (root ++ [file])) a w) →
  (∀ p a, Steps same_disk (step p a)) →
  depth (disk w) < fuel →
  os_walk fuel top body acc w = foldM (walk fuel (disk w) top) step acc w.
Proof.
  intros Hbody Hstep Hfuel. destruct (disk w !! top) as [x|] eqn:Htop.
  - apply os_walk_flat; [done..|by rewrite Htop|lia].
  - destruct fuel as [|fuel]; [lia|]. simpl. unfold iterdir. by rewrite Htop.
Qed.

Lemma count_loop (l : list path) (acc : nat) (w : world) :
  foldM l (λ p count, ret (if bool_decide (is_photo (name p)) then count + 1 else count))
    acc w
  = Ret (acc + length (filter (λ p, is_photo (name p)) l)) w.
Proof.
  revert acc. induction l as [|p l IH]; intros acc; simpl.
  { unfold ret. f_equal. lia. }
  unfold bind, ret at 1. rewrite IH, filter_cons.
  case_bool_decide; rewrite ?decide_True, ?decide_False by done; simpl; f_equal; lia.
Qed.

Lemma sum_sizes_perm (f : path → N) (l l' : list path) :
  l ≡ₚ l' → foldr N.add 0%N (f <$> l) = foldr N.add 0%N (f <$> l').
Proof.
  induction 1 as [|x l l' _ IH|x y l|l l' l'' _ IH1 _ IH2]; rewrite ?fmap_cons; cbn [foldr];
    [done | by rewrite IH | lia | by rewrite IH1].
Qed.

Lemma size_loop (l : list path) (acc : N) (w : world) :
  foldM l
    (λ p total_size w,
       match disk w !! p with
       | Some (File d _) => Ret (total_size + N.of_nat (String.length d))%N w
       | _ => Ret total_size w
       end)
    acc w
  = Ret (acc + foldr N.add 0%N (size_of (disk w) <$> l))%N w.
Proof.
  revert acc. induction l as [|p l IH]; intros acc.
  { simpl. unfold ret. f_equal. lia. }
  rewrite fmap_cons. cbn [foldM foldr]. unfold bind.
  assert (size_of (disk w) p = match disk w !! p with
                               | Some (File d _) => N.of_nat (String.length d)
                               | _ => 0%N
                               end) as -> by done.
  destruct (disk w !! p) as [[d t|]|]; rewrite IH; f_equal; lia.
Qed.

Lemma count_photos_spec (fuel : nat) (p : path) (w : world) :
  wf (disk w) → depth (disk w) < fuel →
  _count_photos_in_path fuel p w
  = Ret (length (filter (λ k, is_photo (name k)) (files_below (disk w) p))) w.
Proof.
  intros Hwf Hfuel. unfold _count_photos_in_path.
  rewrite (os_walk_flat_top _
             (λ p count, ret (if bool_decide (is_photo (name p))
                              then count + 1 else count))); [| |by intros ?? ?|done].
  - rewrite count_loop. simpl. f_equal. apply Permutation_length.
    apply filter_Permutation, walk_files_below; [done|lia].
  - intros root files a w'. apply foldM_ext. intros file a' s _.
    by rewrite name_app.
Qed.

(** The discovery's count of a source is the number of regular files
    below it whose lower-cased extension is a photo extension; the walk
    leaves the state as it was. *)
Theorem count_photos_exact (fuel : nat) (p : path) (w : world) :
  wf (disk w) → depth (disk w) < fuel →
  _count_photos_in_path fuel p w
  = Ret (length (filter (λ k, is_photo (name k)) (files_below (disk w) p))) w.
Proof. apply count_photos_spec. Qed.

Lemma count_photos_exact_witness :
  let w := Sample.world_of Sample.source_fs in
  _count_photos_in_path 8 Sample.lib w = Ret 2 w.
Proof.
  intros w.
  refine (eq_trans (count_photos_exact 8 Sample.lib w _ _) _).
  - apply wfb_wf. vm_compute. reflexivity.
  - vm_compute. lia.
  - apply (f_equal (λ n, Ret n w)). vm_compute. reflexivity.
Defined.

Lemma directory_size_spec (fuel : nat) (p : path) (w : world) :
  wf (disk w) → depth (disk w) < fuel →
  _get_directory_size_mb fuel p w
  = Ret (foldr N.add 0%N (size_of (disk w) <$> files_below (disk w) p)) w.
Proof.
  intros Hwf Hfuel. unfold _get_directory_size_mb.
  rewrite (os_walk_flat_top _
             (λ p total_size w,
                match disk w !! p with
                | Some (File d _) => Ret (total_size + N.of_nat (String.length d))%N w
                | _ => Ret total_size w
                end)); [|done| |done].
  - rewrite size_loop. simpl. f_equal.
    apply sum_sizes_perm, walk_files_below; [done|lia].
  - intros q a s. unfold Steps, same_disk.
    by destruct (disk s !! q) as [[]|].
Qed.

(** The size the discovery reports for a source is the sum of the sizes
    of the regular files below it. *)
Theorem directory_size_exact (fuel : nat) (p : path) (w : world) :
  wf (disk w) → depth (disk w) < fuel →
  _get_directory_size_mb fuel p w
  = Ret (foldr N.add 0%N (size_of (disk w) <$> files_below (disk w) p)) w.
Proof. apply directory_size_spec. Qed.

Lemma directory_size_exact_witness :
  let w := Sample.world_of Sample.source_fs in
  _get_directory_size_mb 8 Sample.lib w = Ret 16%N w.
Proof.
  intros w.
  refine (eq_trans (directory_size_exact 8 Sample.lib w _ _) _).
  - apply wfb_wf. vm_compute. reflexivity.
  - vm_compute. lia.
  - apply (f_equal (λ n, Ret n w)). vm_compute. reflexivity.
Defined.

(** ** The Staging Materializer *)

Lemma copy_photos_eq (stage_dir : path) (dry_run : bool) (fuel : nat)
    (source_path : path) (source_name : string) :
  _copy_photos_from_source stage_dir dry_run fuel source_path source_name
  = (let* copied :=
       os_walk fuel source_path
         (λ root files copied, foldM files (copy_one stage_dir dry_run source_name root) copied)
         0 in
     logger INFO (CopiedFrom source_name copied))%py.
Proof. reflexivity. Qed.

Lemma copy_one_dry (stage_dir : path) (source_name : string) (root : path)
    (file : string) (copied : nat) (w : world) :
  copy_one stage_dir true source_name root file copied w
  = if decide (is_media file)
    then Ret (copied + 1) (set_stats (λ s, set_files_copied (files_copied s + 1) s) w)
    else Ret copied w.
Proof.
  unfold copy_one. destruct (decide (is_media file)) as [Hm|Hm]; unfold is_media in Hm.
  - by destruct Hm as [sub ->].
  - destruct (dest_subdir_of (PyStr.lower (suffix file))) as [sub|]; [|done].
    destruct Hm. eauto.
Qed.

Lemma copy_loop_dry (stage_dir : path) (source_name : string) (l : list path)
    (copied : nat) (w : world) :
  ∃ w', foldM l (λ p, copy_one stage_dir true source_name (parent p) (name p)) copied w
        = Ret (copied + length (filter (λ p, is_media (name p)) l)) w'
    ∧ disk w' = disk w
    ∧ stats w' = set_files_copied
                   (files_copied (stats w) + length (filter (λ p, is_media (name p)) l))
                   (stats w)
    ∧ log w' = log w ∧ stdout w' = stdout w.
Proof.
  revert copied w. induction l as [|p l IH]; intros copied w.
  { exists w. simpl. unfold ret. split_and!; try done; [f_equal; lia|].
    destruct (stats w). unfold set_files_copied. simpl. f_equal. lia. }
  cbn [foldM]. unfold bind. rewrite copy_one_dry, filter_cons.
  destruct (decide (is_media (name p))) as [Hm|Hm].
  - destruct (IH (copied + 1) (set_stats (λ s, set_files_copied (files_copied s + 1) s) w))
      as (w' & -> & Hd & Hs & Hl & Ho).
    exists w'. split_and!; try done.
    + simpl. f_equal. lia.
    + rewrite Hs. simpl. unfold set_files_copied. simpl. f_equal. lia.
  - destruct (IH copied w) as (w' & -> & Hd & Hs & Hl & Ho).
    by exists w'.
Qed.

Lemma copy_photos_dry_spec (stage_dir : path) (fuel : nat) (source_path : path)
    (source_name : string) (w : world) :
  wf (disk w) → depth (disk w) < fuel →
  let n := length (filter (λ k, is_media (name k)) (files_below (disk w) source_path)) in
  ∃ w', _copy_photos_from_source stage_dir true fuel source_path source_name w = Ret tt w'
    ∧ disk w' = disk w
    ∧ stats w' = set_files_copied (files_copied (stats w) + n) (stats w)
    ∧ log w' = log w ++ [(INFO, CopiedFrom source_name n)]
    ∧ stdout w' = stdout w.
Proof.
  intros Hwf Hfuel n. rewrite copy_photos_eq. unfold bind.
  rewrite (os_walk_flat_top _
             (λ p, copy_one stage_dir true source_name (parent p) (name p))); [| | |done].
  - destruct (copy_loop_dry stage_dir source_name (walk fuel (disk w) source_path) 0 w)
      as (w' & -> & Hd & Hs & Hl & Ho).
    assert (length (filter (λ p, is_media (name p)) (walk fuel (disk w) source_path)) = n)
      as Hn.
    { apply Permutation_length, filter_Permutation, walk_files_below; [done|lia]. }
    rewrite Hn in *. eexists. split; [reflexivity|]. simpl.
    by rewrite Hd, Hs, Hl, Ho.
  - intros root files a s. apply foldM_ext. intros file a' s' _.
    by rewrite parent_app, name_app.
  - intros p a s. rewrite copy_one_dry. unfold same_disk. by destruct (decide _).
Qed.

(** In a dry run the copy of one source changes no path other than the
    log file, adds to the copy counter the number of regular files below
    the source whose lower-cased extension is a photo or video extension,
    and logs that number. *)
Theorem dry_run_copy_counts (stage_dir : path) (fuel : nat) (source_path : path)
    (source_name : string) (w : world) :
  wf (disk w) → depth (disk w) < fuel →
  let n := media_below (disk w) source_path in
  ∃ w', _copy_photos_from_source stage_dir true fuel source_path source_name w = Ret tt w'
    ∧ (∀ k, k ≠ log_file → disk w' !! k = disk w !! k)
    ∧ stats w' = set_files_copied (files_copied (stats w) + n) (stats w)
    ∧ log w' = log w ++ [(INFO, CopiedFrom source_name n)]
    ∧ stdout w' = stdout w.
Proof.
  intros Hwf Hfuel n.
  destruct (copy_photos_dry_spec stage_dir fuel source_path source_name w Hwf Hfuel)
    as (w' & Hrun & Hd & Hs & Hl & Ho).
  exists w'. split_and!; try done. intros k _. by rewrite Hd.
Qed.

Lemma dry_run_copy_counts_witness :
  let w := Sample.world_of Sample.source_fs in
  ∃ w', _copy_photos_from_source Sample.staging true 8 Sample.lib "primary" w = Ret tt w'
    ∧ (∀ k, k ≠ log_file → disk w' !! k = disk w !! k)
    ∧ files_copied (stats w') = 3
    ∧ log w' = [(INFO, CopiedFrom "primary" 3)].
Proof.
  intros w.
  assert (wf (disk w)) as Hwf by (apply wfb_wf; vm_compute; reflexivity).
  assert (depth (disk w) < 8) as Hfuel by (vm_compute; lia).
  destruct (dry_run_copy_counts Sample.staging 8 Sample.lib "primary" w Hwf Hfuel)
    as (w' & Hrun & Hd & Hs & Hl & _).
  exists w'. split_and!; [exact Hrun | exact Hd | |].
  - rewrite Hs. vm_compute. reflexivity.
  - rewrite Hl. vm_compute. reflexivity.
Defined.

Global Instance gathered_po (stage_dir : path) : PreOrder (gathered stage_dir).
Proof.
  split.
  - intros w. split; try reflexivity; try done. intros k d t ?. by exists k.
  - intros w1 w2 w3 [Ho1 Hk1 Hd1 Hb1 Hf1 Hu1 Hc1 He1 Hl1]
      [Ho2 Hk2 Hd2 Hb2 Hf2 Hu2 Hc2 He2 Hl2].
    split.
    + intros k Hk. by rewrite Ho2, Ho1.
    + intros k Hk. by apply Hk2, Hk1.
    + intros k. by rewrite Hd2, Hd1.
    + intros k d t Hk. apply Hb2 in Hk as [k' Hk']. by apply Hb1 in Hk'.
    + by transitivity w2.
    + congruence.
    + lia.
    + by transitivity (errors (stats w2)).
    + by transitivity (log w2).
Qed.

Lemma copy2_cases (src dst : path) (m : fs) :
  (¬ returns (shutil_copy2 src dst m) ∧ final (shutil_copy2 src dst m) = m
   ∧ terminates (shutil_copy2 src dst m))
  ∨ ∃ d t target,
      m !! src = Some (File d t) ∧ (target = dst ∨ target = dst ++ [name src])
      ∧ m !! target ≠ Some Dir
      ∧ shutil_copy2 src dst m = Ret tt (<[target := File d t]> m).
Proof.
  unfold shutil_copy2.
  set (target := if is_dir m dst then dst ++ [name src] else dst).
  assert (target = dst ∨ target = dst ++ [name src]) as Ht.
  { unfold target. destruct (is_dir m dst); eauto. }
  destruct (m !! src) as [[d t|]|]; [|left; simpl; eauto..].
  destruct (decide (src = target)); [left; simpl; eauto|].
  destruct (m !! target) as [[d' t'|]|] eqn:Htg; [|left; simpl; eauto|].
  - right. exists d, t, target. split_and!; try done. congruence.
  - destruct (m !! parent target) as [[]|]; [left; simpl; eauto| |left; simpl; eauto].
    right. exists d, t, target. split_and!; try done. congruence.
Qed.

Lemma dest_subdir_of_Some (extension sub : string) :
  dest_subdir_of extension = Some sub →
  sub ∈ ["raw_photos"; "processed_photos"; "videos"]%string.
Proof.
  unfold dest_subdir_of. repeat case_bool_decide; intros [= <-];
    rewrite !elem_of_cons; auto.
Qed.

Lemma gathered_stats (stage_dir : path) (w : world)
    (f : ConsolidationStats → ConsolidationStats) :
  files_found (f (stats w)) = files_found (stats w) →
  total_size_mb (f (stats w)) = total_size_mb (stats w) →
  duplicates_found (f (stats w)) = duplicates_found (stats w) →
  files_copied (stats w) ≤ files_copied (f (stats w)) →
  errors (stats w) `prefix_of` errors (f (stats w)) →
  gathered stage_dir w (set_stats f w).
Proof.
  intros. split; try reflexivity; try done. intros k d t ?. by exists k.
Qed.

Lemma lift_fs_state {A : Type} (c : M fs A) (w : world) :
  final (lift_fs c w) = set_disk (final (c (disk w))) w.
Proof. unfold lift_fs. by destruct (c (disk w)). Qed.

Lemma Steps_copy2_gathered (stage_dir : path) (src : path) (sub file : string) :
  sub ∈ ["raw_photos"; "processed_photos"; "videos"]%string →
  Steps (gathered stage_dir) (lift_fs (shutil_copy2 src (stage_dir ++ [sub; file]))).
Proof.
  intros Hsub w. rewrite lift_fs_state.
  destruct (copy2_cases src (stage_dir ++ [sub; file]) (disk w))
    as [(_ & -> & _)|(d & t & target & Hsrc & Ht & Hnd & ->)].
  { split; simpl; try reflexivity; try done. intros k d t ?. by exists k. }
  assert (staged stage_dir target) as Hst.
  { destruct Ht as [->| ->].
    - by exists sub, [file].
    - exists sub, [file; name src]. split_and!; [done..|]. by rewrite <-app_assoc. }
  split; simpl; try reflexivity; try done.
  - intros k Hk. apply lookup_insert_ne. by intros ->.
  - intros k Hk. destruct (decide (target = k)) as [->|].
    + rewrite lookup_insert_eq. eauto.
    + by rewrite lookup_insert_ne.
  - intros k. destruct (decide (target = k)) as [->|].
    + rewrite lookup_insert_eq. split; [done|]. intros ?. by destruct Hnd.
    + by rewrite lookup_insert_ne.
  - intros k d' t'. destruct (decide (target = k)) as [->|].
    + rewrite lookup_insert_eq. intros [= <- <-]. by exists src.
    + rewrite lookup_insert_ne by done. intros ?. by exists k.
Qed.

Lemma Steps_logger_gathered (stage_dir : path) (l : level) (msg : message) :
  Steps (gathered stage_dir) (logger l msg).
Proof.
  intros w. split; try done; try (by apply prefix_app_r). intros k d t ?. by exists k.
Qed.

Lemma Steps_copy_one_gathered (stage_dir : path) (dry_run : bool) (source_name : string)
    (root : path) (file : string) (copied : nat) :
  Steps (gathered stage_dir) (copy_one stage_dir dry_run source_name root file copied).
Proof.
  unfold copy_one. cbn zeta.
  destruct (dest_subdir_of (PyStr.lower (suffix file))) as [sub|] eqn:Hsub;
    [|apply Steps_ret, _].
  apply dest_subdir_of_Some in Hsub.
  apply Steps_try_except; [apply _| |].
  - apply Steps_bind; [apply _| |].
    + destruct dry_run; cbn [negb]; [apply Steps_ret, _|by apply Steps_copy2_gathered].
    + intros _. apply Steps_bind; [apply _| |intros _; apply Steps_ret, _].
      intros w. apply gathered_stats; simpl; try done; lia.
  - intros e. apply Steps_bind; [apply _|apply Steps_logger_gathered|].
    intros _. apply Steps_bind; [apply _| |intros _; apply Steps_ret, _].
    intros w. apply gathered_stats; simpl; try done. by apply prefix_app_r.
Qed.

Lemma Steps_gather_gathered (stage_dir : path) (dry_run : bool) (fuel : nat)
    (sources : discovered) :
  Steps (gathered stage_dir) (gather_all_photos stage_dir dry_run fuel sources).
Proof.
  apply Steps_for_each; [apply _|]. intros src.
  rewrite copy_photos_eq.
  apply Steps_bind; [apply _| |intros; apply Steps_logger_gathered].
  apply Steps_os_walk; [apply _|]. intros root files a.
  apply Steps_foldM; [apply _|]. intros file a'.
  apply Steps_copy_one_gathered.
Qed.

(** Gathering, dry run or not and whatever its outcome, changes entries
    inside the three staging directories and the log file only, removes
    nothing, creates and removes no directory, writes only bytes and time
    stamps of files that were on disk, and of the statistics touches only
    the copy counter and the error list, which grow. *)
Theorem gather_changes_only_staging (stage_dir : path) (dry_run : bool) (fuel : nat)
    (sources : discovered) (w : world) :
  let w' := final (gather_all_photos stage_dir dry_run fuel sources w) in
  (∀ k, ¬ staged stage_dir k → k ≠ log_file → disk w' !! k = disk w !! k)
  ∧ (∀ k, is_Some (disk w !! k) → is_Some (disk w' !! k))
  ∧ (∀ k, disk w' !! k = Some Dir ↔ disk w !! k = Some Dir)
  ∧ (∀ k d t, k ≠ log_file → disk w' !! k = Some (File d t) →
       ∃ k', disk w !! k' = Some (File d t))
  ∧ files_found (stats w') = files_found (stats w)
  ∧ total_size_mb (stats w') = total_size_mb (stats w)
  ∧ duplicates_found (stats w') = duplicates_found (stats w)
  ∧ files_copied (stats w) ≤ files_copied (stats w')
  ∧ errors (stats w) `prefix_of` errors (stats w')
  ∧ log w `prefix_of` log w'.
Proof.
  intros w'.
  destruct (Steps_gather_gathered stage_dir dry_run fuel sources w)
    as [Ho Hk Hd Hb [Hf Ht] Hu Hc He Hl].
  split_and!; try done.
  - intros k Hk' _. by apply Ho.
  - intros k d t _. apply Hb.
Qed.

(** *** Gathering returns *)

Lemma copy_one_Ret (stage_dir : path) (dry_run : bool) (source_name : string)
    (root : path) (file : string) (copied : nat) (w : world) :
  ∃ a w', copy_one stage_dir dry_run source_name root file copied w = Ret a w'.
Proof.
  unfold copy_one. cbn zeta.
  destruct (dest_subdir_of (PyStr.lower (suffix file))) as [sub|]; [|by eexists _, _].
  unfold try_except, bind. destruct dry_run; cbn [negb]; [by eexists _, _|].
  unfold lift_fs.
  destruct (copy2_cases (root ++ [file])
              (stage_dir ++ [sub; (source_name +:+ "_" +:+ file)%string]) (disk w))
    as [(Hr & _ & Ht)|(d & t & target & _ & _ & _ & ->)]; [|by eexists _, _].
  destruct (shutil_copy2 _ _ (disk w)) as [[] m|e m|m]; simpl in *;
    [by destruct Hr | by eexists _, _ | done].
Qed.

Lemma safe_copy_one (m0 : fs) (stage_dir : path) (dry_run : bool) (source_name : string)
    (root : path) (file : string) (copied : nat) :
  safe (same_dirs m0) (λ _, True)
    (copy_one stage_dir dry_run source_name root file copied).
Proof.
  intros w Hw.
  destruct (copy_one_Ret stage_dir dry_run source_name root file copied w)
    as (a & w' & Hr).
  exists a, w'. split_and!; [done| |done].
  pose proof (Steps_copy_one_gathered stage_dir dry_run source_name root file copied w)
    as Hg.
  rewrite Hr in Hg. simpl in Hg. intros k. by rewrite (gathered_dirs _ _ _ Hg), (Hw k).
Qed.

Lemma safe_os_walk_dirs {A : Type} (m0 : fs) (I : A → Prop)
    (body : path → list string → A → M world A) :
  (∀ root files a, I a → safe (same_dirs m0) I (body root files a)) →
  ∀ (fuel : nat) (top : path) (acc : A),
    I acc → depth m0 < length top + fuel → 0 < fuel →
    safe (same_dirs m0) I (os_walk fuel top body acc).
Proof.
  intros Hb. induction fuel as [|fuel IH]; intros top acc Hacc Hfuel Hpos; [lia|].
  intros w Hw. simpl. unfold iterdir.
  destruct (disk w !! top) as [[]|] eqn:Hd; [by exists acc, w| |by exists acc, w].
  refine (safe_bind _ I I _ _ _ _ w Hw); [by apply Hb|].
  intros a Ha w1 Hw1. revert w1 Hw1.
  apply safe_foldM; [done|]. intros d a' Hin Ha'.
  apply list_elem_of_fmap in Hin as (e & -> & He).
  apply list_elem_of_filter in He as [Hflag He].
  apply list_elem_of_fmap in He as (n & -> & _). simpl in Hflag |- *.
  assert (m0 !! (top ++ [n]) = Some Dir) as Hdir by (by apply Hw, is_dir_true).
  apply IH; [done|rewrite length_app; simpl; lia|].
  apply mk_is_Some, lookup_depth in Hdir. rewrite length_app in Hdir. simpl in Hdir. lia.
Qed.

(** With fuel above the depth of the disk, gathering returns, dry run or
    not: a file that cannot be copied does not stop it, and neither does
    a source that cannot be listed. *)
Theorem gather_returns (stage_dir : path) (dry_run : bool) (fuel : nat)
    (sources : discovered) (w : world) :
  depth (disk w) < fuel →
  ∃ w', gather_all_photos stage_dir dry_run fuel sources w = Ret tt w'.
Proof.
  intros Hfuel.
  assert (safe (same_dirs (disk w)) (λ _, True)
            (gather_all_photos stage_dir dry_run fuel sources)) as Hsafe.
  { apply safe_for_each. intros src _. rewrite copy_photos_eq.
    apply (safe_bind _ (λ _, True)).
    - apply safe_os_walk_dirs; [|done|lia|lia].
      intros root files a _. apply safe_foldM; [done|]. intros file a' _ _.
      apply safe_copy_one.
    - intros copied _ s Hs. by eexists _, _. }
  destruct (Hsafe w) as ([] & w' & Hr & _); [done|]. by exists w'.
Qed.

Lemma gather_returns_witness :
  let w := Sample.world_of Sample.source_fs in
  ∃ w', gather_all_photos Sample.staging false 8
          [("primary"%string, mk_source_info Sample.lib 2 16%N)] w = Ret tt w'.
Proof.
  intros w. apply (gather_returns Sample.staging false 8 _ w). vm_compute. lia.
Defined.

(** ** A capture field without a value (C4) *)

(** C4. A staged file for which the reader exits with status 0 and
    prints the capture field with no value is not organized at all:
    [_get_photo_date] raises [IndexError], which its handler does not
    catch, where the specification has it fall back on the modification
    time.
    The organizer logs the failure and leaves the file in the staging
    directory; nothing is placed under 2023/01/17, the date of its
    modification time. The other file, for which the reader prints no
    field, is placed by its modification time. *)
Theorem blank_capture_field_not_organized :
  let w := Sample.world_of Sample.summer_fs in
  let beach := Sample.processed ++ ["A_beach.jpg"%string] in
  let w' := final (organize_by_date Sample.exif_blank Sample.epoch Sample.staging false w) in
  disk w !! beach = Some (File "beach" 17%Z)
  ∧ Sample.epoch 17 = mk_datetime 2023 1 17 0 0 0
  ∧ _get_photo_date Sample.exif_blank Sample.epoch beach w = Raise IndexError w
  ∧ returns (organize_by_date Sample.exif_blank Sample.epoch Sample.staging false w) = true
  ∧ log w' = [(ERROR, FailedToOrganize beach IndexError); (INFO, Organized 1)]
  ∧ disk w' !! beach = Some (File "beach" 17%Z)
  ∧ disk w' !! (Sample.organized ++ ["2023"; "01"; "17"; "A_beach.jpg"]%string) = None
  ∧ listdir (disk w') (Sample.organized ++ ["2023"; "01"]%string) = ["18"%string]
  ∧ disk w' !! (Sample.organized ++ ["2023"; "01"; "18"; "A_scan.png"]%string)
    = Some (File "scan" 18%Z).
Proof.
  intros w beach w'. split_and!; vm_compute; reflexivity.
Qed.

(** ** What the discovery returns *)

Lemma discover_loop (fuel : nat) (l : list (string * path)) (acc : discovered) (w : world) :
  wf (disk w) → depth (disk w) < fuel →
  foldM l
    (λ src discovered w,
       if exists_ (disk w) src.2 then
         (let* file_count := _count_photos_in_path fuel src.2 in
          let* size_mb := _get_directory_size_mb fuel src.2 in
          ret (discovered ++ [(src.1, mk_source_info src.2 file_count size_mb)]))%py w
       else (logger WARNING (SourceNotFound src.2) >> ret discovered)%py w)
    acc w
  = Ret (acc ++ found_in (disk w) l)
      (mk_world (disk w) (stats w) (log w ++ missing_in (disk w) l) (stdout w)).
Proof.
  revert acc w. induction l as [|src l IH]; intros acc w Hwf Hfuel.
  { simpl. unfold ret, found_in, missing_in. simpl. rewrite !app_nil_r. by destruct w. }
  cbn [foldM]. unfold bind at 1. unfold found_in, missing_in. rewrite !filter_cons.
  destruct (exists_ (disk w) src.2) eqn:Hex.
  - rewrite decide_True by done. rewrite decide_False by done.
    unfold bind at 1. rewrite count_photos_spec by done.
    unfold bind at 1. rewrite directory_size_spec by done.
    unfold ret at 1. rewrite IH by done.
    rewrite fmap_cons, <-app_assoc. reflexivity.
  - rewrite decide_False by done. rewrite decide_True by done.
    unfold bind at 1, logger, modify, ret at 1.
    rewrite IH by done. cbn [disk stats log stdout add_log].
    rewrite fmap_cons, <-app_assoc. reflexivity.
Qed.

Lemma discover_spec (fuel : nat) (w : world) :
  wf (disk w) → depth (disk w) < fuel →
  discover_photo_sources fuel w
  = Ret (found_in (disk w) sources)
      (mk_world (disk w) (stats w) (log w ++ missing_in (disk w) sources) (stdout w)).
Proof. intros Hwf Hfuel. unfold discover_photo_sources. by rewrite discover_loop. Qed.

(** ** The command surface (C8) *)

(** C8, as the code has it. Of the step names the parser accepts, [all]
    runs the whole pipeline on fresh statistics; [discover] runs the
    discovery and prints it: one entry for each of the three roots that
    exists, with the number of photo files and the number of bytes below
    it, a warning being logged for each root that does not exist; each of
    [gather], [dedupe], [organize] and [import] only logs that the step
    is not implemented: no path other than the log file changes and
    nothing is printed. *)
Theorem main_single_steps (jdupes : fs → list path → proc_result)
    (exiftool : fs → path → proc_result) (darktable_cli : fs → proc_result)
    (fromtimestamp : Z → datetime) (now : string) (clock : Z)
    (json_dumps : report → string) (fuel : nat) (a : args) (w : world) :
  wf (disk w) → depth (disk w) < fuel →
  match arg_step a with
  | all =>
      main jdupes exiftool darktable_cli fromtimestamp now clock json_dumps fuel a w
      = run_full_consolidation jdupes exiftool darktable_cli fromtimestamp now clock
          json_dumps (arg_stage_dir a) (arg_dry_run a) fuel
          (set_stats (λ _, init_stats) w)
  | discover =>
      ∃ w',
        main jdupes exiftool darktable_cli fromtimestamp now clock json_dumps fuel a w
        = Ret tt w'
        ∧ (∀ k, k ≠ log_file → disk w' !! k = disk w !! k)
        ∧ log w' = log w ++ missing_in (disk w) sources
        ∧ stdout w' = stdout w ++ [found_in (disk w) sources]
  | _ =>
      ∃ w',
        main jdupes exiftool darktable_cli fromtimestamp now clock json_dumps fuel a w
        = Ret tt w'
        ∧ (∀ k, k ≠ log_file → disk w' !! k = disk w !! k)
        ∧ log w' = log w ++ [(ERROR, StepNotImplemented (step_name (arg_step a)))]
        ∧ stdout w' = stdout w
  end.
Proof.
  intros Hwf Hfuel. unfold main.
  destruct (arg_step a) eqn:Hstep; try (by eexists; split_and!; [reflexivity|..]).
  - unfold bind at 1, modify at 1. unfold bind.
    rewrite discover_spec by done. unfold modify. by eexists; split_and!; [reflexivity|..].
  - reflexivity.
Qed.

Lemma main_single_steps_witness :
  let w := Sample.world_of Sample.summer_fs in
  ∃ w',
    main Sample.no_jdupes Sample.exif_2019 Sample.no_tool Sample.epoch "now" 0%Z
      Sample.no_json 8 (mk_args false Sample.staging organize) w = Ret tt w'
    ∧ (∀ k, k ≠ log_file → disk w' !! k = disk w !! k)
    ∧ log w' = [(ERROR, StepNotImplemented "organize")]
    ∧ stdout w' = [].
Proof.
  intros w.
  assert (wf (disk w)) as Hwf by (apply wfb_wf; vm_compute; reflexivity).
  assert (depth (disk w) < 8) as Hfuel by (vm_compute; lia).
  exact (main_single_steps Sample.no_jdupes Sample.exif_2019 Sample.no_tool Sample.epoch
           "now" 0%Z Sample.no_json 8 (mk_args false Sample.staging organize) w
           Hwf Hfuel).
Defined.

(** C8, as the specification states it, fails: asked for the step
    [organize], the program leaves the staged file where it is, whereas
    the organizer would have moved it under its date. *)
Lemma main_organize_does_not_organize :
  let w := Sample.world_of Sample.summer_fs in
  let photo := Sample.processed ++ ["A_beach.jpg"%string] in
  let by_main := final (main Sample.no_jdupes Sample.exif_2019 Sample.no_tool Sample.epoch
                          "now" 0%Z Sample.no_json 8
                          (mk_args false Sample.staging organize) w) in
  let by_stage := final (organize_by_date Sample.exif_2019 Sample.epoch Sample.staging
                           false w) in
  disk by_main !! photo = Some (File "beach" 17%Z)
  ∧ disk by_main !! Sample.organized = None
  ∧ log by_main = [(ERROR, StepNotImplemented "organize")]
  ∧ disk by_stage !! photo = None
  ∧ disk by_stage !! (Sample.organized ++ ["2019"; "07"; "04"; "A_beach.jpg"]%string)
    = Some (File "beach" 17%Z)
  ∧ disk by_main ≠ disk by_stage.
Proof.
  intros w photo by_main by_stage.
  assert (disk by_main !! photo = Some (File "beach" 17%Z)) as H1 by (vm_compute; reflexivity).
  assert (disk by_stage !! photo = None) as H2 by (vm_compute; reflexivity).
  split_and!; [exact H1 | vm_compute; reflexivity.. | exact H2 | vm_compute; reflexivity |].
  intros Heq. rewrite Heq, H2 in H1. discriminate H1.
Qed.


(** ** Dry runs (C9) *)

Global Instance kept_but_po (p : path) : PreOrder (kept_but p).
Proof.
  split.
  - intros w. by split.
  - intros x y z [Hxy Hlxy] [Hyz Hlyz]. split.
    + intros k Hk Hl. by rewrite Hyz, Hxy.
    + by transitivity (log y).
Qed.

Lemma Steps_logger_kept (p : path) (l : level) (msg : message) :
  Steps (kept_but p) (logger l msg).
Proof. intros w. split; [done|]. by apply prefix_app_r. Qed.

Lemma Steps_modify_stats_kept (p : path) (f : ConsolidationStats → ConsolidationStats) :
  Steps (kept_but p) (modify (set_stats f)).
Proof. intros w. by split. Qed.

Lemma Steps_generate_report_kept (now : string) (clock : Z) (json_dumps : report → string)
    (stage_dir : path) (dry_run : bool) :
  Steps (kept_but report_file) (generate_report now clock json_dumps stage_dir dry_run).
Proof.
  intros w. rewrite generate_report_final. split; [|done].
  intros k Hk _. cbn [disk set_disk]. by apply write_text_other.
Qed.

Lemma Steps_run_full_kept (jdupes : fs → list path → proc_result)
    (exiftool : fs → path → proc_result) (darktable_cli : fs → proc_result)
    (fromtimestamp : Z → datetime) (now : string) (clock : Z)
    (json_dumps : report → string) (stage_dir : path) (fuel : nat) :
  Steps (kept_but report_file)
    (run_full_consolidation jdupes exiftool darktable_cli fromtimestamp now clock
       json_dumps stage_dir true fuel).
Proof.
  apply Steps_try_except; [apply _| |].
  - apply Steps_bind; [apply _ | apply Steps_discover; [apply _ | apply Steps_logger_kept] |].
    intros sources.
    apply Steps_bind; [apply _ | apply Steps_modify_stats_kept |]. intros _.
    apply Steps_bind; [apply _ | apply Steps_modify_stats_kept |]. intros _.
    apply Steps_run_stages_dry; [apply _ | apply Steps_logger_kept
      | apply Steps_modify_stats_kept | intros; apply Steps_modify_stats_kept
      | apply Steps_generate_report_kept].
  - intros e. apply Steps_bind; [apply _ | apply Steps_logger_kept |]. intros _.
    apply Steps_bind; [apply _ | apply Steps_modify_stats_kept |]. intros _.
    apply Steps_raise, _.
Qed.

Lemma gather_dry_spec (stage_dir : path) (fuel : nat) (l : discovered) (w : world) :
  wf (disk w) → depth (disk w) < fuel →
  ∃ w', gather_all_photos stage_dir true fuel l w = Ret tt w'
    ∧ disk w' = disk w
    ∧ stats w' = set_files_copied
                   (files_copied (stats w)
                    + sum_list ((λ src, media_below (disk w) (src_path src.2)) <$> l))
                   (stats w).
Proof.
  revert w. induction l as [|src l IH]; intros w Hwf Hfuel.
  { exists w. split_and!; [done..|]. destruct (stats w). unfold set_files_copied. simpl.
    f_equal. lia. }
  destruct (copy_photos_dry_spec stage_dir fuel (src_path src.2) src.1 w Hwf Hfuel)
    as (w1 & Hrun & Hd & Hs & _).
  destruct (IH w1) as (w' & Hrest & Hd' & Hs'); [by rewrite Hd..|].
  exists w'. unfold gather_all_photos in *. cbn [for_each]. unfold bind.
  rewrite Hrun, Hrest. split_and!; [done | congruence |].
  rewrite Hs', Hs, Hd, fmap_cons. unfold set_files_copied, media_below. simpl.
  f_equal. lia.
Qed.

(** C9, as the code has it. A dry run of the whole pipeline changes no
    path other than the report file and the log file, and the log file
    is only appended to; with fuel above the depth of the disk it does
    not stop for lack of fuel, and the statistics it ends with hold the
    counts: the photo files and the bytes below the roots that exist, and
    the photo and video files that a real run would try to copy. *)
Theorem dry_run_writes_report_and_log (jdupes : fs → list path → proc_result)
    (exiftool : fs → path → proc_result) (darktable_cli : fs → proc_result)
    (fromtimestamp : Z → datetime) (now : string) (clock : Z)
    (json_dumps : report → string) (stage_dir : path) (fuel : nat) (w : world) :
  wf (disk w) → depth (disk w) < fuel →
  let r := run_full_consolidation jdupes exiftool darktable_cli fromtimestamp now clock
             json_dumps stage_dir true fuel w in
  let roots := found_in (disk w) sources in
  (∀ k, k ≠ report_file → k ≠ log_file → disk (final r) !! k = disk w !! k)
  ∧ log w `prefix_of` log (final r)
  ∧ terminates r
  ∧ files_found (stats (final r)) = sum_list (file_count ∘ snd <$> roots)
  ∧ total_size_mb (stats (final r)) = foldr N.add 0%N (size_mb ∘ snd <$> roots)
  ∧ files_copied (stats (final r))
    = files_copied (stats w)
      + sum_list ((λ src, media_below (disk w) (src_path src.2)) <$> roots).
Proof.
  intros Hwf Hfuel r roots.
  destruct (Steps_run_full_kept jdupes exiftool darktable_cli fromtimestamp now clock
              json_dumps stage_dir fuel w) as [Hdisk Hlog].
  split; [exact Hdisk|]. split; [exact Hlog|].
  set (w1 := mk_world (disk w) (stats w) (log w ++ missing_in (disk w) sources) (stdout w)).
  set (w2 := set_stats (set_total_size_mb (foldr N.add 0%N (size_mb ∘ snd <$> roots)))
               (set_stats (set_files_found (sum_list (file_count ∘ snd <$> roots))) w1)).
  assert (r = try_except
                (run_stages jdupes exiftool darktable_cli fromtimestamp now clock
                   json_dumps stage_dir true fuel roots)
                (λ e, logger ERROR (ConsolidationFailed e) >>
                      modify (set_stats (append_error (StrOf e))) >> raise e) w2) as Hr.
  { unfold r, run_full_consolidation, try_except, bind at 1.
    rewrite discover_spec by done. unfold bind at 1 2, modify. reflexivity. }
  destruct (gather_dry_spec stage_dir fuel roots w2 Hwf Hfuel) as (w3 & Hg & Hd3 & Hs3).
  pose proof (terminates_generate_report now clock json_dumps stage_dir true w3) as Hterm.
  pose proof (proj2 (Steps_generate_report now clock json_dumps stage_dir true) w3) as Hst.
  unfold same_stats in Hst.
  assert (final ((generate_report now clock json_dumps stage_dir true >> ret tt) w3)
          = final (generate_report now clock json_dumps stage_dir true w3)) as Hfin.
  { unfold bind. by destruct (generate_report _ _ _ _ _ w3). }
  assert (run_stages jdupes exiftool darktable_cli fromtimestamp now clock json_dumps
            stage_dir true fuel roots w2
          = (generate_report now clock json_dumps stage_dir true >> ret tt) w3) as Hrs.
  { rewrite run_stages_dry. unfold bind at 1. by rewrite Hg. }
  rewrite Hr. unfold try_except. rewrite Hrs.
  rewrite <-Hfin in Hst.
  destruct ((generate_report now clock json_dumps stage_dir true >> ret tt) w3)
    as [[] s|e s|s]; simpl in *; [| |done].
  - rewrite Hst, Hs3. by split_and!.
  - rewrite Hst, Hs3. by split_and!.
Qed.

Lemma dry_run_writes_report_and_log_witness :
  let w := Sample.world_of Sample.source_fs in
  let w' := final (run_full_consolidation Sample.no_jdupes Sample.exif_2019 Sample.no_tool
                     Sample.epoch "now" 40%Z Sample.no_json Sample.staging true 8 w) in
  disk w' !! Sample.staging = None
  ∧ disk w' !! (Sample.lib ++ ["a.JPG"%string]) = Some (File "12345" 31%Z)
  ∧ files_found (stats w') = 2
  ∧ total_size_mb (stats w') = 16%N
  ∧ files_copied (stats w') = 3.
Proof.
  intros w w'.
  assert (wf (disk w)) as Hwf by (apply wfb_wf; vm_compute; reflexivity).
  assert (depth (disk w) < 8) as Hfuel by (vm_compute; lia).
  destruct (dry_run_writes_report_and_log Sample.no_jdupes Sample.exif_2019 Sample.no_tool
              Sample.epoch "now" 40%Z Sample.no_json Sample.staging 8 w Hwf Hfuel)
    as (Hsame & _ & _ & Hfound & Hsize & Hcopied).
  split_and!.
  - refine (eq_trans (Hsame _ _ _) _); [discriminate.. | vm_compute; reflexivity].
  - refine (eq_trans (Hsame _ _ _) _); [discriminate.. | vm_compute; reflexivity].
  - refine (eq_trans Hfound _). vm_compute. reflexivity.
  - refine (eq_trans Hsize _). vm_compute. reflexivity.
  - refine (eq_trans Hcopied _). vm_compute. reflexivity.
Defined.

(** C9, as the specification states it, fails: the dry run writes the
    report file, which was not on disk before, and appends to the log
    file. *)
Lemma dry_run_writes_report :
  let w := Sample.world_of Sample.source_fs in
  let w' := final (run_full_consolidation Sample.no_jdupes Sample.exif_2019 Sample.no_tool
                     Sample.epoch "now" 40%Z Sample.no_json Sample.staging true 8 w) in
  disk w !! report_file = None
  ∧ disk w' !! report_file = Some (File "{}" 40%Z)
  ∧ disk w' ≠ disk w
  ∧ log w = []
  ∧ log w' = [(WARNING, SourceNotFound ["media"; "joel"]%string);
              (WARNING, SourceNotFound ["mnt"; "external"]%string);
              (INFO, CopiedFrom "primary" 3)].
Proof.
  intros w w'.
  assert (disk w !! report_file = None) as H1 by (vm_compute; reflexivity).
  assert (disk w' !! report_file = Some (File "{}" 40%Z)) as H2 by (vm_compute; reflexivity).
  split_and!; [exact H1 | exact H2 | | vm_compute; reflexivity..].
  intros Heq. rewrite Heq, H1 in H2. discriminate H2.
Qed.

(** ** The Duplicate Resolver and the import stage: what failures do *)


Lemma jdupes_failure_spec (jdupes : fs → list path → proc_result)
    (stage_dir : path) (w : world) (msg : message) :
  jdupes_failure (jdupes (disk w) [stage_dir ++ ["raw_photos"%string];
                                   stage_dir ++ ["processed_photos"%string]]) = Some msg →
  run_jdupes_deduplication jdupes stage_dir false w
  = Ret tt (mk_world (disk w) (append_error msg (stats w))
              (log w ++ [(ERROR, msg)]) (stdout w)).
Proof.
  unfold run_jdupes_deduplication, try_except, bind, jdupes_failure.
  destruct (jdupes (disk w) _) as [rc out err| |]; simpl.
  - destruct (rc =? 0)%Z; [done|]. by intros [= <-].
  - by intros [= <-].
  - by intros [= <-].
Qed.

(** When the detector exits with a non-zero status, times out or is not
    installed, the stage returns after logging the condition and
    appending it to the error list, and does nothing else: no path other
    than the log file changes, so no file is moved, and the duplicate
    count is not touched. *)
Theorem jdupes_failure_recorded (jdupes : fs → list path → proc_result)
    (stage_dir : path) (w : world) (msg : message) :
  jdupes_failure (jdupes (disk w) [stage_dir ++ ["raw_photos"%string];
                                   stage_dir ++ ["processed_photos"%string]]) = Some msg →
  ∃ w', run_jdupes_deduplication jdupes stage_dir false w = Ret tt w'
    ∧ (∀ k, k ≠ log_file → disk w' !! k = disk w !! k)
    ∧ stats w' = append_error msg (stats w)
    ∧ log w' = log w ++ [(ERROR, msg)].
Proof.
  intros Hfail. rewrite (jdupes_failure_spec jdupes stage_dir w msg Hfail).
  by eexists; split_and!; [reflexivity|..].
Qed.

Lemma jdupes_failure_recorded_witness :
  let w := Sample.world_of Sample.staged_fs in
  ∃ w', run_jdupes_deduplication Sample.no_jdupes Sample.staging false w = Ret tt w'
    ∧ (∀ k, k ≠ log_file → disk w' !! k = disk w !! k)
    ∧ stats w' = append_error JdupesNotInstalled (stats w)
    ∧ log w' = log w ++ [(ERROR, JdupesNotInstalled)].
Proof.
  intros w.
  exact (jdupes_failure_recorded Sample.no_jdupes Sample.staging w JdupesNotInstalled
           eq_refl).
Defined.

(** When the copying into the library raises, the import stage returns
    all the same: the failure is the one entry added to the error list
    and the last record of the log, and no path other than the log file
    differs from what the copying left. *)
Theorem import_failure_recorded (darktable_cli : fs → proc_result) (stage_dir : path)
    (fuel : nat) (w w1 : world) (e : exn) :
  is_Some (disk w !! (stage_dir ++ ["organized"%string])) →
  copy_organized darktable_cli stage_dir fuel w = Raise e w1 →
  ∃ w', import_to_darktable darktable_cli stage_dir false fuel w = Ret tt w'
    ∧ (∀ k, k ≠ log_file → disk w' !! k = disk w1 !! k)
    ∧ stats w' = append_error (FailedToImport e) (stats w)
    ∧ log w' = log w1 ++ [(ERROR, FailedToImport e)].
Proof.
  intros Hex%exists_true Hraise. unfold import_to_darktable. rewrite Hex. cbn [negb].
  unfold try_except. rewrite Hraise.
  pose proof (Steps_copy_organized_stats darktable_cli stage_dir fuel w) as Hs.
  rewrite Hraise in Hs. unfold same_stats in Hs. simpl in Hs.
  eexists. split; [reflexivity|]. simpl. by rewrite Hs.
Qed.

Lemma import_failure_recorded_witness :
  let w := Sample.world_of Sample.misplaced_fs in
  ∃ w', import_to_darktable Sample.no_tool Sample.staging false 8 w = Ret tt w'
    ∧ (∀ k, k ≠ log_file → disk w' !! k = disk w !! k)
    ∧ errors (stats w') = [FailedToImport NotADirectoryError]
    ∧ log w' = [(ERROR, FailedToImport NotADirectoryError)].
Proof.
  intros w.
  assert (copy_organized Sample.no_tool Sample.staging 8 w = Raise NotADirectoryError w)
    as Hraise by (vm_compute; reflexivity).
  destruct (import_failure_recorded Sample.no_tool Sample.staging 8 w w
              NotADirectoryError) as (w' & Hrun & Hd & Hs & Hl).
  - vm_compute. eauto.
  - exact Hraise.
  - exists w'. split_and!; [exact Hrun | exact Hd | by rewrite Hs | exact Hl].
Defined.

(** ** Preparing the staging area *)

Lemma enotdir_false (m : fs) (pre rest : path) :
  (∀ q, q `prefix_of` pre ++ rest → is_file m q = false) → enotdir m pre rest = false.
Proof.
  revert pre. induction rest as [|c rest IH]; intros pre H; simpl; [done|].
  rewrite (H pre) by (by apply prefix_app_r). simpl.
  apply IH. intros q Hq. apply H. by rewrite <-app_assoc in Hq.
Qed.

Lemma mkdir_exist_ok_dir (p : path) (m : fs) :
  m !! p = Some Dir → mkdir_exist_ok p m = Ret tt m.
Proof.
  intros Hp. unfold mkdir_exist_ok, try_except, os_mkdir. rewrite Hp. cbn.
  unfold is_dir. by rewrite Hp.
Qed.

Lemma mkdir_exist_ok_new (p : path) (m : fs) :
  m !! p = None → m !! parent p = Some Dir →
  mkdir_exist_ok p m = Ret tt (<[p := Dir]> m).
Proof.
  intros Hp Hpar. unfold mkdir_exist_ok, try_except, os_mkdir. by rewrite Hp, Hpar.
Qed.

Lemma mkdir_parents_go_dir (n : nat) (p : path) (m : fs) :
  m !! p = Some Dir → mkdir_parents_go n p m = Ret tt m.
Proof.
  intros Hp. destruct n; simpl; unfold try_except, os_mkdir; rewrite Hp; cbn;
    unfold is_dir; by rewrite Hp.
Qed.

Lemma mkdir_parents_go_Ret (n : nat) (p : path) (m : fs) :
  wf m → length p ≤ n → (∀ q, q `prefix_of` p → is_file m q = false) →
  ∃ m', mkdir_parents_go n p m = Ret tt m' ∧ m' !! p = Some Dir.
Proof.
  revert p m. induction n as [|n IH]; intros p m Hwf Hlen Hnf.
  - destruct p; [|simpl in Hlen; lia]. exists m.
    split; [apply mkdir_parents_go_dir|]; by apply wf_root.
  - destruct (m !! p) as [[d t|]|] eqn:Hp.
    + specialize (Hnf p (reflexivity _)). unfold is_file in Hnf. by rewrite Hp in Hnf.
    + exists m. split; [by apply mkdir_parents_go_dir | done].
    + assert (p ≠ []) as Hne by (intros ->; rewrite (wf_root _ Hwf) in Hp; done).
      assert (parent p `prefix_of` p) as Hpre.
      { rewrite (path_split p Hne) at 2. by apply prefix_app_r. }
      destruct (m !! parent p) as [[d t|]|] eqn:Hpar.
      * specialize (Hnf _ Hpre). unfold is_file in Hnf. by rewrite Hpar in Hnf.
      * exists (<[p := Dir]> m). split; [|apply lookup_insert_eq].
        simpl. unfold try_except, os_mkdir. by rewrite Hp, Hpar.
      * assert (errno m p = FileNotFoundError) as Herr.
        { unfold errno. by rewrite (enotdir_false m [] p). }
        destruct (IH (parent p) m Hwf) as (m1 & Hrun & Hm1).
        { rewrite (path_split p Hne), length_app in Hlen. simpl in Hlen. lia. }
        { intros q Hq. apply Hnf. by transitivity (parent p). }
        assert (m1 !! p = None) as Hp1.
        { destruct (m1 !! p) eqn:Hp1; [|done].
          pose proof (above_mkdir_parents_go n (parent p) m p Hp) as [q Hq].
          { rewrite Hrun. simpl. rewrite Hp1. eauto. }
          assert (length p = length (parent p) + 1) as Hlp.
          { rewrite (path_split p Hne) at 1. rewrite length_app. simpl. lia. }
          apply (f_equal length) in Hq. rewrite length_app in Hq. lia. }
        exists (<[p := Dir]> m1). split; [|apply lookup_insert_eq].
        simpl. unfold try_except at 1, os_mkdir at 1. rewrite Hp, Hpar, Herr.
        destruct p as [|x p]; [done|].
        unfold bind. rewrite Hrun. by apply mkdir_exist_ok_new.
Qed.

Lemma mkdir_exist_ok_child (d : path) (n : string) (m : fs) :
  m !! d = Some Dir → is_file m (d ++ [n]) = false →
  ∃ m', mkdir_exist_ok (d ++ [n]) m = Ret tt m'
    ∧ m' !! (d ++ [n]) = Some Dir
    ∧ (∀ k, k ≠ d ++ [n] → m' !! k = m !! k)
    ∧ (∀ k, is_Some (m !! k) → m' !! k = m !! k).
Proof.
  intros Hd Hnf. destruct (m !! (d ++ [n])) as [[c t|]|] eqn:Hp.
  - unfold is_file in Hnf. by rewrite Hp in Hnf.
  - exists m. by split_and!; [apply mkdir_exist_ok_dir|..].
  - exists (<[d ++ [n] := Dir]> m). split_and!.
    + apply mkdir_exist_ok_new; [done|]. by rewrite parent_app.
    + apply lookup_insert_eq.
    + intros k Hk. by rewrite lookup_insert_ne.
    + intros k Hk. rewrite lookup_insert_ne; [done|]. intros <-. rewrite Hp in Hk.
      by destruct Hk.
Qed.

Lemma mkdirs_children (d : path) (ns : list string) (m : fs) :
  wf m → m !! d = Some Dir → NoDup ns →
  Forall (λ n, is_file m (d ++ [n]) = false) ns →
  ∃ m', for_each ns (λ n, mkdir_exist_ok (d ++ [n])) m = Ret tt m'
    ∧ wf m'
    ∧ Forall (λ n, m' !! (d ++ [n]) = Some Dir) ns
    ∧ (∀ k, is_Some (m !! k) → m' !! k = m !! k)
    ∧ (∀ k, m !! k = None → is_Some (m' !! k) → ∃ n, n ∈ ns ∧ k = d ++ [n]).
Proof.
  revert m. induction ns as [|n ns IH]; intros m Hwf Hd Hnd Hnf.
  { exists m. split_and!; try done. intros k -> Hk. by destruct Hk. }
  inversion_clear Hnd as [|? ? Hn Hnd']. inversion_clear Hnf as [|? ? Hfn Hnf'].
  destruct (mkdir_exist_ok_child d n m Hd Hfn) as (m1 & Hrun & Hdir & Hother & Hkeep).
  assert (wf m1) as Hwf1.
  { pose proof (Grows_mkdir_exist_ok (d ++ [n]) m Hwf) as [_ H]. by rewrite Hrun in H. }
  destruct (IH m1) as (m' & Hrest & Hwf' & Hdirs & Hkeep' & Hnew'); [done| |done| |].
  { rewrite Hkeep; [done|]. rewrite Hd. eauto. }
  { rewrite Forall_forall in Hnf'. apply Forall_forall. intros n' Hn'.
    unfold is_file. rewrite Hother.
    - by apply Hnf'.
    - intros [_ ->]%app_singleton_inj. done. }
  exists m'. cbn [for_each]. unfold bind. rewrite Hrun, Hrest. split_and!; try done.
  - constructor; [|done]. rewrite Hkeep'; [done|]. rewrite Hdir. eauto.
  - intros k Hk. rewrite Hkeep', Hkeep; [done..|]. by rewrite Hkeep.
  - intros k Hk Hk'. destruct (decide (k = d ++ [n])) as [->|Hne].
    + exists n. split; [left|done].
    + destruct (Hnew' k) as (n' & Hn' & ->); [by rewrite Hother|done|].
      exists n'. split; [by right|done].
Qed.

Lemma prepare_staging_eq (stage_dir : path) (w : world) :
  prepare_staging_area stage_dir false w
  = lift_fs (mkdir_parents stage_dir >>
             for_each staging_subdirs (λ n, mkdir_exist_ok (stage_dir ++ [n]))) w.
Proof.
  unfold prepare_staging_area, staging_subdirs, lift_fs. cbn [negb for_each]. unfold bind.
  destruct (mkdir_parents stage_dir (disk w)) as [[] m1| |]; [|done..].
  destruct (mkdir_exist_ok _ m1) as [[] m2| |]; [|done..].
  destruct (mkdir_exist_ok _ m2) as [[] m3| |]; [|done..].
  destruct (mkdir_exist_ok _ m3) as [[] m4| |]; [|done..].
  by destruct (mkdir_exist_ok _ m4) as [[] m5| |].
Qed.

Lemma prepare_staging_spec (stage_dir : path) (m : fs) :
  wf m →
  (∀ q, q `prefix_of` stage_dir → is_file m q = false) →
  Forall (λ sub, is_file m (stage_dir ++ [sub]) = false) staging_subdirs →
  ∃ m',
    (mkdir_parents stage_dir >>
     for_each staging_subdirs (λ n, mkdir_exist_ok (stage_dir ++ [n]))) m = Ret tt m'
    ∧ wf m'
    ∧ m' !! stage_dir = Some Dir
    ∧ Forall (λ sub, m' !! (stage_dir ++ [sub]) = Some Dir) staging_subdirs
    ∧ (∀ k, is_Some (m !! k) → m' !! k = m !! k)
    ∧ (∀ k, m !! k = None → is_Some (m' !! k) →
         k `prefix_of` stage_dir ∨ ∃ sub, sub ∈ staging_subdirs ∧ k = stage_dir ++ [sub]).
Proof.
  intros Hwf Hnf Hsubs.
  destruct (mkdir_parents_go_Ret (length stage_dir) stage_dir m Hwf (le_n _) Hnf)
    as (m1 & Hrun1 & Hst1).
  pose proof (Grows_mkdir_parents stage_dir m Hwf) as [Hsub1 Hwf1].
  pose proof (above_mkdir_parents_go (length stage_dir) stage_dir m) as Hab.
  unfold mkdir_parents in *. rewrite Hrun1 in Hsub1, Hwf1, Hab. simpl in Hsub1, Hwf1, Hab.
  assert (∀ k, is_Some (m !! k) → m1 !! k = m !! k) as Hkeep1.
  { intros k [x Hx]. rewrite Hx. by eapply lookup_weaken. }
  destruct (mkdirs_children stage_dir staging_subdirs m1 Hwf1 Hst1)
    as (m' & Hrun & Hwf' & Hdirs & Hkeep & Hnew).
  { decide_by_compute. }
  { rewrite Forall_forall in Hsubs. apply Forall_forall. intros sub Hsub.
    specialize (Hsubs sub Hsub). unfold is_file in *.
    destruct (m !! (stage_dir ++ [sub])) as [x|] eqn:Hx.
    - rewrite Hkeep1, Hx; [done|]. rewrite Hx. eauto.
    - destruct (m1 !! (stage_dir ++ [sub])) as [y|] eqn:Hy; [|done].
      destruct (Hab (stage_dir ++ [sub]) Hx) as [q Hq]; [rewrite Hy; eauto|].
      apply (f_equal length) in Hq. rewrite !length_app in Hq. simpl in Hq. lia. }
  exists m'. unfold bind. rewrite Hrun1, Hrun. split_and!; try done.
  - rewrite Hkeep; [done|]. rewrite Hst1. eauto.
  - intros k Hk. rewrite Hkeep, Hkeep1; [done..|]. by rewrite Hkeep1.
  - intros k Hk Hk'. destruct (m1 !! k) as [y|] eqn:Hy.
    + left. apply Hab; [done|]. rewrite Hy. eauto.
    + right. by apply Hnew.
Qed.

(** On a well-formed disk where neither the staging directory, nor a
    directory on the way to it, nor one of its four subdirectories is a
    regular file, preparing the staging area returns with the staging
    directory and the four subdirectories in place; every entry that was
    there is as before, what is new is one of these directories or lies
    on the way to the staging directory, the statistics are untouched,
    and preparing once more changes nothing. *)
Theorem prepare_staging_creates (stage_dir : path) (w : world) :
  wf (disk w) →
  (∀ q, q `prefix_of` stage_dir → is_file (disk w) q = false) →
  Forall (λ sub, is_file (disk w) (stage_dir ++ [sub]) = false) staging_subdirs →
  ∃ w',
    prepare_staging_area stage_dir false w = Ret tt w'
    ∧ disk w' !! stage_dir = Some Dir
    ∧ Forall (λ sub, disk w' !! (stage_dir ++ [sub]) = Some Dir) staging_subdirs
    ∧ (∀ k, is_Some (disk w !! k) → disk w' !! k = disk w !! k)
    ∧ (∀ k, disk w !! k = None → is_Some (disk w' !! k) →
         k `prefix_of` stage_dir ∨ ∃ sub, sub ∈ staging_subdirs ∧ k = stage_dir ++ [sub])
    ∧ stats w' = stats w
    ∧ prepare_staging_area stage_dir false w' = Ret tt w'.
Proof.
  intros Hwf Hnf Hsubs.
  destruct (prepare_staging_spec stage_dir (disk w) Hwf Hnf Hsubs)
    as (m' & Hrun & Hwf' & Hst & Hdirs & Hkeep & Hnew).
  exists (set_disk m' w). rewrite !prepare_staging_eq. unfold lift_fs at 1.
  rewrite Hrun. split_and!; try done.
  assert (∀ q, q `prefix_of` stage_dir → m' !! q = Some Dir) as Hpre.
  { intros q [r ->]. destruct r as [|x r]; [by rewrite app_nil_r in Hst|].
    apply (wf_prefix m' q (x :: r)); [done| |done]. rewrite Hst. eauto. }
  destruct (prepare_staging_spec stage_dir m' Hwf') as (m2 & Hrun2 & _ & _ & _ & Hkeep2 & Hnew2).
  { intros q Hq. unfold is_file. by rewrite (Hpre q Hq). }
  { eapply Forall_impl; [exact Hdirs|]. intros sub Hsub. unfold is_file. by rewrite Hsub. }
  assert (m2 = m') as ->.
  { apply map_eq. intros k. destruct (m' !! k) as [x|] eqn:Hk.
    - rewrite Hkeep2, Hk; [done|]. rewrite Hk. eauto.
    - destruct (m2 !! k) as [y|] eqn:Hy; [|done].
      destruct (Hnew2 k Hk) as [Hq|(sub & Hsub & ->)]; [rewrite Hy; eauto| |].
      + rewrite (Hpre k Hq) in Hk. done.
      + rewrite Forall_forall in Hdirs. rewrite (Hdirs sub Hsub) in Hk. done. }
  unfold lift_fs. cbn [disk set_disk]. rewrite Hrun2. reflexivity.
Qed.

Lemma prepare_staging_creates_witness :
  let w := Sample.world_of Sample.source_fs in
  ∃ w',
    prepare_staging_area Sample.staging false w = Ret tt w'
    ∧ disk w' !! Sample.staging = Some Dir
    ∧ disk w' !! Sample.quarantine_dir = Some Dir
    ∧ disk w' !! (Sample.lib ++ ["a.JPG"%string]) = Some (File "12345" 31%Z)
    ∧ prepare_staging_area Sample.staging false w' = Ret tt w'.
Proof.
  intros w.
  destruct (prepare_staging_creates Sample.staging w)
    as (w' & Hrun & Hst & Hdirs & Hkeep & _ & _ & Hagain).
  - apply wfb_wf. vm_compute. reflexivity.
  - intros q [r Hq]. unfold Sample.staging in Hq.
    destruct q as [|a [|b [|c q]]]; simpl in Hq; simplify_eq; vm_compute; reflexivity.
  - unfold staging_subdirs. repeat constructor; vm_compute; reflexivity.
  - exists w'. split_and!; [exact Hrun | exact Hst | | | exact Hagain].
    + rewrite Forall_forall in Hdirs. apply (Hdirs "duplicates"%string).
      decide_by_compute.
    + rewrite Hkeep; [vm_compute; reflexivity|]. vm_compute. eauto.
Defined.

(** ** A staging directory that cannot be prepared *)

Lemma mkdir_parents_file (p : path) (m : fs) (d : string) (t : Z) :
  m !! p = Some (File d t) → mkdir_parents p m = Raise FileExistsError m.
Proof.
  intros Hp. unfold mkdir_parents.
  destruct (length p); simpl; unfold try_except, os_mkdir; rewrite Hp; cbn;
    unfold is_dir; by rewrite Hp.
Qed.

(** When the staging directory is a regular file, a real run of the
    whole pipeline stops at the preparation of the staging area: it
    raises [FileExistsError] after the discovery has set its counts, the
    failure is the one entry added to the error list and the last record
    of the log, no path other than the log file has changed, and no
    report is written. *)
Theorem blocked_staging_stops_run (jdupes : fs → list path → proc_result)
    (exiftool : fs → path → proc_result) (darktable_cli : fs → proc_result)
    (fromtimestamp : Z → datetime) (now : string) (clock : Z)
    (json_dumps : report → string) (stage_dir : path) (fuel : nat) (w : world) :
  wf (disk w) → depth (disk w) < fuel → is_file (disk w) stage_dir = true →
  ∃ w',
    run_full_consolidation jdupes exiftool darktable_cli fromtimestamp now clock
      json_dumps stage_dir false fuel w = Raise FileExistsError w'
    ∧ (∀ k, k ≠ log_file → disk w' !! k = disk w !! k)
    ∧ errors (stats w') = errors (stats w) ++ [StrOf FileExistsError]
    ∧ files_found (stats w') = sum_list (file_count ∘ snd <$> found_in (disk w) sources)
    ∧ files_copied (stats w') = files_copied (stats w)
    ∧ log w' = log w ++ missing_in (disk w) sources
               ++ [(ERROR, ConsolidationFailed FileExistsError)].
Proof.
  intros Hwf Hfuel (d & t & Hst)%is_file_true.
  unfold run_full_consolidation, try_except, bind at 1.
  rewrite discover_spec by done. unfold bind at 1 2, modify.
  unfold run_stages, bind at 1, prepare_staging_area. cbn [negb].
  unfold lift_fs, bind at 1. cbn [disk set_stats].
  rewrite (mkdir_parents_file stage_dir (disk w) d t Hst).
  eexists. split; [reflexivity|]. cbn. split_and!; try done. by rewrite <-app_assoc.
Qed.

Lemma blocked_staging_stops_run_witness :
  let w := Sample.world_of Sample.source_fs in
  ∃ w',
    run_full_consolidation Sample.no_jdupes Sample.exif_2019 Sample.no_tool Sample.epoch
      "now" 40%Z Sample.no_json (Sample.lib ++ ["a.JPG"%string]) false 8 w
    = Raise FileExistsError w'
    ∧ (∀ k, k ≠ log_file → disk w' !! k = disk w !! k)
    ∧ errors (stats w') = [StrOf FileExistsError]
    ∧ files_copied (stats w') = 0.
Proof.
  intros w.
  destruct (blocked_staging_stops_run Sample.no_jdupes Sample.exif_2019 Sample.no_tool
              Sample.epoch "now" 40%Z Sample.no_json (Sample.lib ++ ["a.JPG"%string]) 8 w)
    as (w' & Hrun & Hdisk & Herr & _ & Hcopied & _).
  - apply wfb_wf. vm_compute. reflexivity.
  - vm_compute. lia.
  - vm_compute. reflexivity.
  - exists w'. split_and!; [exact Hrun | exact Hdisk | exact Herr | exact Hcopied].
Defined.

(** ** The organizer goes on after a failure *)










(** ** The discovery *)

(** On a well-formed disk, with fuel above its depth, the discovery
    returns one entry for each of the three roots that exists, in the
    order of the table, with the number of photo files and the number of
    bytes below it; it logs a warning for each root that does not exist,
    and changes neither the statistics nor any path other than the log
    file. *)
Theorem discovery_lists_existing_roots (fuel : nat) (w : world) :
  wf (disk w) → depth (disk w) < fuel →
  ∃ w',
    discover_photo_sources fuel w = Ret (found_in (disk w) sources) w'
    ∧ (∀ k, k ≠ log_file → disk w' !! k = disk w !! k)
    ∧ stats w' = stats w
    ∧ log w' = log w ++ missing_in (disk w) sources
    ∧ stdout w' = stdout w.
Proof.
  intros Hwf Hfuel. rewrite discover_spec by done.
  by eexists; split_and!; [reflexivity|..].
Qed.

Lemma discovery_lists_existing_roots_witness :
  let w := Sample.world_of Sample.source_fs in
  ∃ w',
    discover_photo_sources 8 w
    = Ret [("primary"%string, mk_source_info Sample.lib 2 16%N)] w'
    ∧ stats w' = stats w
    ∧ log w' = [(WARNING, SourceNotFound ["media"; "joel"]%string);
                (WARNING, SourceNotFound ["mnt"; "external"]%string)].
Proof.
  intros w.
  assert (wf (disk w)) as Hwf by (apply wfb_wf; vm_compute; reflexivity).
  assert (depth (disk w) < 8) as Hfuel by (vm_compute; lia).
  destruct (discovery_lists_existing_roots 8 w Hwf Hfuel) as (w' & Hrun & _ & Hs & Hl & _).
  exists w'. split_and!; [|exact Hs|].
  - refine (eq_trans Hrun _). apply (f_equal (λ l, Ret l w')). vm_compute. reflexivity.
  - refine (eq_trans Hl _). vm_compute. reflexivity.
Defined.
